(** * Roles: the member state transition engine, embedded and verified

    A shallow embedding of [main.py] of the Roles extension: duration
    parsing for the penitentiary commands, the entropy check of the
    message monitor, the vetting ledger with its per-member locks, and the
    incarceration scheduler.  Every definition is written after the Python
    function of the same name.  The definitions come first, then a few
    concrete worlds, then the theorems that relate the code to the design
    document. *)

From Stdlib Require Import ZArith Lia List Ascii String Bool Reals Lra.
From stdpp Require Import gmap strings list fin_maps.
Import ListNotations.

(* ===================================================================== *)
(** * Duration parsing ([Roles.parse_duration])                          *)
(* ===================================================================== *)

Module Duration.
Local Open Scope string_scope.
Local Open Scope Z_scope.

(** A [str] is the list of its code points; [text] gives the code
    points of a text of 8-bit characters. *)
Definition text (s : string) : list Z :=
  map (λ c, Z.of_nat (nat_of_ascii c)) (list_ascii_of_string s).

(** The exception classes that occur in [parse_duration].
    [ValueError_int_digits] is the [ValueError] of [int], "Exceeds the limit
    (4300 digits) for integer string conversion: value has [digits]
    digits". *)
Inductive exn : Type :=
| ValueError (msg : string)
| ValueError_int_digits (digits : Z)
| KeyError
| AttributeError
| OverflowError.

(** [datetime.timedelta], built from whole seconds only.  The type holds
    at most 999999999 days in either direction; the constructor raises
    [OverflowError] beyond that. *)
Record timedelta : Type := mk_timedelta { total_seconds : Z }.

Definition MAX_DELTA_DAYS : Z := 999999999.

Definition timedelta_of_seconds (seconds : Z) : exn + timedelta :=
  let days := seconds / 86400 in
  if (- MAX_DELTA_DAYS <=? days) && (days <=? MAX_DELTA_DAYS)
  then inr (mk_timedelta seconds)
  else inl OverflowError.

(** The largest number of whole seconds a [timedelta] holds. *)
Definition MAX_DELTA_SECONDS : Z := 86399999999999.

(** The decimal digits of Unicode 14.0, the table of CPython 3.11: 66 runs
    of ten code points, each in the order 0 to 9.  The list holds the zero
    of every run, the ASCII digits first. *)
Definition decimal_zeros : list Z :=
  [48; 1632; 1776; 1984; 2406; 2534; 2662; 2790; 2918; 3046; 3174; 3302; 3430; 3558;
   3664; 3792; 3872; 4160; 4240; 6112; 6160; 6470; 6608; 6784; 6800; 6992; 7088; 7232;
   7248; 42528; 43216; 43264; 43472; 43504; 43600; 44016; 65296; 66720; 68912; 69734;
   69872; 69942; 70096; 70384; 70736; 70864; 71248; 71360; 71472; 71904; 72016; 72784;
   73040; 73120; 92768; 92864; 93008; 120782; 120792; 120802; 120812; 120822; 123200;
   123632; 125264; 130032].

(** [Py_UNICODE_TODECIMAL]: the value of a decimal digit, [None] for any
    other character. *)
Definition to_decimal (c : Z) : option Z :=
  (λ zero, c - zero) <$> List.find (λ zero, (zero <=? c) && (c <? zero + 10)) decimal_zeros.

(** Character classes of the pattern [(\d+)([dhm])] with [re.IGNORECASE]:
    [\d] is any decimal digit of Unicode; no letter but the six has the
    case folding of [d], [h] or [m]. *)
Definition is_digit (c : Z) : bool :=
  match to_decimal c with Some _ => true | None => false end.

Definition is_dhm (c : Z) : bool :=
  (c =? 100) || (c =? 104) || (c =? 109) || (c =? 68) || (c =? 72) || (c =? 77).

(** [str.lower] on one character of the class [[dhm]], the only ones it
    is called on: the capital letters of ASCII go to the small ones. *)
Definition lower (c : Z) : Z :=
  if (65 <=? c) && (c <=? 90) then c + 32 else c.

(** [_UNIT_MAP]: a failed lookup is Python's [KeyError]. *)
Definition _UNIT_MAP (unit : list Z) : option Z :=
  if bool_decide (unit = text "d") then Some 86400
  else if bool_decide (unit = text "h") then Some 3600
  else if bool_decide (unit = text "m") then Some 60
  else None.

(** [int] on a run of decimal digits, as [\d+] hands it over.  A run of
    more than [sys.int_info.default_max_str_digits] digits, leading zeros
    counted, is refused with a [ValueError]. *)
Definition digit_value (c : Z) : Z := default 0 (to_decimal c).

Fixpoint int_from (acc : Z) (digits : list Z) : Z :=
  match digits with
  | [] => acc
  | c :: rest => int_from (10 * acc + digit_value c) rest
  end.

Definition MAX_STR_DIGITS : Z := 4300.

Definition int (digits : list Z) : exn + Z :=
  if MAX_STR_DIGITS <? Z.of_nat (length digits)
  then inl (ValueError_int_digits (Z.of_nat (length digits)))
  else inr (int_from 0 digits).

(** [\d+] is greedy: it takes the longest run of digits at the head. *)
Fixpoint span_digits (s : list Z) : list Z * list Z :=
  match s with
  | [] => ([], [])
  | c :: rest =>
      if is_digit c
      then let (run, tail) := span_digits rest in (c :: run, tail)
      else ([], s)
  end.

(** The pattern tried at the head of [s]: the two groups and the text left
    after the match.  Giving back digits cannot help: the character after
    a shorter run is a digit, which [[dhm]] refuses. *)
Definition match_here (s : list Z) : option (list Z * Z * list Z) :=
  match span_digits s with
  | (c :: run, u :: tail) =>
      if is_dhm u then Some (c :: run, u, tail) else None
  | _ => None
  end.

(** [re.finditer]: leftmost matches, not overlapping, left to right.  After
    a match the scan goes on behind it, otherwise one character further.
    The text left always is shorter, so [S (length s)] steps are enough. *)
Fixpoint finditer_fuel (fuel : nat) (s : list Z) : list (list Z * Z) :=
  match fuel with
  | O => []
  | S fuel' =>
      match s with
      | [] => []
      | _ :: rest =>
          match match_here s with
          | Some (digits, unit, tail) => (digits, unit) :: finditer_fuel fuel' tail
          | None => finditer_fuel fuel' rest
          end
      end
  end.

Definition finditer (s : list Z) : list (list Z * Z) :=
  finditer_fuel (S (length s)) s.

(** [sum(int(m.group(1)) * _UNIT_MAP[m.group(2).lower()] for m in ...)],
    a left fold from 0 that stops at the first exception; of the two
    factors [int] is evaluated first. *)
Fixpoint sum_from (acc : Z) (ms : list (list Z * Z)) : exn + Z :=
  match ms with
  | [] => inr acc
  | (g1, g2) :: ms' =>
      match int g1 with
      | inl e => inl e
      | inr n =>
          match _UNIT_MAP [lower g2] with
          | Some w => sum_from (acc + n * w) ms'
          | None => inl KeyError
          end
      end
  end.

Definition msg_invalid_format : string :=
  "Invalid duration format. Use combinations of `d` (days), `h` (hours), and `m` (minutes).".

Definition msg_not_positive : string :=
  "Incarceration time must be greater than zero.".

(** The [try] block of [parse_duration]. *)
Definition parse_duration_body (duration : list Z) : exn + timedelta :=
  match sum_from 0 (finditer duration) with
  | inl e => inl e
  | inr total =>
      if total <=? 0 then inl (ValueError EmptyString)
      else timedelta_of_seconds total
  end.

(** [parse_duration] with its two handlers; any other exception goes
    through to the caller. *)
Definition parse_duration (duration : list Z) : exn + timedelta :=
  match parse_duration_body duration with
  | inr td => inr td
  | inl AttributeError | inl KeyError => inl (ValueError msg_invalid_format)
  | inl (ValueError _) | inl (ValueError_int_digits _) => inl (ValueError msg_not_positive)
  | inl e => inl e
  end.

(** ** The grammar of the design document

    The sum over all [<integer><unit>] tokens: a token is a maximal run of
    decimal digits with a unit letter right behind it; [d], [h], [m] in
    either case weigh 86400, 3600 and 60 seconds. *)
Definition spec_weight (c : Z) : option Z :=
  if (c =? 100) || (c =? 68) then Some 86400
  else if (c =? 104) || (c =? 72) then Some 3600
  else if (c =? 109) || (c =? 77) then Some 60
  else None.

(** [run] is the value of the digit run that ends right before [s]. *)
Fixpoint spec_seconds_from (run : option Z) (s : list Z) : Z :=
  match s with
  | [] => 0
  | c :: rest =>
      if is_digit c
      then spec_seconds_from (Some (10 * default 0 run + digit_value c)) rest
      else match run, spec_weight c with
           | Some n, Some w => n * w + spec_seconds_from None rest
           | _, _ => spec_seconds_from None rest
           end
  end.

Definition spec_total_seconds (s : list Z) : Z := spec_seconds_from None s.

(** The digit run a scan is in after [s], when it was in [run] before. *)
Fixpoint spec_run_after (run : option Z) (s : list Z) : option Z :=
  match s with
  | [] => run
  | c :: rest =>
      if is_digit c
      then spec_run_after (Some (10 * default 0 run + digit_value c)) rest
      else spec_run_after None rest
  end.

(** The number of digits of the longest integer of a token; [run] is the
    number of digits of the run that ends right before [s]. *)
Fixpoint spec_longest_from (run : Z) (s : list Z) : Z :=
  match s with
  | [] => 0
  | c :: rest =>
      if is_digit c then spec_longest_from (run + 1) rest
      else if (0 <? run) && is_dhm c then Z.max run (spec_longest_from 0 rest)
      else spec_longest_from 0 rest
  end.

Definition spec_longest_integer (s : list Z) : Z := spec_longest_from 0 s.

(** Shapes of text used in the statements below. *)
Fixpoint all_digits (s : list Z) : bool :=
  match s with
  | [] => true
  | c :: rest => is_digit c && all_digits rest
  end.

Fixpoint no_digit (s : list Z) : bool :=
  match s with
  | [] => true
  | c :: rest => negb (is_digit c) && no_digit rest
  end.

Fixpoint ends_in_digit (s : list Z) : bool :=
  match s with
  | [] => false
  | [c] => is_digit c
  | _ :: rest => ends_in_digit rest
  end.

Definition starts_with_digit (s : list Z) : bool :=
  match s with
  | [] => false
  | c :: _ => is_digit c
  end.

(** No match has an integer of more than [limit] digits. *)
Definition integers_within (limit : Z) (ms : list (list Z * Z)) : bool :=
  forallb (λ m, Z.of_nat (length m.1) <=? limit) ms.

End Duration.

(* ===================================================================== *)
(** * The entropy check of the message monitor ([Message])               *)
(* ===================================================================== *)

(** [numpy]'s [float64] arithmetic is read as arithmetic on the reals and
    [np.log2] as the logarithm to base 2; a message is its list of code
    points. *)
Module Entropy.
Local Open Scope R_scope.

Definition log2 (x : R) : R := ln x / ln 2.

(** [collections.Counter]: the keys in the order they first occur, each
    with its number of occurrences. *)
Fixpoint counter_add (c : Z) (counts : list (Z * nat)) : list (Z * nat) :=
  match counts with
  | [] => [(c, 1%nat)]
  | (k, n) :: rest =>
      if Z.eqb k c then (k, S n) :: rest else (k, n) :: counter_add c rest
  end.

Definition Counter (msg : list Z) : list (Z * nat) :=
  fold_left (fun counts c => counter_add c counts) msg [].

(** [ord(c) in range(0x4E00, 0x9FFF + 1) or ord(c) in range(0x3400, 0x4DBF + 1)] *)
Definition is_cjk (c : Z) : bool :=
  ((19968 <=? c) && (c <? 40959 + 1) || (13312 <=? c) && (c <? 19903 + 1))%Z.

(** The fields [__post_init__] derives from the text, and the threshold
    the check reads from [config]. *)
Record Message : Type := mk_Message {
  message : list Z;
  MIN_MESSAGE_ENTROPY : R;
}.

Definition _message_length (m : Message) : nat := List.length (message m).
Definition _char_frequencies (m : Message) : list (Z * nat) := Counter (message m).
Definition _is_chinese (m : Message) : bool := existsb is_cjk (message m).

(** [np.sum] of a vector. *)
Definition np_sum (v : list R) : R := fold_right Rplus 0 v.

Definition entropy_of (m : Message) : R :=
  let freqs := map (fun kv => INR (snd kv)) (_char_frequencies m) in
  let probs := map (fun f => f / INR (_message_length m)) freqs in
  - np_sum (map (fun p => p * log2 p) probs).

Definition base_threshold (m : Message) : R :=
  MIN_MESSAGE_ENTROPY m * (if _is_chinese m then 0.7 else 1.0).

Definition length_adjustment (m : Message) : R :=
  (log2 (INR (Nat.max (_message_length m) 2)) / 10)
  * (if _is_chinese m then 0.8 else 1.0).

(** [Message._check_entropy] *)
Definition _check_entropy (m : Message) : bool :=
  match _message_length m with
  | O => false
  | S _ =>
      if Rlt_dec (entropy_of m) (Rmax (base_threshold m) (2.0 - length_adjustment m))
      then true else false
  end.

(** [limit_config["MIN_MESSAGE_ENTROPY"]] as the extension starts. *)
Definition default_MIN_MESSAGE_ENTROPY : R := 1.5.

(** ** The check as the design document words it

    Shannon entropy to base 2 of the character-frequency distribution:
    every distinct character [c] contributes [- p c * log2 (p c)], where
    [p c] is the share of the positions of the text that hold [c]. *)
Definition spec_probability (msg : list Z) (c : Z) : R :=
  INR (count_occ Z.eq_dec msg c) / INR (List.length msg).

Definition spec_shannon_entropy (msg : list Z) : R :=
  fold_right Rplus 0
    (map (fun c => - (spec_probability msg c * log2 (spec_probability msg c)))
         (nodup Z.eq_dec msg)).

Definition spec_floor (min_entropy : R) (msg : list Z) : R :=
  let cjk := existsb is_cjk msg in
  Rmax (min_entropy * (if cjk then 0.7 else 1.0))
       (2.0 - (log2 (INR (Nat.max (List.length msg) 2)) / 10)
              * (if cjk then 0.8 else 1.0)).

(** ** Reading a [Counter] *)

(** The count recorded for [k], 0 when [k] is no key. *)
Fixpoint count_of (k : Z) (counts : list (Z * nat)) : nat :=
  match counts with
  | [] => 0%nat
  | (k0, n) :: rest => if Z.eqb k0 k then n else count_of k rest
  end.

End Entropy.

(* ===================================================================== *)
(** * The vetting ledger, the member locks and the penitentiary          *)
(* ===================================================================== *)

Module Engine.
Local Open Scope Z_scope.

(** ** Data model *)

(** [Config], with the fields these operations read. *)
Record Config : Type := mk_Config {
  VETTING_ROLE_IDS : list Z;
  ELECTORAL_ROLE_ID : Z;
  APPROVED_ROLE_ID : Z;
  TEMPORARY_ROLE_ID : Z;
  INCARCERATED_ROLE_ID : Z;
  AUTHORIZED_PENITENTIARY_ROLE_IDS : list Z;
  REQUIRED_APPROVALS : Z;
  REQUIRED_REJECTIONS : Z;
  REJECTION_WINDOW_DAYS : Z;
}.

(** [Config()]: the values the dataclass declares. *)
Definition Config_default : Config := {|
  VETTING_ROLE_IDS := [1200066469300551782];
  ELECTORAL_ROLE_ID := 1200043628899356702;
  APPROVED_ROLE_ID := 1282944839679344721;
  TEMPORARY_ROLE_ID := 1164761892015833129;
  INCARCERATED_ROLE_ID := 1247284720044085370;
  AUTHORIZED_PENITENTIARY_ROLE_IDS := [1200097748259717193; 1247144717083476051];
  REQUIRED_APPROVALS := 3;
  REQUIRED_REJECTIONS := 3;
  REJECTION_WINDOW_DAYS := 7;
|}.

Inductive Status : Type := APPROVED | REJECTED.

Inductive Action : Type := ADD | REMOVE | INCARCERATE | RELEASE.

(** [Approval]; an instant is a number of microseconds, the resolution of
    [datetime]. *)
Record Approval : Type := mk_Approval {
  approval_count : Z;
  rejection_count : Z;
  reviewers : gset Z;
  last_approval_time : option Z;
}.

(** [Approval()] *)
Definition Approval_default : Approval := mk_Approval 0 0 ∅ None.

(** One entry of [member_role_locks]: whether the [asyncio.Lock] is held
    and the ["last_used"] instant. *)
Record LockInfo : Type := mk_LockInfo {
  locked : bool;
  last_used : Z;
}.

(** One entry of [incarcerated_members]: ["release_time"] in epoch seconds
    and ["original_roles"]. *)
Record Incarceration : Type := mk_Incarceration {
  release_time : Z;
  original_roles : list Z;
}.

(** The interaction a command or a button click arrives with. *)
Record Context : Type := mk_Context {
  author_id : Z;
  author_roles : gset Z;
  channel_id : Z;
}.

(** Where [send_response] delivers: an interaction or a thread. *)
Inductive Target : Type :=
| Interaction (ctx : Context)
| Thread (thread_id : Z).

(** [OSError] is what a failing [save_data] raises; [ValueError_load] is
    the [ValueError] of a failing [load_data]. *)
Inductive exn : Type :=
| KeyError
| TypeError
| AttributeError
| ValueError_not_in_thread
| ValueError_load
| OSError
| RemoteError.

(** The keys of the dict of [_get_role_ids]. *)
Inductive RoleKey : Type :=
| Key_incarcerated
| Key_electoral
| Key_approved
| Key_temporary.

(** The texts the operations send or log, with the values they format in. *)
Inductive Text : Type :=
| Insufficient_permissions
| Member_not_found_in_server
| Required_roles_configuration_invalid
| Duplicate_vote_detected
| Invalid_status
| Processing_error_occurred
| Status_change_failed (e : exn)
| Already_has_electoral_role (member : Z)
| Approval_registered (member count remaining : Z)
| Approved_by (member : Z) (record : Approval)
| Not_yet_approved (member : Z)
| Rejection_window_expired (member : Z)
| Rejection_registered (member count remaining : Z)
| Rejected_by (member : Z) (record : Approval)
| Role_update_failed_after_retries
| Role_verification_failed (attempt : nat)
| Critical_role_update_error (member : Z) (e : exn)
| No_permission_for_command
| Required_roles_not_found
| Invalid_penitentiary_action (action : Action)
| Failed_to_fetch_role (key : RoleKey) (role_id : Z) (e : exn)
| Error_assigning_roles (e : exn)
| Incarcerated_until (member until : Z) (executor : option Z)
| Released_by (member : Z) (executor : option Z) (at_time scheduled : Z)
| Error_fetching_member (member_id : Z) (e : exn) (scheduled : Z)
| Release_member_not_found (member_id scheduled : Z)
| Release_failed (member_id : Z) (e : exn) (scheduled : Z)
| Error_releasing_prisoner (e : exn)
| Failed_to_save_incarcerated_members
| Error_in_command (e : exn).

Inductive Level : Type := ERROR | WARNING.

Inductive Title : Type := Error_title | Success_title.

(** What leaves the process: a reply to an interaction or a post in a
    thread, a post in the log channel and in the log forum, an edit of the
    review message. *)
Inductive Sent : Type :=
| To (target : Target) (title : Title) (text : Text)
| To_log_channel (title : Title) (text : Text)
| To_log_forum (title : Title) (text : Text)
| Review_edited (thread_id : Z) (shown_approvals : Z).

Inductive Channel : Type :=
| GuildPublicThread (owner_id : Z)
| GuildText
| GuildForum.

(** The chat platform.  The directory is the one source of truth for the
    roles a member holds; the role list of a member object is read from it.
    [fetch_fails] and [edit_fails] are the members for whom a fetch or a
    role edit is answered with an error. *)
Record Remote : Type := mk_Remote {
  guild_reachable : bool;
  channels : gmap Z Channel;
  guild_roles : gset Z;
  members : gmap Z (gset Z);
  fetch_fails : gset Z;
  edit_fails : gset Z;
}.

(** The extension object, its collaborators and what it has emitted.
    [clock] is the current instant in microseconds: [datetime.now] reads
    it as it is, [time.time] in seconds. *)
Record World : Type := mk_World {
  approval_counts : gmap Z Approval;
  processed_thread_ids : gset Z;
  member_role_locks : gmap Z LockInfo;
  incarcerated_members : gmap Z Incarceration;
  remote : Remote;
  storage_ok : bool;
  incarcerated_members_json : gmap Z Incarceration;
  release_tasks : list (Z * Incarceration * Z);
  clock : Z;
  log : list (Level * Text);
  outbox : list Sent;
}.

Definition set_approval_counts (f : gmap Z Approval → gmap Z Approval) (w : World) : World :=
  mk_World (f (approval_counts w)) (processed_thread_ids w) (member_role_locks w)
    (incarcerated_members w) (remote w) (storage_ok w) (incarcerated_members_json w)
    (release_tasks w) (clock w) (log w) (outbox w).

Definition set_processed_thread_ids (f : gset Z → gset Z) (w : World) : World :=
  mk_World (approval_counts w) (f (processed_thread_ids w)) (member_role_locks w)
    (incarcerated_members w) (remote w) (storage_ok w) (incarcerated_members_json w)
    (release_tasks w) (clock w) (log w) (outbox w).

Definition set_member_role_locks (f : gmap Z LockInfo → gmap Z LockInfo) (w : World) : World :=
  mk_World (approval_counts w) (processed_thread_ids w) (f (member_role_locks w))
    (incarcerated_members w) (remote w) (storage_ok w) (incarcerated_members_json w)
    (release_tasks w) (clock w) (log w) (outbox w).

Definition set_incarcerated_members (f : gmap Z Incarceration → gmap Z Incarceration)
    (w : World) : World :=
  mk_World (approval_counts w) (processed_thread_ids w) (member_role_locks w)
    (f (incarcerated_members w)) (remote w) (storage_ok w) (incarcerated_members_json w)
    (release_tasks w) (clock w) (log w) (outbox w).

Definition set_members (f : gmap Z (gset Z) → gmap Z (gset Z)) (w : World) : World :=
  let r := remote w in
  mk_World (approval_counts w) (processed_thread_ids w) (member_role_locks w)
    (incarcerated_members w)
    (mk_Remote (guild_reachable r) (channels r) (guild_roles r) (f (members r))
       (fetch_fails r) (edit_fails r))
    (storage_ok w) (incarcerated_members_json w)
    (release_tasks w) (clock w) (log w) (outbox w).

Definition set_incarcerated_members_json (f : gmap Z Incarceration → gmap Z Incarceration)
    (w : World) : World :=
  mk_World (approval_counts w) (processed_thread_ids w) (member_role_locks w)
    (incarcerated_members w) (remote w) (storage_ok w) (f (incarcerated_members_json w))
    (release_tasks w) (clock w) (log w) (outbox w).

Definition add_release_task (t : Z * Incarceration * Z) (w : World) : World :=
  mk_World (approval_counts w) (processed_thread_ids w) (member_role_locks w)
    (incarcerated_members w) (remote w) (storage_ok w) (incarcerated_members_json w)
    (release_tasks w ++ [t]) (clock w) (log w) (outbox w).

Definition set_clock (t : Z) (w : World) : World :=
  mk_World (approval_counts w) (processed_thread_ids w) (member_role_locks w)
    (incarcerated_members w) (remote w) (storage_ok w) (incarcerated_members_json w)
    (release_tasks w) t (log w) (outbox w).

Definition add_log (l : Level * Text) (w : World) : World :=
  mk_World (approval_counts w) (processed_thread_ids w) (member_role_locks w)
    (incarcerated_members w) (remote w) (storage_ok w) (incarcerated_members_json w)
    (release_tasks w) (clock w) (log w ++ [l]) (outbox w).

Definition add_sent (s : Sent) (w : World) : World :=
  mk_World (approval_counts w) (processed_thread_ids w) (member_role_locks w)
    (incarcerated_members w) (remote w) (storage_ok w) (incarcerated_members_json w)
    (release_tasks w) (clock w) (log w) (outbox w ++ [s]).

(** ** Coroutines as state transformers

    A coroutine runs on the world and ends with a value or an exception,
    or it is parked at a lock somebody else holds ([Wait]); what it does
    after the lock is handed over is not part of this model. *)
Inductive outcome (A : Type) : Type :=
| Ret (a : A)
| Raise (e : exn)
| Wait.
Arguments Ret {A} a.
Arguments Raise {A} e.
Arguments Wait {A}.

Definition M (A : Type) : Type := World → outcome A * World.

Definition ret {A} (a : A) : M A := λ w, (Ret a, w).

Definition bind {A B} (m : M A) (k : A → M B) : M B :=
  λ w, match m w with
       | (Ret a, w') => k a w'
       | (Raise e, w') => (Raise e, w')
       | (Wait, w') => (Wait, w')
       end.

Definition raise {A} (e : exn) : M A := λ w, (Raise e, w).

Definition gets {A} (f : World → A) : M A := λ w, (Ret (f w), w).

Definition modify (f : World → World) : M unit := λ w, (Ret tt, f w).

(** [try: body except Exception as e: handler e] *)
Definition try_except {A} (body : M A) (handler : exn → M A) : M A :=
  λ w, match body w with
       | (Raise e, w') => handler e w'
       | r => r
       end.

(** [try: body finally: final] *)
Definition try_finally {A} (body : M A) (final : M unit) : M A :=
  λ w, match body w with
       | (Ret a, w') =>
           match final w' with
           | (Ret _, w'') => (Ret a, w'')
           | (Raise e, w'') => (Raise e, w'')
           | (Wait, w'') => (Wait, w'')
           end
       | (Raise e, w') =>
           match final w' with
           | (Ret _, w'') => (Raise e, w'')
           | (Raise e', w'') => (Raise e', w'')
           | (Wait, w'') => (Wait, w'')
           end
       | (Wait, w') => (Wait, w')
       end.

Notation "x <- c1 ;; c2" := (bind c1 (λ x, c2))
  (at level 100, c1 at next level, right associativity).
Notation "c1 ;;; c2" := (bind c1 (λ _, c2))
  (at level 100, right associativity).

Definition when (b : bool) (m : M unit) : M unit := if b then m else ret tt.

(** ** The collaborators *)

Definition datetime_now : M Z := gets clock.

Definition logger (level : Level) (text : Text) : M unit :=
  modify (add_log (level, text)).

(** [bot.fetch_guild] *)
Definition fetch_guild : M unit :=
  λ w, if guild_reachable (remote w) then (Ret tt, w) else (Raise RemoteError, w).

(** [bot.fetch_channel] *)
Definition fetch_channel (id : Z) : M (option Channel) :=
  gets (λ w, channels (remote w) !! id).

(** [guild.fetch_member]: [None] for somebody who is not in the guild. *)
Definition fetch_member (member_id : Z) : M (option Z) :=
  λ w, if bool_decide (member_id ∈ fetch_fails (remote w)) then (Raise RemoteError, w)
       else match members (remote w) !! member_id with
            | Some _ => (Ret (Some member_id), w)
            | None => (Ret None, w)
            end.

(** [member.roles], as role ids. *)
Definition member_roles (member : Z) : M (gset Z) :=
  gets (λ w, default ∅ (members (remote w) !! member)).

Definition edit_roles (member : Z) (f : gset Z → gset Z) : M unit :=
  λ w, if bool_decide (member ∈ edit_fails (remote w)) then (Raise RemoteError, w)
       else match members (remote w) !! member with
            | Some roles => (Ret tt, set_members (<[member := f roles]>) w)
            | None => (Raise RemoteError, w)
            end.

(** [member.remove_roles] and [member.add_roles] *)
Definition remove_roles (member : Z) (roles : gset Z) : M unit :=
  edit_roles member (λ held, held ∖ roles).

Definition add_roles (member : Z) (roles : gset Z) : M unit :=
  edit_roles member (λ held, held ∪ roles).

(** [guild.fetch_role]: [None] for a role the guild does not have. *)
Definition fetch_role (role_id : Z) : M (option Z) :=
  gets (λ w, if bool_decide (role_id ∈ guild_roles (remote w)) then Some role_id else None).

(** [send_response]: the reply goes to [ctx] when there is one, and to the
    log channel and the log forum post when [log_to_channel] is set. *)
Definition send_response (ctx : option Target) (title : Title) (message : Text)
    (log_to_channel : bool) : M unit :=
  match ctx with
  | Some target => modify (add_sent (To target title message))
  | None => ret tt
  end ;;;
  when log_to_channel
    (modify (add_sent (To_log_channel title message)) ;;;
     modify (add_sent (To_log_forum title message))).

Definition send_error (ctx : option Target) (message : Text) (log_to_channel : bool) : M unit :=
  send_response ctx Error_title message log_to_channel.

Definition send_success (ctx : option Target) (message : Text) (log_to_channel : bool) : M unit :=
  send_response ctx Success_title message log_to_channel.

Section Operations.
Variable config : Config.

(** ** Vetting *)

Definition has_required_roles (ctx : Context) (required_role_ids : list Z) : bool :=
  bool_decide (author_roles ctx ∩ list_to_set required_role_ids ≠ ∅).

Definition validate_vetting_permissions (ctx : Context) : bool :=
  has_required_roles ctx (VETTING_ROLE_IDS config).

Definition validate_penitentiary_permissions (ctx : Context) : bool :=
  has_required_roles ctx (AUTHORIZED_PENITENTIARY_ROLE_IDS config).

Definition validate_context (ctx : Context) : M bool :=
  if validate_vetting_permissions ctx then ret true
  else send_error (Some (Interaction ctx)) Insufficient_permissions false ;;; ret false.

Definition validate_reviewer (ctx : Context) (thread_approvals : Approval) : M bool :=
  if bool_decide (author_id ctx ∈ reviewers thread_approvals)
  then send_error (Some (Interaction ctx)) Duplicate_vote_detected false ;;; ret false
  else ret true.

(** The two roles [fetch_required_roles] looks up. *)
Record RequiredRoles : Type := mk_RequiredRoles {
  electoral : option Z;
  approved : option Z;
}.

Definition fetch_required_roles : M RequiredRoles :=
  e <- fetch_role (ELECTORAL_ROLE_ID config) ;;
  a <- fetch_role (APPROVED_ROLE_ID config) ;;
  ret (mk_RequiredRoles e a).

Definition validate_roles (roles : RequiredRoles) : bool :=
  bool_decide (is_Some (electoral roles)) && bool_decide (is_Some (approved roles)).

Definition get_thread_approvals (thread_id : Z) : M Approval :=
  gets (λ w, default Approval_default (approval_counts w !! thread_id)).

Definition cleanup_approval_data (thread_id : Z) : M unit :=
  modify (set_approval_counts (delete thread_id)) ;;;
  modify (set_processed_thread_ids (λ ids, ids ∖ {[thread_id]})).

(** [timedelta.total_seconds() > REJECTION_WINDOW_DAYS * 86400], decided on
    the microseconds. *)
Definition is_rejection_window_closed (thread_approvals : Approval) : M bool :=
  match last_approval_time thread_approvals with
  | None => ret false
  | Some stamped =>
      now <- datetime_now ;;
      ret (REJECTION_WINDOW_DAYS config * 86400 * 1000000 <? now - stamped)
  end.

Definition update_review_components (thread : Z) : M unit :=
  info <- get_thread_approvals thread ;;
  modify (add_sent (Review_edited thread (approval_count info))).

(** *** [update_member_roles] *)

Definition verify_roles (member_to_check : Z) : M (gset Z) :=
  fetched <- fetch_member member_to_check ;;
  match fetched with
  | Some m => member_roles m
  | None => raise AttributeError
  end.

Definition execute_role_updates (target : Z) (to_add to_remove : option Z) : M unit :=
  held <- member_roles target ;;
  match to_remove with
  | Some r => when (bool_decide (r ∈ held)) (remove_roles target {[r]})
  | None => ret tt
  end ;;;
  held <- member_roles target ;;
  match to_add with
  | Some a => when (bool_decide (a ∉ held)) (add_roles target {[a]})
  | None => ret tt
  end.

Definition MAX_RETRIES : nat := 3.

(** The verification loop with [remaining] attempts to go; the attempt
    number of the code is [MAX_RETRIES - remaining]. *)
Fixpoint verify_attempts (remaining : nat) (member role_to_add role_to_remove : Z) : M bool :=
  match remaining with
  | O => logger ERROR Role_update_failed_after_retries ;;; ret false
  | S remaining' =>
      final_roles <- verify_roles member ;;
      if bool_decide (role_to_add ∈ final_roles) && bool_decide (role_to_remove ∉ final_roles)
      then ret true
      else
        when (negb (Nat.eqb remaining' 0))
          (logger WARNING (Role_verification_failed (MAX_RETRIES - remaining)) ;;;
           execute_role_updates member
             (if bool_decide (role_to_add ∉ final_roles) then Some role_to_add else None)
             (if bool_decide (role_to_remove ∈ final_roles) then Some role_to_remove else None)) ;;;
        verify_attempts remaining' member role_to_add role_to_remove
  end.

Definition update_member_roles (member role_to_add role_to_remove : Z)
    (current_roles : gset Z) : M bool :=
  try_except
    (when (bool_decide (role_to_remove ∈ current_roles))
       (execute_role_updates member None (Some role_to_remove)) ;;;
     when (bool_decide (role_to_add ∉ current_roles))
       (execute_role_updates member (Some role_to_add) None) ;;;
     verify_attempts MAX_RETRIES member role_to_add role_to_remove)
    (λ e, logger ERROR (Critical_role_update_error member e) ;;; ret false).

(** *** The two vote handlers *)

Inductive VoteResult : Type :=
| Approval_aborted_Already_approved
| Approval_registered_result
| Approved_with_role_updates
| Rejection_aborted_Not_approved
| Rejection_aborted_Window_closed
| Rejection_registered_result
| Rejected_with_role_updates.

Definition send_approval_notification (thread member : Z) (thread_approvals : Approval) : M unit :=
  send_success (Some (Thread thread)) (Approved_by member thread_approvals) false.

Definition send_rejection_notification (thread member : Z) (thread_approvals : Approval) : M unit :=
  send_success (Some (Thread thread)) (Rejected_by member thread_approvals) false.

(** [roles["electoral"]] and [roles["approved"]] are the ids of the two
    roles, both found. *)
Definition process_approval (ctx : Context) (member : Z) (electoral_role approved_role : Z)
    (current_roles : gset Z) (thread_approvals : Approval) (thread : Z) : M VoteResult :=
  if bool_decide (electoral_role ∈ current_roles)
  then
    send_error (Some (Interaction ctx)) (Already_has_electoral_role member) false ;;;
    ret Approval_aborted_Already_approved
  else
    let thread_approvals :=
      mk_Approval
        (Z.min (approval_count thread_approvals + 1) (REQUIRED_APPROVALS config))
        0
        (reviewers thread_approvals ∪ {[author_id ctx]})
        (last_approval_time thread_approvals) in
    modify (set_approval_counts (<[thread := thread_approvals]>)) ;;;
    if Z.eqb (approval_count thread_approvals) (REQUIRED_APPROVALS config)
    then
      now <- datetime_now ;;
      (* the record in the ledger is this very object: the stamp shows there *)
      let thread_approvals :=
        mk_Approval (approval_count thread_approvals) (rejection_count thread_approvals)
          (reviewers thread_approvals) (Some now) in
      modify (set_approval_counts (<[thread := thread_approvals]>)) ;;;
      _ <- update_member_roles member electoral_role approved_role current_roles ;;
      send_approval_notification thread member thread_approvals ;;;
      cleanup_approval_data thread ;;;
      ret Approved_with_role_updates
    else
      let remaining := REQUIRED_APPROVALS config - approval_count thread_approvals in
      send_success (Some (Interaction ctx))
        (Approval_registered member (approval_count thread_approvals) remaining) false ;;;
      ret Approval_registered_result.

Definition process_rejection (ctx : Context) (member : Z) (electoral_role approved_role : Z)
    (current_roles : gset Z) (thread_approvals : Approval) (thread : Z) : M VoteResult :=
  if bool_decide (electoral_role ∉ current_roles)
  then
    send_error (Some (Interaction ctx)) (Not_yet_approved member) false ;;;
    ret Rejection_aborted_Not_approved
  else
    closed <- match last_approval_time thread_approvals with
              | Some _ => is_rejection_window_closed thread_approvals
              | None => ret false
              end ;;
    if closed
    then
      send_error (Some (Interaction ctx)) (Rejection_window_expired member) false ;;;
      ret Rejection_aborted_Window_closed
    else
      let thread_approvals :=
        mk_Approval
          (approval_count thread_approvals)
          (Z.min (rejection_count thread_approvals + 1) (REQUIRED_REJECTIONS config))
          (reviewers thread_approvals ∪ {[author_id ctx]})
          (last_approval_time thread_approvals) in
      modify (set_approval_counts (<[thread := thread_approvals]>)) ;;;
      if Z.eqb (rejection_count thread_approvals) (REQUIRED_REJECTIONS config)
      then
        _ <- update_member_roles member approved_role electoral_role current_roles ;;
        send_rejection_notification thread member thread_approvals ;;;
        cleanup_approval_data thread ;;;
        ret Rejected_with_role_updates
      else
        let remaining := REQUIRED_REJECTIONS config - rejection_count thread_approvals in
        send_success (Some (Interaction ctx))
          (Rejection_registered member (rejection_count thread_approvals) remaining) false ;;;
        ret Rejection_registered_result.

(** *** The per-member lock *)

Definition hour_us : Z := 3600 * 1000000.
Definition week_us : Z := 7 * 86400 * 1000000.

(** The sweep in the [finally] of [member_lock]: the comprehension keeps
    the entries whose lock is free and that were used within the hour. *)
Definition sweep_on_exit (current_time : Z) (locks : gmap Z LockInfo) : gmap Z LockInfo :=
  filter (λ kv, locked kv.2 = false ∧ current_time - last_used kv.2 ≤ hour_us) locks.

Definition set_locked (b : bool) (info : LockInfo) : LockInfo :=
  mk_LockInfo b (last_used info).

(** [async with self.member_lock(member_id): body].  The entry is made or
    found ([setdefault]) and touched; a held lock parks the coroutine;
    otherwise the lock is taken for [body] and handed back, and the sweep
    runs last. *)
Definition member_lock {A} (member_id : Z) (body : M A) : M A :=
  now <- datetime_now ;;
  modify (set_member_role_locks (λ locks,
    let lock_info := default (mk_LockInfo false now) (locks !! member_id) in
    <[member_id := mk_LockInfo (locked lock_info) now]> locks)) ;;;
  held <- gets (λ w, bool_decide (locked <$> member_role_locks w !! member_id = Some true)) ;;
  if held : bool then (λ w, (Wait, w))
  else
    try_finally
      (modify (set_member_role_locks (alter (set_locked true) member_id)) ;;;
       try_finally body
         (modify (set_member_role_locks (alter (set_locked false) member_id))))
      (current_time <- datetime_now ;;
       modify (set_member_role_locks (sweep_on_exit current_time))).

(** The periodic task [cleanup_old_locks]: an entry goes when its lock is
    free and it was last used more than [timedelta(days=7)] ago. *)
Definition cleanup_old_locks : M unit :=
  current_time <- datetime_now ;;
  modify (set_member_role_locks
    (filter (λ kv, ¬ (locked kv.2 = false ∧ week_us < current_time - last_used kv.2)))).

(** *** A vote *)

Definition handler_of (status : Status) :
    option (Context → Z → Z → Z → gset Z → Approval → Z → M VoteResult) :=
  match status with
  | APPROVED => Some process_approval
  | REJECTED => Some process_rejection
  end.

Definition process_approval_status_change (ctx : Context) (status : Status)
    : M (option VoteResult) :=
  permitted <- validate_context ctx ;;
  if negb permitted then ret None
  else
    channel <- fetch_channel (channel_id ctx) ;;
    match channel with
    | Some (GuildPublicThread owner_id) =>
        let thread := channel_id ctx in
        fetch_guild ;;;
        fetched <- fetch_member owner_id ;;
        match fetched with
        | None =>
            send_error (Some (Interaction ctx)) Member_not_found_in_server false ;;;
            ret None
        | Some member =>
            member_lock member
              (try_finally
                 (try_except
                    (roles <- fetch_required_roles ;;
                     match electoral roles, approved roles with
                     | Some electoral_role, Some approved_role =>
                         current_roles <- member_roles member ;;
                         thread_approvals <- get_thread_approvals thread ;;
                         fresh <- validate_reviewer ctx thread_approvals ;;
                         if negb fresh then ret None
                         else
                           match handler_of status with
                           | Some handler =>
                               result <- handler ctx member electoral_role approved_role
                                           current_roles thread_approvals thread ;;
                               ret (Some result)
                           | None =>
                               send_error (Some (Interaction ctx)) Invalid_status false ;;;
                               ret None
                           end
                     | _, _ =>
                         send_error (Some (Interaction ctx))
                           Required_roles_configuration_invalid false ;;;
                         ret None
                     end)
                    (λ e,
                       logger ERROR (Status_change_failed e) ;;;
                       send_error (Some (Interaction ctx)) Processing_error_occurred false ;;;
                       ret None))
                 (update_review_components thread))
        end
    | _ => raise ValueError_not_in_thread
    end.

(** The decorator [error_handler]: report, then raise again. *)
Definition error_handler {A} (ctx : Context) (body : M A) : M A :=
  try_except body
    (λ e,
       logger ERROR (Error_in_command e) ;;;
       send_error (Some (Interaction ctx)) (Error_in_command e) false ;;;
       raise e).

Definition on_approve_member (ctx : Context) : M (option VoteResult) :=
  error_handler ctx (process_approval_status_change ctx APPROVED).

Definition on_reject_member (ctx : Context) : M (option VoteResult) :=
  error_handler ctx (process_approval_status_change ctx REJECTED).

(** ** The penitentiary *)

(** [time.time()], in whole seconds. *)
Definition time_time : M Z := gets (λ w, clock w / 1000000).

(** [save_incarcerated_members]: a failure of [save_data] is logged and
    raised again. *)
Definition save_incarcerated_members : M unit :=
  ok <- gets storage_ok ;;
  if ok : bool
  then
    current <- gets incarcerated_members ;;
    modify (set_incarcerated_members_json (λ _, current))
  else logger ERROR Failed_to_save_incarcerated_members ;;; raise OSError.

(** [model.load_data("incarcerated_members.json", dict)].  The file is not
    [custom.json] and [dict] is neither a [BaseModel] nor [Counter], so
    what was read is dropped in the last [else] of [load_data]: the
    instance is [{}], it is saved over the file and returned.  When the
    storage fails the [ValueError] of [load_data] comes out; the attempts
    of [async_retry] before it are left out. *)
Definition load_incarcerated_members : M (gmap Z Incarceration) :=
  ok <- gets storage_ok ;;
  if ok : bool
  then modify (set_incarcerated_members_json (λ _, ∅)) ;;; ret ∅
  else raise ValueError_load.

Record PenitentiaryRoles : Type := mk_PenitentiaryRoles {
  role_incarcerated : option Z;
  role_electoral : option Z;
  role_approved : option Z;
  role_temporary : option Z;
}.

(** One turn of the loop of [fetch_penitentiary_roles].  For a role the
    guild does not have [guild.fetch_role] gives [None], and [role.id] in
    the log call is an [AttributeError]: the loop logs it and goes on, and
    the key is left out of the dict. *)
Definition fetch_penitentiary_role (key : RoleKey) (role_id : Z) : M (option Z) :=
  role <- fetch_role role_id ;;
  match role with
  | Some r => ret (Some r)
  | None => logger ERROR (Failed_to_fetch_role key role_id AttributeError) ;;; ret None
  end.

(** The dict of [fetch_penitentiary_roles]; [None] stands for a key that
    was left out. *)
Definition fetch_penitentiary_roles : M PenitentiaryRoles :=
  i <- fetch_penitentiary_role Key_incarcerated (INCARCERATED_ROLE_ID config) ;;
  e <- fetch_penitentiary_role Key_electoral (ELECTORAL_ROLE_ID config) ;;
  a <- fetch_penitentiary_role Key_approved (APPROVED_ROLE_ID config) ;;
  t <- fetch_penitentiary_role Key_temporary (TEMPORARY_ROLE_ID config) ;;
  ret (mk_PenitentiaryRoles i e a t).

(** [all(roles.values())]: the values are the roles that were fetched, and
    a role object is true. *)
Definition all_roles (roles : PenitentiaryRoles) : bool :=
  forallb (λ role : Z, true)
    (omap (λ role : option Z, role)
       [role_incarcerated roles; role_electoral roles; role_approved roles;
        role_temporary roles]).

Definition option_set (o : option Z) : gset Z :=
  match o with Some x => {[x]} | None => ∅ end.

(** [perform_member_incarceration].  [roles["incarcerated"]], the first
    statement of the [try], is a [KeyError] when the key was left out; the
    other three roles are read with [roles.get]. *)
Definition perform_member_incarceration (member : Z) (roles : PenitentiaryRoles)
    (ctx : option Context) (duration : Z) : M unit :=
  member_role_ids <- member_roles member ;;
  let watched := [ELECTORAL_ROLE_ID config; APPROVED_ROLE_ID config; TEMPORARY_ROLE_ID config] in
  let roles_to_remove : gset Z :=
    (option_set (role_electoral roles) ∪ option_set (role_approved roles)
     ∪ option_set (role_temporary roles)) ∩ member_role_ids in
  let original_roles := filter (λ role_id, role_id ∈ member_role_ids) watched in
  assigned <-
    try_except
      (match role_incarcerated roles with
       | Some incarcerated_role =>
           when (bool_decide (roles_to_remove ≠ ∅)) (remove_roles member roles_to_remove) ;;;
           add_roles member {[incarcerated_role]} ;;;
           ret true
       | None => raise KeyError
       end)
      (λ e, logger ERROR (Error_assigning_roles e) ;;; ret false) ;;
  if assigned : bool
  then
    now <- time_time ;;
    let release_time := now + duration in
    modify (set_incarcerated_members (<[member := mk_Incarceration release_time original_roles]>)) ;;;
    save_incarcerated_members ;;;
    send_success (Interaction <$> ctx)
      (Incarcerated_until member release_time (author_id <$> ctx)) true
  else ret tt.

Definition perform_member_release (member : Z) (roles : PenitentiaryRoles)
    (ctx : option Context) : M unit :=
  member_data <- gets (λ w, incarcerated_members w !! member) ;;
  let original_role_ids : gset Z :=
    list_to_set (default [] (original_roles <$> member_data)) in
  current_role_ids <- member_roles member ;;
  all_guild_roles <- gets (λ w, guild_roles (remote w)) ;;
  let roles_to_add : gset Z :=
    filter (λ role, role ∈ original_role_ids ∧ role ∉ current_role_ids) all_guild_roles in
  match role_incarcerated roles with
  | Some incarcerated_role =>
      when (bool_decide (incarcerated_role ∈ current_role_ids))
        (remove_roles member {[incarcerated_role]})
  | None => ret tt
  end ;;;
  when (bool_decide (roles_to_add ≠ ∅)) (add_roles member roles_to_add) ;;;
  (* del self.incarcerated_members[member_id_str] *)
  present <- gets (λ w, bool_decide (is_Some (incarcerated_members w !! member))) ;;
  (if present : bool then modify (set_incarcerated_members (delete member))
   else raise KeyError) ;;;
  save_incarcerated_members ;;;
  let release_time := default 0 (release_time <$> member_data) in
  current_time <- time_time ;;
  send_success (Interaction <$> ctx)
    (Released_by member (author_id <$> ctx) current_time release_time) true.

(** [action_map[action](member, roles, ctx)] with its [except KeyError];
    [duration] is the keyword argument of the incarceration. *)
Definition manage_penitentiary_status (ctx : option Context) (member : Z) (action : Action)
    (duration : option Z) : M unit :=
  fetch_guild ;;;
  roles <- fetch_penitentiary_roles ;;
  if negb (all_roles roles)
  then
    match ctx with
    | Some c => send_error (Some (Interaction c)) Required_roles_not_found false
    | None => logger ERROR Required_roles_not_found
    end
  else
    λ w,
      match
        match action with
        | INCARCERATE =>
            match duration with
            | Some d => perform_member_incarceration member roles ctx d w
            | None => (Raise TypeError, w)
            end
        | RELEASE => perform_member_release member roles ctx w
        | ADD | REMOVE => (Raise KeyError, w)
        end
      with
      | (Raise KeyError, w') =>
          match ctx with
          | Some c =>
              send_error (Some (Interaction c)) (Invalid_penitentiary_action action) false w'
          | None => logger ERROR (Invalid_penitentiary_action action) w'
          end
      | r => r
      end.

(** The command [release_member] *)
Definition release_member (ctx : Context) (member : Z) : M unit :=
  error_handler ctx
    (if negb (validate_penitentiary_permissions ctx)
     then send_error (Some (Interaction ctx)) No_permission_for_command false
     else manage_penitentiary_status (Some ctx) member RELEASE None).

Definition release_prisoner (member_id : Z) (data : Incarceration) : M unit :=
  let release_time := release_time data in
  fetched <-
    try_except
      (fetch_guild ;;; member <- fetch_member member_id ;; ret (Some member))
      (λ e,
         logger ERROR (Error_fetching_member member_id e release_time) ;;;
         send_error None (Error_fetching_member member_id e release_time) false ;;;
         ret None) ;;
  match fetched with
  | None => ret tt
  | Some member =>
      try_finally
        (try_except
           match member with
           | Some m => manage_penitentiary_status None m RELEASE None
           | None => send_error None (Release_member_not_found member_id release_time) false
           end
           (λ e,
              logger ERROR (Release_failed member_id e release_time) ;;;
              send_error None (Release_failed member_id e release_time) false))
        (modify (set_incarcerated_members (delete member_id)) ;;;
         save_incarcerated_members)
  end.

(** The loop of [check_incarcerated_members] over [release_map]. *)
Fixpoint release_all (release_map : list (Z * Incarceration)) : M unit :=
  match release_map with
  | [] => ret tt
  | (member_id, data) :: rest =>
      try_except (release_prisoner member_id data)
        (λ e, logger ERROR (Error_releasing_prisoner e)) ;;;
      release_all rest
  end.

(** [asyncio.create_task(self.schedule_release(member_id, data, delay))]
    for every record of [schedule_map]; the delay is kept in microseconds. *)
Fixpoint schedule_all (now : Z) (schedule_map : list (Z * Incarceration)) : M unit :=
  match schedule_map with
  | [] => ret tt
  | (member_id, data) :: rest =>
      modify (add_release_task
                (member_id, data, Z.max 0 (release_time data * 1000000 - now))) ;;;
      schedule_all now rest
  end.

(** The periodic task [check_incarcerated_members]; [now] and the release
    times are compared on the microseconds. *)
Definition check_incarcerated_members : M unit :=
  loaded <- load_incarcerated_members ;;
  modify (set_incarcerated_members (λ _, loaded)) ;;;
  now <- gets clock ;;
  let release_map : gmap Z Incarceration :=
    filter (λ kv, release_time kv.2 * 1000000 ≤ now) loaded in
  let schedule_map : gmap Z Incarceration :=
    filter (λ kv, 0 < release_time kv.2 * 1000000 - now
                  ∧ release_time kv.2 * 1000000 - now ≤ 60 * 1000000) loaded in
  schedule_all now (map_to_list schedule_map) ;;;
  release_all (map_to_list release_map).

(** The reconciliation run [n] times, thirty seconds apart. *)
Fixpoint reconcile (n : nat) (w : World) : World :=
  match n with
  | O => w
  | S n' =>
      reconcile n'
        (set_clock (clock w + 30 * 1000000) (check_incarcerated_members w).2)
  end.

End Operations.

(** A world with nothing in the ledger, no lock, nothing logged or sent,
    and the same incarceration records in memory and on disk. *)
Definition initial_World (r : Remote) (json : gmap Z Incarceration) (now : Z) : World :=
  mk_World ∅ ∅ ∅ json r true json [] now [] [].

(** ** Notions the statements are written in *)

(** *** Frames: what a coroutine leaves alone *)

Definition safe {A} (R : relation World) (m : M A) : Prop :=
  ∀ w, R w (m w).2 ∧ (m w).1 ≠ Wait.

Class Frame (R : relation World) : Prop := {
  frame_preorder :: PreOrder R;
  frame_sent : ∀ s w, R w (add_sent s w);
  frame_log : ∀ l w, R w (add_log l w);
  frame_members : ∀ f w, R w (set_members f w);
}.

Section Notions.
Variable cfg : Config.

(** *** A vote, from the lock to the sweep *)

Definition lock_free (w : World) (member : Z) : Prop :=
  ∀ info, member_role_locks w !! member = Some info → locked info = false.

(** The world a vote hands to its handler, and what happens to the world
    the handler leaves: the review message is refreshed, the lock handed
    back, the lock map swept. *)
Definition vote_enter (member : Z) (w : World) : World :=
  set_member_role_locks (alter (set_locked true) member)
    (set_member_role_locks
       (λ locks,
          <[member := mk_LockInfo
                        (locked (default (mk_LockInfo false (clock w)) (locks !! member)))
                        (clock w)]> locks) w).

Definition vote_exit (member thread : Z) (w : World) : World :=
  set_member_role_locks (sweep_on_exit (clock w))
    (set_member_role_locks (alter (set_locked false) member)
       (add_sent
          (Review_edited thread
             (approval_count (default Approval_default (approval_counts w !! thread))))
          w)).

Definition handler_for (status : Status) :=
  match status with
  | APPROVED => process_approval cfg
  | REJECTED => process_rejection cfg
  end.

Definition vote (ctx : Context) (status : Status) : M (option VoteResult) :=
  match status with
  | APPROVED => on_approve_member cfg ctx
  | REJECTED => on_reject_member cfg ctx
  end.

(** *** The ledger *)

(** The record the quorum vote stamps, and the world it leaves. *)
Definition stamped_record (ctx : Context) (rec : Approval) (now : Z) : Approval :=
  mk_Approval (REQUIRED_APPROVALS cfg) 0 (reviewers rec ∪ {[author_id ctx]}) (Some now).

Definition approved_world (ctx : Context) (member e a : Z) (held : gset Z)
    (rec : Approval) (thread : Z) (w : World) : World :=
  set_processed_thread_ids (λ ids, ids ∖ {[thread]})
    (set_approval_counts (delete thread)
       (add_sent (To (Thread thread) Success_title
                    (Approved_by member (stamped_record ctx rec (clock w))))
          (set_members (<[member := held ∖ {[a]} ∪ {[e]}]>)
             (set_approval_counts (<[thread := stamped_record ctx rec (clock w)]>)
                (set_approval_counts
                   (<[thread := mk_Approval (REQUIRED_APPROVALS cfg) 0
                                  (reviewers rec ∪ {[author_id ctx]})
                                  (last_approval_time rec)]>) w))))).

Definition same_ledger : relation World :=
  λ w w', approval_counts w' = approval_counts w.

(** The record an approval vote writes, and the one a rejection vote writes. *)
Definition approval_vote_record (ctx : Context) (rec : Approval) : Approval :=
  mk_Approval (Z.min (approval_count rec + 1) (REQUIRED_APPROVALS cfg)) 0
    (reviewers rec ∪ {[author_id ctx]}) (last_approval_time rec).

Definition rejection_vote_record (ctx : Context) (rec : Approval) : Approval :=
  mk_Approval (approval_count rec)
    (Z.min (rejection_count rec + 1) (REQUIRED_REJECTIONS cfg))
    (reviewers rec ∪ {[author_id ctx]}) (last_approval_time rec).

Definition ledger_ok (w : World) : Prop :=
  ∀ thread record, approval_counts w !! thread = Some record →
    approval_count record ≤ REQUIRED_APPROVALS cfg
    ∧ rejection_count record ≤ REQUIRED_REJECTIONS cfg.

Definition no_stamp_at (thread : Z) (w : World) : Prop :=
  ∀ record, approval_counts w !! thread = Some record → last_approval_time record = None.

(** What can happen to the extension as far as the ledger goes: a vote,
    or anything else, which leaves the ledger alone. *)
Inductive step : World → World → Prop :=
| step_vote ctx status w : step w (vote ctx status w).2
| step_other w w' : approval_counts w' = approval_counts w → step w w'.

End Notions.

End Engine.

(* ===================================================================== *)
(** * Concrete worlds                                                    *)
(* ===================================================================== *)

Module Scenario.
Import Engine.
Local Open Scope Z_scope.

Definition roles_of (member : Z) (w : World) : gset Z :=
  default ∅ (members (remote w) !! member).

Definition guild_role_ids : gset Z :=
  {[ELECTORAL_ROLE_ID Config_default; APPROVED_ROLE_ID Config_default;
    TEMPORARY_ROLE_ID Config_default; INCARCERATED_ROLE_ID Config_default]}.

(** A reviewer with the vetting role, in thread 7; the thread belongs to
    member 42. *)
Definition third_reviewer : Context := mk_Context 103 {[1200066469300551782]} 7.

Definition two_approvals : Approval := mk_Approval 2 0 {[101; 102]} None.

Definition guild_with (held : gset Z) : Remote :=
  mk_Remote true {[7 := GuildPublicThread 42]} guild_role_ids {[42 := held]} ∅ ∅.

(** Member 42 holds the temporary role and two reviewers have approved. *)
Definition third_vote_world : World :=
  mk_World {[7 := two_approvals]} ∅ ∅ ∅
    (guild_with {[TEMPORARY_ROLE_ID Config_default]}) true ∅ [] 1000000 [] [].

(** A record stamped at instant 0, read eight days later. *)
Definition stamped_long_ago : Approval := mk_Approval 3 0 {[101; 102; 103]} (Some 0).

Definition eight_days_later : World :=
  mk_World {[7 := stamped_long_ago]} ∅ ∅ ∅
    (guild_with {[TEMPORARY_ROLE_ID Config_default]}) true ∅ []
    (8 * 86400 * 1000000) [] [].

Definition late_reviewer : Context := mk_Context 104 {[1200066469300551782]} 7.

(** Member 1 is being voted on (the lock is held, touched this instant);
    thread 8 belongs to member 1 and thread 7 to member 42. *)
Definition vote_in_flight : World :=
  mk_World ∅ ∅ {[1 := mk_LockInfo true 1000000]} ∅
    (mk_Remote true {[7 := GuildPublicThread 42; 8 := GuildPublicThread 1]} guild_role_ids
       {[42 := {[TEMPORARY_ROLE_ID Config_default]};
         1 := {[TEMPORARY_ROLE_ID Config_default]}]} ∅ ∅)
    true ∅ [] 1000000 [] [].

Definition other_reviewer : Context := mk_Context 105 {[1200066469300551782]} 8.

(** A warden, and member 42 wearing the incarcerated role and role 555
    with no incarceration record. *)
Definition warden : Context := mk_Context 500 {[1200097748259717193]} 9.

Definition unrecorded_inmate : World :=
  initial_World (guild_with {[INCARCERATED_ROLE_ID Config_default; 555]}) ∅ 1000000.

(** Member 42 was due for release at second 10; it is second 20 and the
    directory answers a fetch of member 42 with an error. *)
Definition overdue : Incarceration :=
  mk_Incarceration 10 [ELECTORAL_ROLE_ID Config_default].

Definition fetch_is_failing : World :=
  initial_World
    (mk_Remote true ∅ guild_role_ids {[42 := {[INCARCERATED_ROLE_ID Config_default]}]}
       {[42]} ∅)
    {[42 := overdue]} 20000000.

(** The same with a directory that answers the fetch of member 42. *)
Definition fetch_is_working : World :=
  initial_World
    (mk_Remote true ∅ guild_role_ids {[42 := {[INCARCERATED_ROLE_ID Config_default]}]}
       ∅ ∅)
    {[42 := overdue]} 20000000.

End Scenario.

(* ===================================================================== *)
(** * Further notions                                                    *)
(* ===================================================================== *)

Module Notions.
Import Engine.
Local Open Scope Z_scope.

(** Two worlds with the same books: all that a coroutine may have changed
    is who holds which role, the log and what was sent. *)
Definition same_books : relation World :=
  λ w w',
    approval_counts w' = approval_counts w
    ∧ processed_thread_ids w' = processed_thread_ids w
    ∧ member_role_locks w' = member_role_locks w
    ∧ incarcerated_members w' = incarcerated_members w
    ∧ storage_ok w' = storage_ok w
    ∧ incarcerated_members_json w' = incarcerated_members_json w
    ∧ release_tasks w' = release_tasks w
    ∧ clock w' = clock w.

(** The roles a member holds in the directory. *)
Definition held_by (member : Z) (w : World) : gset Z :=
  default ∅ (members (remote w) !! member).

(** A relation on worlds that the bookkeeping of a release respects for
    the records of [touched] members: deleting such a record and writing
    the records to disk. *)
Class Bookkeeping (R : relation World) (touched : Z → Prop) : Prop := {
  books_frame :: Frame R;
  books_delete : ∀ m w, touched m → R w (set_incarcerated_members (delete m) w);
  books_save :
    ∀ w, R w (set_incarcerated_members_json (λ _, incarcerated_members w) w);
}.

(** What a release of [m] may have done to the records in memory: the
    record of [m] is there as before or gone, the records of the others are
    as they were; the storage works or fails as before. *)
Definition releasing (m : Z) : relation World :=
  λ w w',
    storage_ok w' = storage_ok w
    ∧ (incarcerated_members w' = incarcerated_members w
       ∨ incarcerated_members w' = delete m (incarcerated_members w)).

Section Vetting.
Variable cfg : Config.

(** The conditions under which a vote gets to its handler: the reviewer
    holds a vetting role, the channel is a public thread whose owner is in
    the guild and can be fetched, nobody holds the owner's lock, the two
    roles exist, and the reviewer has not voted on the thread. *)
Definition reaches_handler (ctx : Context) (w : World) (owner : Z) (held : gset Z) : Prop :=
  validate_vetting_permissions cfg ctx = true
  ∧ channels (remote w) !! channel_id ctx = Some (GuildPublicThread owner)
  ∧ guild_reachable (remote w) = true
  ∧ (owner ∉ fetch_fails (remote w))
  ∧ members (remote w) !! owner = Some held
  ∧ lock_free w owner
  ∧ (ELECTORAL_ROLE_ID cfg ∈ guild_roles (remote w))
  ∧ (APPROVED_ROLE_ID cfg ∈ guild_roles (remote w))
  ∧ (author_id ctx
       ∉ reviewers (default Approval_default (approval_counts w !! channel_id ctx))).

End Vetting.

End Notions.

(* ===================================================================== *)
(** * The message monitor ([Message.analyze], [Roles.on_message_create]) *)
(* ===================================================================== *)

(** Floats are read as reals, as in [Entropy]; a message is its list of
    code points.  [str.isdigit] and [str.isspace] are tables of the Python
    runtime: the definitions take them as parameters. *)
Module Monitor.
Local Open Scope R_scope.

(** [limit_config], with the keys the code reads. *)
Record Limits : Type := mk_Limits {
  MESSAGE_WINDOW_SECONDS : R;
  MAX_REPEATED_MESSAGES : Z;
  DIGIT_RATIO_THRESHOLD : R;
  MIN_MESSAGE_ENTROPY : R;
}.

Definition limit_config_default : Limits := mk_Limits 60 3 0.5 1.5.

(** [validation_flags] *)
Record Flags : Type := mk_Flags {
  repetition : bool;
  digit_ratio : bool;
  entropy : bool;
  feedback : bool;
}.

Definition validation_flags_default : Flags := mk_Flags true true true true.

(** One entry of [stats]: the five keys of the [setdefault] in
    [on_message_create], and the two keys [_check_repetition] adds. *)
Record UserStats : Type := mk_UserStats {
  message_timestamps : list R;
  invalid_message_count : Z;
  feedback_score : R;
  recovery_streaks : Z;
  last_threshold_adjustment : R;
  last_message : option (list Z);
  repetition_count : option Z;
}.

Definition UserStats_default : UserStats := mk_UserStats [] 0 0 0 0 None None.

Inductive Violation : Type := message_repetition | excessive_digits | low_entropy.

Section Checks.
Variable isdigit : Z → bool.
Variable isspace : Z → bool.

(** [Message._check_repetition] *)
Definition _check_repetition (message : list Z) (config : Limits) (user_stats : UserStats)
    : bool * UserStats :=
  let last_msg := default [] (last_message user_stats) in
  if bool_decide (message = last_msg)
  then
    let rep_count := (default 0 (repetition_count user_stats) + 1)%Z in
    ((MAX_REPEATED_MESSAGES config <=? rep_count)%Z,
     mk_UserStats (message_timestamps user_stats) (invalid_message_count user_stats)
       (feedback_score user_stats) (recovery_streaks user_stats)
       (last_threshold_adjustment user_stats) (last_message user_stats) (Some rep_count))
  else
    (false,
     mk_UserStats (message_timestamps user_stats) (invalid_message_count user_stats)
       (feedback_score user_stats) (recovery_streaks user_stats)
       (last_threshold_adjustment user_stats) (Some message) (Some 0%Z)).

(** [Message._check_digit_ratio] *)
Definition _check_digit_ratio (message : list Z) (config : Limits) : bool :=
  match List.length message with
  | O => false
  | S _ =>
      let threshold :=
        DIGIT_RATIO_THRESHOLD config
        * (if existsb Entropy.is_cjk message then 1.5 else 1.0) in
      let digit_count := List.length (List.filter isdigit message) in
      if Rlt_dec threshold (INR digit_count / INR (List.length message))
      then true else false
  end.

(** [Message.analyze]: the violations in the order the checks run, and
    the entry as the checks and the feedback leave it. *)
Definition analyze (message : list Z) (user_stats : UserStats) (config : Limits)
    (validation_flags : Flags) : list Violation * UserStats :=
  let '(repeated, user_stats) :=
    if repetition validation_flags
    then _check_repetition message config user_stats
    else (false, user_stats) in
  let violations :=
    (if repeated then [message_repetition] else [])
    ++ (if digit_ratio validation_flags && _check_digit_ratio message config
        then [excessive_digits] else [])
    ++ (if entropy validation_flags
           && Entropy._check_entropy (Entropy.mk_Message message (MIN_MESSAGE_ENTROPY config))
        then [low_entropy] else []) in
  let user_stats :=
    if feedback validation_flags
    then
      mk_UserStats (message_timestamps user_stats) (invalid_message_count user_stats)
        (Rmax (-5) (Rmin 5 (feedback_score user_stats - INR (List.length violations))))
        (recovery_streaks user_stats) (last_threshold_adjustment user_stats)
        (last_message user_stats) (repetition_count user_stats)
    else user_stats in
  (violations, user_stats).

(** What the monitor keeps. *)
Record Monitoring : Type := mk_Monitoring {
  message_monitoring_enabled : bool;
  validation_flags : Flags;
  limit_config : Limits;
  stats : gmap Z UserStats;
  stats_save_task : bool;
}.

(** One threshold of [_adjust_thresholds]:
    [min(max(old + adj + (default - old) * (1 - decay), min_v), max_v)]. *)
Definition adjusted (old adj decay min_v max_v default : R) : R :=
  Rmin (Rmax (old + adj + (default - old) * (1 - decay)) min_v) max_v.

(** [Roles._adjust_thresholds]; [now] is [time.time()]. *)
Definition _adjust_thresholds (now : R) (s : Monitoring) (user_stats : UserStats)
    : Monitoring * UserStats :=
  if negb (message_monitoring_enabled s) || negb (feedback (validation_flags s))
  then (s, user_stats)
  else
    let feedback := feedback_score user_stats in
    let last_adj := last_threshold_adjustment user_stats in
    let time_delta := now - last_adj in
    let adj := 0.01 * feedback * tanh (Rabs feedback / 5) in
    let decay := exp (- time_delta / 3600) in
    if digit_ratio (validation_flags s) || entropy (validation_flags s)
    then
      (mk_Monitoring (message_monitoring_enabled s) (validation_flags s)
         (mk_Limits (MESSAGE_WINDOW_SECONDS (limit_config s))
            (MAX_REPEATED_MESSAGES (limit_config s))
            (if digit_ratio (validation_flags s)
             then adjusted (DIGIT_RATIO_THRESHOLD (limit_config s)) adj decay 0.1 1.0 0.5
             else DIGIT_RATIO_THRESHOLD (limit_config s))
            (if entropy (validation_flags s)
             then adjusted (MIN_MESSAGE_ENTROPY (limit_config s)) adj decay 0.0 4.0 1.5
             else MIN_MESSAGE_ENTROPY (limit_config s)))
         (stats s) (stats_save_task s),
       mk_UserStats (message_timestamps user_stats) (invalid_message_count user_stats)
         (feedback_score user_stats) (recovery_streaks user_stats) now
         (last_message user_stats) (repetition_count user_stats))
    else (s, user_stats).

(** [str.strip()] *)
Fixpoint lstrip (s : list Z) : list Z :=
  match s with
  | [] => []
  | c :: rest => if isspace c then lstrip rest else s
  end.

Definition strip (s : list Z) : list Z := rev (lstrip (rev (lstrip s))).

(** The event [MessageCreate], as far as the listener reads it. *)
Record MessageCreate : Type := mk_MessageCreate {
  author_id : Z;
  author_bot : bool;
  in_guild : bool;
  content : list Z;
}.

(** [Roles.on_message_create].  [directory] answers [guild.fetch_member];
    [monotonic] is [time.monotonic()] and [now] is [time.time()];
    [stats_lock] is free, one message being looked at at a time.  The
    listener ends with the state it leaves, or with the exception that
    escapes it. *)
Definition on_message_create (config : Engine.Config) (directory : Engine.Remote)
    (monotonic now : R) (event : MessageCreate) (s : Monitoring) : Engine.exn + Monitoring :=
  if negb (message_monitoring_enabled s) || author_bot event || negb (in_guild event)
  then inr s
  else if bool_decide (author_id event ∈ Engine.fetch_fails directory)
  then inr s
  else
    match Engine.members directory !! author_id event with
    | None => inl Engine.AttributeError
    | Some roles =>
        if negb (bool_decide (Engine.TEMPORARY_ROLE_ID config ∈ roles))
        then inr s
        else
          let current_time := monotonic in
          let message_content := strip (content event) in
          let stats0 := default UserStats_default (stats s !! author_id event) in
          let cutoff := current_time - 7200 in
          let stats1 :=
            mk_UserStats
              (List.filter (λ t, if Rlt_dec cutoff t then true else false)
                 (message_timestamps stats0 ++ [current_time]))
              (invalid_message_count stats0) (feedback_score stats0)
              (recovery_streaks stats0) (last_threshold_adjustment stats0)
              (last_message stats0) (repetition_count stats0) in
          let '(violations, stats2) :=
            analyze message_content stats1 (limit_config s) (validation_flags s) in
          let is_valid := match violations with [] => true | _ => false end in
          let invalid_count := invalid_message_count stats2 in
          let stats3 :=
            mk_UserStats (message_timestamps stats2)
              (if is_valid
               then invalid_count - (if (0 <? invalid_count)%Z then 1 else 0)
               else invalid_count + 1)%Z
              (if is_valid
               then Rmin 5.0 (feedback_score stats2 + 0.5)
               else Rmax (-5.0) (feedback_score stats2 - 1.0))
              (if is_valid then recovery_streaks stats2 + 1 else 0)%Z
              (last_threshold_adjustment stats2)
              (last_message stats2) (repetition_count stats2) in
          let '(s', stats4) := _adjust_thresholds now s stats3 in
          inr (mk_Monitoring (message_monitoring_enabled s') (validation_flags s')
                 (limit_config s') (<[author_id event := stats4]> (stats s')) true)
    end.

End Checks.

(** An entry as the listener keeps it: the feedback score within its
    bounds, the count of invalid messages not negative. *)
Definition sound (user_stats : UserStats) : Prop :=
  -5 <= feedback_score user_stats <= 5 ∧ (0 ≤ invalid_message_count user_stats)%Z.

(** The thresholds within the bounds [_adjust_thresholds] gives them. *)
Definition in_range (config : Limits) : Prop :=
  0.1 <= DIGIT_RATIO_THRESHOLD config <= 1.0 ∧ 0.0 <= MIN_MESSAGE_ENTROPY config <= 4.0.

(** The same message sent [n] more times: the verdict of the last
    [_check_repetition] and the entry after it. *)
Fixpoint resend (n : nat) (message : list Z) (config : Limits) (user_stats : UserStats)
    : bool * UserStats :=
  match n with
  | O => _check_repetition message config user_stats
  | S n' => resend n' message config (_check_repetition message config user_stats).2
  end.

End Monitor.

(* ===================================================================== *)
(** * Retrying ([Model.async_retry])                                     *)
(* ===================================================================== *)

(** The decorator around [load_data] and [save_data].  The coroutine it
    wraps is a function of the state it runs in: it ends with an exception
    or with a value, and leaves a state.  What the wrapper itself does is
    kept beside: the warnings it logs (attempt number and exception) and the
    sleeps it awaits, in seconds. *)
Module Retry.
Local Open Scope R_scope.

Record Effects (E : Type) : Type := mk_Effects {
  warnings : list (Z * E);
  sleeps : list R;
}.
Arguments mk_Effects {E} warnings sleeps.
Arguments warnings {E} e.
Arguments sleeps {E} e.

(** [range(n)] *)
Definition range (n : Z) : list Z := map Z.of_nat (seq 0 (Z.to_nat n)).

Section Retry.
Context {St E A : Type}.
Variable func : St → (E + A) * St.

(** The loop [for attempt in range(max_retries)] over the attempts that
    are still to be made; [None] is the [return None] after the loop. *)
Fixpoint attempts (todo : list Z) (max_retries : Z) (delay : R) (s : St) (fx : Effects E)
    : (E + option A) * St * Effects E :=
  match todo with
  | [] => (inr None, s, fx)
  | attempt :: rest =>
      match func s with
      | (inr a, s') => (inr (Some a), s', fx)
      | (inl e, s') =>
          if (attempt =? max_retries - 1)%Z
          then (inl e, s', fx)
          else
            attempts rest max_retries delay s'
              (mk_Effects (warnings fx ++ [((attempt + 1)%Z, e)])
                 (sleeps fx ++ [delay * 2 ^ Z.to_nat attempt]))
      end
  end.

Definition async_retry (max_retries : Z) (delay : R) (s : St)
    : (E + option A) * St * Effects E :=
  attempts (range max_retries) max_retries delay s (mk_Effects [] []).

End Retry.

(** The sleeps of [j] failed attempts, and their sum. *)
Definition backoff (delay : R) (j : nat) : list R := map (λ i, delay * 2 ^ i) (seq 0 j).

Definition total (l : list R) : R := fold_right Rplus 0 l.

End Retry.

(* ===================================================================== *)
(** * Custom roles ([Roles.update_custom_roles])                         *)
(* ===================================================================== *)

Module Registry.
Local Open Scope Z_scope.

(** The members of one custom role.  [load_data] builds the values of
    [custom.json] as [frozenset]s; the roles made while the bot runs are
    [set]s; only a [set] has [add] and [remove]. *)
Record RoleMembers : Type := mk_RoleMembers {
  frozen : bool;
  ids : gset Z;
}.

Inductive exn : Type :=
| AttributeError
| SaveError.

Record Registry : Type := mk_Registry {
  custom_roles : gmap string RoleMembers;
  custom_json : gmap string (gset Z);
  storage_ok : bool;
}.

(** [model.load_data("custom.json", dict)], the file being there *)
Definition load_custom_roles (r : Registry) : Registry :=
  mk_Registry (mk_RoleMembers true <$> custom_json r) (custom_json r) (storage_ok r).

(** [save_custom_roles] *)
Definition save_custom_roles (r : Registry) : (exn + unit) * Registry :=
  if storage_ok r
  then (inr tt, mk_Registry (custom_roles r) (ids <$> custom_roles r) (storage_ok r))
  else (inl SaveError, r).

(** One turn of the loop of [update_custom_roles]. *)
Definition update_one (user_id : Z) (action : Engine.Action) (role : string)
    (updated_roles : gset string) (r : Registry) : (exn + gset string) * Registry :=
  match custom_roles r !! role with
  | None =>
      (inr (updated_roles ∪ {[role]}),
       mk_Registry (<[role := mk_RoleMembers false ∅]> (custom_roles r)) (custom_json r)
         (storage_ok r))
  | Some members =>
      match action with
      | Engine.ADD =>
          if bool_decide (user_id ∉ ids members)
          then
            if frozen members then (inl AttributeError, r)
            else
              (inr (updated_roles ∪ {[role]}),
               mk_Registry
                 (<[role := mk_RoleMembers false (ids members ∪ {[user_id]})]>
                    (custom_roles r))
                 (custom_json r) (storage_ok r))
          else (inr updated_roles, r)
      | Engine.REMOVE =>
          if bool_decide (user_id ∈ ids members)
          then
            if frozen members then (inl AttributeError, r)
            else
              let rest := ids members ∖ {[user_id]} in
              (inr (updated_roles ∪ {[role]}),
               mk_Registry
                 (if bool_decide (rest = ∅) then delete role (custom_roles r)
                  else <[role := mk_RoleMembers false rest]> (custom_roles r))
                 (custom_json r) (storage_ok r))
          else (inr updated_roles, r)
      | _ => (inr updated_roles, r)
      end
  end.

(** The loop [for role in roles], in the order the set is gone through. *)
Fixpoint update_each (user_id : Z) (action : Engine.Action) (roles : list string)
    (updated_roles : gset string) (r : Registry) : (exn + gset string) * Registry :=
  match roles with
  | [] => (inr updated_roles, r)
  | role :: rest =>
      match update_one user_id action role updated_roles r with
      | (inr updated_roles, r) => update_each user_id action rest updated_roles r
      | (inl e, r) => (inl e, r)
      end
  end.

(** [Roles.update_custom_roles] *)
Definition update_custom_roles (user_id : Z) (roles : list string) (action : Engine.Action)
    (r : Registry) : (exn + gset string) * Registry :=
  match update_each user_id action roles ∅ r with
  | (inr updated_roles, r) =>
      if bool_decide (updated_roles ≠ ∅)
      then
        match save_custom_roles r with
        | (inr _, r) => (inr updated_roles, r)
        | (inl e, r) => (inl e, r)
        end
      else (inr updated_roles, r)
  | (inl e, r) => (inl e, r)
  end.

End Registry.

(* ===================================================================== *)
(** * Further concrete worlds                                            *)
(* ===================================================================== *)

Module Cases.
Import Engine Scenario.
Local Open Scope Z_scope.

(** Member 42 holds the temporary role; the directory refuses to edit
    their roles. *)
Definition edits_refused : World :=
  initial_World
    (mk_Remote true {[7 := GuildPublicThread 42]} guild_role_ids
       {[42 := {[TEMPORARY_ROLE_ID Config_default]}]} ∅ {[42]})
    ∅ 1000000.

(** Somebody without a vetting role, in thread 7; a reviewer in channel
    99, which is no thread. *)
Definition bystander : Context := mk_Context 300 {[555]} 7.

Definition stray_reviewer : Context := mk_Context 103 {[1200066469300551782]} 99.

(** Thread 7 belongs to member 42, who has left the guild. *)
Definition member_departed : World :=
  initial_World (mk_Remote true {[7 := GuildPublicThread 42]} guild_role_ids ∅ ∅ ∅)
    ∅ 1000000.

(** Nobody has voted on thread 7; member 42 holds the temporary role, or
    the electoral role. *)
Definition first_vote_world : World :=
  initial_World (guild_with {[TEMPORARY_ROLE_ID Config_default]}) ∅ 1000000.

Definition approved_member : World :=
  initial_World (guild_with {[ELECTORAL_ROLE_ID Config_default; 555]}) ∅ 1000000.

(** Two reviewers have rejected member 42, who holds the electoral role. *)
Definition two_rejections : Approval := mk_Approval 0 2 {[101; 102]} None.

Definition third_rejection_world : World :=
  mk_World {[7 := two_rejections]} ∅ ∅ ∅
    (guild_with {[ELECTORAL_ROLE_ID Config_default; 555]}) true ∅ [] 1000000 [] [].

(** Member 42 is incarcerated until second 3601; it is second 1.  They
    held the temporary role before. *)
Definition sentence : Incarceration :=
  mk_Incarceration 3601 [TEMPORARY_ROLE_ID Config_default].

Definition inmate : World :=
  initial_World (guild_with {[INCARCERATED_ROLE_ID Config_default; 555]})
    {[42 := sentence]} 1000000.

(** A guild without roles. *)
Definition no_roles : World :=
  initial_World (mk_Remote true ∅ ∅ {[42 := ∅]} ∅ ∅) ∅ 1000000.

(** Member 42 was due for release at second 10 and it is second 20; member
    43 is due at second 50. *)
Definition due_soon : Incarceration :=
  mk_Incarceration 50 [APPROVED_ROLE_ID Config_default].

Definition release_day : World :=
  initial_World
    (mk_Remote true ∅ guild_role_ids
       {[42 := {[INCARCERATED_ROLE_ID Config_default]};
         43 := {[INCARCERATED_ROLE_ID Config_default]}]} ∅ ∅)
    {[42 := overdue; 43 := due_soon]} 20000000.

(** [str.isdigit] and [str.isspace] on ASCII. *)
Definition ascii_isdigit (c : Z) : bool := (48 <=? c) && (c <=? 57).

Definition ascii_isspace (c : Z) : bool := (c =? 32) || ((9 <=? c) && (c <=? 13)).

(** The monitor switched on with nothing counted yet, and a message of
    member 42. *)
Definition watching : Monitor.Monitoring :=
  Monitor.mk_Monitoring true Monitor.validation_flags_default Monitor.limit_config_default
    ∅ false.

Definition greeting : Monitor.MessageCreate :=
  Monitor.mk_MessageCreate 42 false true [104; 105].

(** A registry with one role, made while the bot runs, and two members. *)
Definition helpers : Registry.Registry :=
  Registry.mk_Registry {["helper" := Registry.mk_RoleMembers false {[1; 2]}]}
    {["helper" := {[1; 2]}]} true.

End Cases.

(* ===================================================================== *)
(** * Theorems                                                           *)
(* ===================================================================== *)

Module DurationFacts.
Import Duration.
Local Open Scope Z_scope.

Lemma span_digits_spec (s : list Z) :
  s = fst (span_digits s) ++ snd (span_digits s)
  ∧ all_digits (fst (span_digits s)) = true
  ∧ starts_with_digit (snd (span_digits s)) = false.
Proof.
  induction s as [|c r IH]; [easy|].
  cbn [span_digits]. destruct (is_digit c) eqn:Hc.
  - destruct (span_digits r) as [run tail]. cbn [fst snd] in *.
    destruct IH as (IH1 & IH2 & IH3). repeat split.
    + rewrite IH1 at 1. reflexivity.
    + cbn [all_digits]. now rewrite Hc, IH2.
    + exact IH3.
  - cbn [fst snd all_digits starts_with_digit app]. now rewrite Hc.
Qed.

Lemma span_digits_app (d t : list Z) :
  all_digits d = true → starts_with_digit t = false →
  span_digits (d ++ t) = (d, t).
Proof.
  intros Hd Ht. induction d as [|c d IH].
  - cbn [app]. destruct t as [|u t]; [reflexivity|].
    cbn [span_digits starts_with_digit] in *. now rewrite Ht.
  - cbn [all_digits] in Hd. apply andb_true_iff in Hd as [Hc Hd].
    cbn [app span_digits]. rewrite Hc, (IH Hd). reflexivity.
Qed.

Lemma match_here_length (s digits tail : list Z) (unit : Z) :
  match_here s = Some (digits, unit, tail) →
  (length tail < length s)%nat.
Proof.
  unfold match_here. intros H.
  destruct (span_digits_spec s) as (Hs & _ & _).
  destruct (span_digits s) as [[|c run] [|u t]]; try discriminate.
  destruct (is_dhm u); [|discriminate].
  injection H as _ _ <-. rewrite Hs. cbn [fst snd]. rewrite length_app. cbn. lia.
Qed.

Lemma finditer_fuel_S (fuel : nat) (c : Z) (r : list Z) :
  finditer_fuel (S fuel) (c :: r) =
  match match_here (c :: r) with
  | Some (digits, unit, tail) => (digits, unit) :: finditer_fuel fuel tail
  | None => finditer_fuel fuel r
  end.
Proof. reflexivity. Qed.

(** Enough fuel: any two amounts above the length give the same matches. *)
Lemma finditer_fuel_irrelevant (fuel1 : nat) :
  ∀ fuel2 s, (length s < fuel1)%nat → (length s < fuel2)%nat →
             finditer_fuel fuel1 s = finditer_fuel fuel2 s.
Proof.
  induction fuel1 as [|fuel1 IH]; intros fuel2 s H1 H2; [lia|].
  destruct fuel2 as [|fuel2]; [lia|].
  destruct s as [|c r]; [reflexivity|].
  rewrite !finditer_fuel_S. cbn [length] in H1, H2.
  destruct (match_here (c :: r)) as [[[digits unit] tail]|] eqn:Hm.
  - apply match_here_length in Hm. cbn [length] in Hm.
    f_equal. apply IH; lia.
  - apply IH; lia.
Qed.

Lemma finditer_fuel_enough (fuel : nat) (s : list Z) :
  (length s < fuel)%nat → finditer_fuel fuel s = finditer s.
Proof. intros H. apply finditer_fuel_irrelevant; [exact H | lia]. Qed.

Lemma finditer_cons (c : Z) (r : list Z) :
  finditer (c :: r) =
  match match_here (c :: r) with
  | Some (digits, unit, tail) => (digits, unit) :: finditer tail
  | None => finditer r
  end.
Proof.
  unfold finditer at 1. rewrite finditer_fuel_S.
  destruct (match_here (c :: r)) as [[[digits unit] tail]|] eqn:Hm.
  - apply match_here_length in Hm.
    f_equal. apply finditer_fuel_enough. lia.
  - apply finditer_fuel_enough. cbn [length]. lia.
Qed.

(** Character classes *)
Lemma is_dhm_cases (c : Z) :
  is_dhm c = true → c = 100 ∨ c = 104 ∨ c = 109 ∨ c = 68 ∨ c = 72 ∨ c = 77.
Proof. unfold is_dhm. rewrite !orb_true_iff, !Z.eqb_eq. tauto. Qed.

Lemma is_dhm_none (c : Z) :
  is_dhm c = false → c ≠ 100 ∧ c ≠ 104 ∧ c ≠ 109 ∧ c ≠ 68 ∧ c ≠ 72 ∧ c ≠ 77.
Proof. unfold is_dhm. rewrite !orb_false_iff, !Z.eqb_neq. tauto. Qed.

Lemma is_dhm_not_digit (c : Z) : is_dhm c = true → is_digit c = false.
Proof.
  intros H. apply is_dhm_cases in H as [->|[->|[->|[->|[->| ->]]]]]; reflexivity.
Qed.

Lemma unit_map_lower (c : Z) :
  _UNIT_MAP [lower c] =
  if is_dhm c then spec_weight c else _UNIT_MAP [lower c].
Proof.
  destruct (is_dhm c) eqn:H; [|reflexivity].
  apply is_dhm_cases in H as [->|[->|[->|[->|[->| ->]]]]]; reflexivity.
Qed.

Lemma spec_weight_dhm (c : Z) :
  spec_weight c = if is_dhm c then spec_weight c else None.
Proof.
  destruct (is_dhm c) eqn:H; [reflexivity|].
  apply is_dhm_none in H as (H1 & H2 & H3 & H4 & H5 & H6). unfold spec_weight.
  now rewrite !(proj2 (Z.eqb_neq c _)) by assumption.
Qed.

Lemma is_dhm_weight (c : Z) : is_dhm c = true → ∃ w, spec_weight c = Some w.
Proof.
  intros H. apply is_dhm_cases in H as [->|[->|[->|[->|[->| ->]]]]]; cbn; eauto.
Qed.

Lemma match_here_no_digit (c : Z) (r : list Z) :
  is_digit c = false → match_here (c :: r) = None.
Proof. intros Hc. unfold match_here. cbn [span_digits]. now rewrite Hc. Qed.

Lemma finditer_no_digit (c : Z) (r : list Z) :
  is_digit c = false → finditer (c :: r) = finditer r.
Proof. intros Hc. now rewrite finditer_cons, match_here_no_digit. Qed.

(** A run of digits with no unit letter behind it holds no match. *)
Lemma finditer_skip_digits (run t : list Z) :
  all_digits run = true → starts_with_digit t = false →
  match t with u :: _ => is_dhm u = false | [] => True end →
  finditer (run ++ t) = finditer t.
Proof.
  intros Hrun Ht Hu. induction run as [|c run IH]; [reflexivity|].
  pose proof Hrun as Hrun'.
  cbn [all_digits] in Hrun. apply andb_true_iff in Hrun as [Hc Hrun].
  change ((c :: run) ++ t) with (c :: (run ++ t)).
  rewrite finditer_cons. change (c :: (run ++ t)) with ((c :: run) ++ t).
  unfold match_here. rewrite (span_digits_app _ _ Hrun' Ht).
  destruct t as [|u tail]; [now apply IH|].
  rewrite Hu. now apply IH.
Qed.

(** The matches of a text that starts with a run of digits. *)
Lemma finditer_run (d : list Z) (u : Z) (tail : list Z) :
  all_digits d = true → d ≠ [] → is_digit u = false →
  finditer (d ++ u :: tail)
  = if is_dhm u then (d, u) :: finditer tail else finditer tail.
Proof.
  intros Hd Hne Hu. destruct (is_dhm u) eqn:Hdhm.
  - destruct d as [|c run]; [congruence|].
    change ((c :: run) ++ u :: tail) with (c :: (run ++ u :: tail)).
    rewrite finditer_cons. change (c :: (run ++ u :: tail)) with ((c :: run) ++ u :: tail).
    unfold match_here. rewrite (span_digits_app _ _ Hd) by exact Hu.
    now rewrite Hdhm.
  - rewrite finditer_skip_digits by assumption. now apply finditer_no_digit.
Qed.

Lemma finditer_digits (d : list Z) : all_digits d = true → finditer d = [].
Proof.
  intros Hd. rewrite <- (app_nil_r d). now rewrite finditer_skip_digits.
Qed.

(** A text is empty, or starts with a character that is no digit, or is a
    run of digits, or is a run of digits, a character that is no digit and
    a rest. *)
Lemma scan_ind (P : list Z → Prop) :
  P [] →
  (∀ c r, is_digit c = false → P r → P (c :: r)) →
  (∀ d, all_digits d = true → d ≠ [] → P d) →
  (∀ d u tail, all_digits d = true → d ≠ [] → is_digit u = false → P tail →
               P (d ++ u :: tail)) →
  ∀ s, P s.
Proof.
  intros Hnil Hskip Hrun Htoken s.
  assert (H : ∀ n s, (length s ≤ n)%nat → P s).
  { clear s. induction n as [|n IH]; intros s Hlen.
    - destruct s; [exact Hnil|cbn in Hlen; lia].
    - destruct s as [|c r]; [exact Hnil|]. cbn [length] in Hlen.
      destruct (is_digit c) eqn:Hc; [|apply Hskip; [exact Hc|apply IH; lia]].
      destruct (span_digits_spec (c :: r)) as (Hs & Hd & Ht).
      destruct (span_digits (c :: r)) as [d t] eqn:Hspan. cbn [fst snd] in Hs, Hd, Ht.
      assert (Hne : d ≠ []).
      { intros ->. cbn [span_digits] in Hspan. rewrite Hc in Hspan.
        destruct (span_digits r). discriminate. }
      destruct t as [|u tail].
      + rewrite Hs, app_nil_r. now apply Hrun.
      + rewrite Hs. apply Htoken; [exact Hd|exact Hne|exact Ht|].
        apply IH. apply (f_equal (@length Z)) in Hs.
        rewrite length_app in Hs. cbn [length] in Hs.
        destruct d; [congruence|]. cbn [length] in Hs. lia. }
  apply (H (length s)). lia.
Qed.

Lemma spec_seconds_digits (d : list Z) :
  all_digits d = true → d ≠ [] →
  ∀ run t, spec_seconds_from run (d ++ t)
           = spec_seconds_from (Some (int_from (default 0 run) d)) t.
Proof.
  induction d as [|c d IH]; intros Hd Hne run t; [congruence|].
  cbn [all_digits] in Hd. apply andb_true_iff in Hd as [Hc Hd].
  cbn [app spec_seconds_from int_from]. rewrite Hc.
  destruct d as [|c' d'].
  - reflexivity.
  - rewrite IH by (auto; congruence). reflexivity.
Qed.

Lemma spec_seconds_all_digits (d : list Z) :
  all_digits d = true → ∀ run, spec_seconds_from run d = 0.
Proof.
  induction d as [|c d IH]; intros Hd run; [reflexivity|].
  cbn [all_digits] in Hd. apply andb_true_iff in Hd as [Hc Hd].
  cbn [spec_seconds_from]. rewrite Hc. now apply IH.
Qed.

(** The units of the matches are in [_UNIT_MAP]. *)
Lemma finditer_units (s : list Z) : Forall (λ m, is_dhm m.2 = true) (finditer s).
Proof.
  induction s as [| c r Hc IH | d Hd Hne | d u tail Hd Hne Hu IH] using scan_ind.
  - constructor.
  - now rewrite finditer_no_digit.
  - rewrite finditer_digits by exact Hd. constructor.
  - rewrite finditer_run by assumption.
    destruct (is_dhm u) eqn:Hdhm; [constructor; assumption|assumption].
Qed.

(** The matches of the pattern add up to the tokens of the grammar, unless
    [int] refuses one of them. *)
Lemma sum_finditer (s : list Z) :
  ∀ acc, integers_within MAX_STR_DIGITS (finditer s) = true →
         sum_from acc (finditer s) = inr (acc + spec_seconds_from None s).
Proof.
  induction s as [| c r Hc IH | d Hd Hne | d u tail Hd Hne Hu IH] using scan_ind;
    intros acc Hin.
  - cbn. f_equal. lia.
  - rewrite finditer_no_digit in * by exact Hc. rewrite IH by exact Hin.
    cbn [spec_seconds_from]. now rewrite Hc.
  - rewrite finditer_digits by exact Hd. rewrite spec_seconds_all_digits by exact Hd.
    cbn. f_equal. lia.
  - rewrite finditer_run in * by assumption.
    rewrite (spec_seconds_digits d Hd Hne). cbn [spec_seconds_from default]. rewrite Hu.
    destruct (is_dhm u) eqn:Hdhm.
    + cbn [integers_within forallb fst] in Hin. apply andb_true_iff in Hin as [Hlen Hin].
      cbn [sum_from]. unfold int.
      apply Z.leb_le in Hlen. rewrite (proj2 (Z.ltb_ge _ _)) by lia.
      rewrite unit_map_lower, Hdhm.
      destruct (is_dhm_weight u Hdhm) as [w Hw]. rewrite Hw.
      rewrite IH by exact Hin. f_equal. lia.
    + rewrite IH by exact Hin. rewrite (spec_weight_dhm u), Hdhm. reflexivity.
Qed.

Lemma sum_from_refused (ms : list (list Z * Z)) :
  Forall (λ m, is_dhm m.2 = true) ms →
  integers_within MAX_STR_DIGITS ms = false →
  ∀ acc, ∃ n, sum_from acc ms = inl (ValueError_int_digits n).
Proof.
  induction ms as [|[g1 g2] ms IH]; intros Hu Hin acc; [discriminate|].
  apply Forall_cons in Hu as [Hg2 Hu]. cbn [snd] in Hg2.
  cbn [integers_within forallb fst] in Hin. cbn [sum_from]. unfold int.
  destruct (Z.ltb_spec MAX_STR_DIGITS (Z.of_nat (length g1))) as [Hlong|Hshort];
    [eexists; reflexivity|].
  rewrite (proj2 (Z.leb_le _ _) Hshort) in Hin. cbn [andb] in Hin.
  rewrite unit_map_lower, Hg2.
  destruct (is_dhm_weight g2 Hg2) as [w ->]. now apply IH.
Qed.

(** The longest integer of a match is the longest integer of a token. *)
Lemma spec_longest_digits (d : list Z) :
  all_digits d = true →
  ∀ run t, spec_longest_from run (d ++ t) = spec_longest_from (run + Z.of_nat (length d)) t.
Proof.
  induction d as [|c d IH]; intros Hd run t.
  - cbn. f_equal. lia.
  - cbn [all_digits] in Hd. apply andb_true_iff in Hd as [Hc Hd].
    cbn [app spec_longest_from]. rewrite Hc, IH by exact Hd. f_equal. cbn [length]. lia.
Qed.

Lemma spec_longest_nonneg (s : list Z) : ∀ run, 0 ≤ run → 0 ≤ spec_longest_from run s.
Proof.
  induction s as [|c s IH]; intros run Hrun; [reflexivity|].
  cbn [spec_longest_from]. destruct (is_digit c); [apply IH; lia|].
  destruct (_ && _); [|apply IH; lia]. pose proof (IH 0 ltac:(lia)). lia.
Qed.

Lemma integers_within_spec (limit : Z) (s : list Z) :
  0 ≤ limit →
  integers_within limit (finditer s) = (spec_longest_integer s <=? limit).
Proof.
  intros Hlimit. unfold spec_longest_integer.
  induction s as [| c r Hc IH | d Hd Hne | d u tail Hd Hne Hu IH] using scan_ind.
  - cbn. symmetry. now apply Z.leb_le.
  - rewrite finditer_no_digit by exact Hc. cbn [spec_longest_from]. now rewrite Hc.
  - rewrite finditer_digits by exact Hd.
    rewrite <- (app_nil_r d), spec_longest_digits by exact Hd. cbn.
    symmetry. now apply Z.leb_le.
  - rewrite finditer_run by assumption. rewrite spec_longest_digits by exact Hd.
    cbn [spec_longest_from]. rewrite Hu.
    assert (Hpos : 0 < Z.of_nat (length d)) by (destruct d; [congruence|cbn [length]; lia]).
    rewrite Z.add_0_l, (proj2 (Z.ltb_lt _ _) Hpos). cbn [andb].
    destruct (is_dhm u); [|exact IH].
    cbn [integers_within forallb fst]. fold (integers_within limit (finditer tail)).
    rewrite IH.
    destruct (Z.leb_spec (Z.max (Z.of_nat (length d)) (spec_longest_from 0 tail)) limit)
      as [H|H].
    + apply andb_true_iff. split; apply Z.leb_le; lia.
    + apply andb_false_iff. rewrite !Z.leb_gt. lia.
Qed.

(** Text in front that does not end in a digit has its own matches. *)
Lemma ends_in_digit_cons (c : Z) (r : list Z) :
  ends_in_digit (c :: r) = false → ends_in_digit r = false.
Proof. destruct r; [reflexivity|]. intros H. exact H. Qed.

Lemma ends_in_digit_app (a b : list Z) :
  b ≠ [] → ends_in_digit (a ++ b) = ends_in_digit b.
Proof.
  intros Hb. induction a as [|c a IH]; [reflexivity|].
  cbn [app]. destruct (a ++ b) eqn:Hab.
  - apply app_eq_nil in Hab as [_ ?]. congruence.
  - rewrite <- IH. reflexivity.
Qed.

Lemma all_digits_ends (d : list Z) :
  all_digits d = true → d ≠ [] → ends_in_digit d = true.
Proof.
  induction d as [|c d IH]; intros Hd Hne; [congruence|].
  cbn [all_digits] in Hd. apply andb_true_iff in Hd as [Hc Hd].
  destruct d as [|c' d']; [exact Hc|]. apply IH; [exact Hd|discriminate].
Qed.

Lemma finditer_app (a : list Z) :
  ends_in_digit a = false → ∀ b, finditer (a ++ b) = finditer a ++ finditer b.
Proof.
  induction a as [| c r Hc IH | d Hd Hne | d u tail Hd Hne Hu IH] using scan_ind;
    intros Ha b.
  - reflexivity.
  - cbn [app]. rewrite !finditer_no_digit by exact Hc.
    apply IH. now apply ends_in_digit_cons in Ha.
  - rewrite all_digits_ends in Ha by assumption. discriminate.
  - rewrite <- app_assoc. cbn [app]. rewrite !finditer_run by assumption.
    rewrite ends_in_digit_app in Ha by discriminate. apply ends_in_digit_cons in Ha.
    rewrite (IH Ha). now destruct (is_dhm u).
Qed.

Lemma spec_seconds_app (a : list Z) :
  ∀ run b, spec_seconds_from run (a ++ b)
           = spec_seconds_from run a + spec_seconds_from (spec_run_after run a) b.
Proof.
  induction a as [|c a IH]; intros run b.
  - reflexivity.
  - cbn [app spec_seconds_from spec_run_after].
    destruct (is_digit c); [apply IH|].
    destruct run as [n|], (spec_weight c) as [w|]; rewrite IH; ring.
Qed.

Lemma spec_run_after_clean (a : list Z) :
  ∀ run, ends_in_digit a = false →
         spec_run_after run a = match a with [] => run | _ => None end.
Proof.
  induction a as [|c a IH]; intros run Ha; [reflexivity|].
  cbn [spec_run_after]. destruct a as [|c' a'].
  - cbn [ends_in_digit] in Ha. now rewrite Ha.
  - change (ends_in_digit (c' :: a') = false) in Ha.
    destruct (is_digit c); now rewrite IH.
Qed.

Lemma spec_run_after_None (a : list Z) :
  ends_in_digit a = false → spec_run_after None a = None.
Proof. intros Ha. rewrite (spec_run_after_clean a None Ha). now destruct a. Qed.

Lemma timedelta_in_range (t : Z) :
  0 < t ≤ MAX_DELTA_SECONDS → timedelta_of_seconds t = inr (mk_timedelta t).
Proof.
  unfold timedelta_of_seconds, MAX_DELTA_SECONDS, MAX_DELTA_DAYS. intros [H0 H1].
  assert (0 <= t / 86400) by (apply Z.div_pos; lia).
  assert (t / 86400 < 1000000000).
  { apply Z.div_lt_upper_bound; lia. }
  rewrite !(proj2 (Z.leb_le _ _)) by lia. reflexivity.
Qed.

(** [parse_duration] in one equation over the tokens of the grammar. *)
Lemma parse_duration_eq (s : list Z) :
  parse_duration s =
  if integers_within MAX_STR_DIGITS (finditer s)
  then if spec_total_seconds s <=? 0 then inl (ValueError msg_not_positive)
       else timedelta_of_seconds (spec_total_seconds s)
  else inl (ValueError msg_not_positive).
Proof.
  unfold parse_duration, parse_duration_body.
  destruct (integers_within MAX_STR_DIGITS (finditer s)) eqn:Hin.
  - rewrite (sum_finditer s 0 Hin), Z.add_0_l. fold (spec_total_seconds s).
    destruct (spec_total_seconds s <=? 0); [reflexivity|].
    unfold timedelta_of_seconds.
    now destruct (_ && _).
  - destruct (sum_from_refused (finditer s) (finditer_units s) Hin 0) as [n ->].
    reflexivity.
Qed.

Lemma parse_duration_not_positive (s : list Z) :
  spec_total_seconds s ≤ 0 → parse_duration s = inl (ValueError msg_not_positive).
Proof.
  intros H. rewrite parse_duration_eq.
  destruct (integers_within _ _); [|reflexivity].
  destruct (Z.leb_spec (spec_total_seconds s) 0); [reflexivity|lia].
Qed.

Lemma parse_duration_no_token (s : list Z) :
  finditer s = [] → parse_duration s = inl (ValueError msg_not_positive).
Proof.
  intros H. unfold parse_duration, parse_duration_body. now rewrite H.
Qed.

(** C3, amended: the result is [timedelta(seconds = sum of the tokens)]
    whenever that sum is positive and within what a [timedelta] holds
    (at most 86399999999999 seconds) and no token has an integer of more
    than 4300 digits; a string whose sum is not positive, and so every
    string without a token, is refused with the [ValueError] of the second
    handler, and so is a string with a token whose integer has more than
    4300 digits.  An integer is a run of decimal digits, of ASCII or of any
    other script. *)
Theorem parse_duration_sums_tokens (s : list Z) :
  (spec_longest_integer s ≤ MAX_STR_DIGITS →
   0 < spec_total_seconds s ≤ MAX_DELTA_SECONDS →
     parse_duration s = inr (mk_timedelta (spec_total_seconds s)))
  ∧ (spec_total_seconds s ≤ 0 →
     parse_duration s = inl (ValueError msg_not_positive))
  ∧ (finditer s = [] →
     parse_duration s = inl (ValueError msg_not_positive))
  ∧ (MAX_STR_DIGITS < spec_longest_integer s →
     parse_duration s = inl (ValueError msg_not_positive)).
Proof.
  split; [|split; [|split]].
  - intros Hlen H. rewrite parse_duration_eq.
    rewrite integers_within_spec by discriminate.
    rewrite (proj2 (Z.leb_le _ _) Hlen).
    destruct (Z.leb_spec (spec_total_seconds s) 0); [lia|].
    now apply timedelta_in_range.
  - apply parse_duration_not_positive.
  - apply parse_duration_no_token.
  - intros Hlen. rewrite parse_duration_eq.
    rewrite integers_within_spec by discriminate.
    now rewrite (proj2 (Z.leb_gt _ _) Hlen).
Qed.

(** C3 as stated fails: a positive sum beyond the range of [timedelta]
    gives no duration but an [OverflowError]; and one day written with 4300
    zeros in front is a positive sum that [int] refuses, which ends in the
    [ValueError] of the second handler. *)
Lemma parse_duration_overflow :
  0 < spec_total_seconds (text "1000000000d"%string)
  ∧ parse_duration (text "1000000000d"%string) = inl OverflowError
  ∧ spec_total_seconds (repeat 48 4300 ++ text "1d"%string) = 86400
  ∧ parse_duration (repeat 48 4300 ++ text "1d"%string) = inl (ValueError msg_not_positive).
Proof.
  split; [reflexivity|]. split; [vm_compute; reflexivity|].
  split; vm_compute; reflexivity.
Qed.

(** C10: the result is a function of the matches of the pattern alone;
    text that holds no match and does not run into a neighbouring token
    changes nothing, so ["1dxx2h"] is read as ["1d 2h"]; no input reaches
    the handler of [AttributeError] and [KeyError], and every input whose
    tokens do not add up to a positive number, all-junk text included, gets
    the error of the second handler. *)
Theorem parse_duration_reads_matches_only :
  (∀ s s', finditer s = finditer s' → parse_duration s = parse_duration s')
  ∧ (∀ a junk b,
       ends_in_digit a = false → finditer junk = [] → ends_in_digit junk = false →
       parse_duration (a ++ junk ++ b) = parse_duration (a ++ b))
  ∧ parse_duration (text "1dxx2h"%string) = parse_duration (text "1d 2h"%string)
  ∧ (∀ s, parse_duration_body s ≠ inl KeyError
          ∧ parse_duration_body s ≠ inl AttributeError
          ∧ parse_duration s ≠ inl (ValueError msg_invalid_format))
  ∧ (∀ s, spec_total_seconds s ≤ 0 →
          parse_duration s = inl (ValueError msg_not_positive))
  ∧ (∀ junk, finditer junk = [] →
          parse_duration junk = inl (ValueError msg_not_positive)).
Proof.
  split; [|split; [|split; [|split; [|split]]]].
  - intros s s' H. unfold parse_duration, parse_duration_body. now rewrite H.
  - intros a junk b Ha Hj Hj'.
    unfold parse_duration, parse_duration_body.
    rewrite !(finditer_app a) by exact Ha.
    rewrite (finditer_app junk) by exact Hj'. now rewrite Hj.
  - vm_compute. reflexivity.
  - intros s. unfold parse_duration, parse_duration_body.
    destruct (integers_within MAX_STR_DIGITS (finditer s)) eqn:Hin.
    + rewrite (sum_finditer s 0 Hin).
      destruct (_ <=? 0).
      * repeat split; discriminate.
      * unfold timedelta_of_seconds. destruct (_ && _); repeat split; discriminate.
    + destruct (sum_from_refused (finditer s) (finditer_units s) Hin 0) as [n ->].
      repeat split; discriminate.
  - apply parse_duration_not_positive.
  - apply parse_duration_no_token.
Qed.

End DurationFacts.

Module EntropyFacts.
Import Entropy.
Local Open Scope R_scope.

(** *** [Counter] counts *)

Lemma counter_add_keys (c : Z) (counts : list (Z * nat)) :
  ∀ k, In k (map fst (counter_add c counts)) ↔ k = c ∨ In k (map fst counts).
Proof.
  induction counts as [|[k0 n0] rest IH]; intros k; cbn.
  - intuition.
  - destruct (Z.eqb_spec k0 c) as [->|Hne]; cbn; [intuition|].
    rewrite IH. intuition.
Qed.

Lemma counter_add_NoDup (c : Z) (counts : list (Z * nat)) :
  List.NoDup (map fst counts) → List.NoDup (map fst (counter_add c counts)).
Proof.
  induction counts as [|[k0 n0] rest IH]; intros Hnd; cbn.
  - constructor; [intros []|constructor].
  - inversion Hnd as [|? ? Hnotin Hrest]; subst.
    destruct (Z.eqb_spec k0 c) as [->|Hne]; cbn; [now constructor|].
    constructor; [|now apply IH].
    rewrite counter_add_keys. intros [->|Hin]; [congruence|contradiction].
Qed.

Lemma count_of_counter_add (c k : Z) (counts : list (Z * nat)) :
  count_of k (counter_add c counts)
  = (count_of k counts + if Z.eqb c k then 1 else 0)%nat.
Proof.
  induction counts as [|[k0 n0] rest IH]; cbn.
  - destruct (Z.eqb_spec c k); reflexivity.
  - destruct (Z.eqb_spec k0 c) as [->|Hne]; cbn.
    + destruct (Z.eqb_spec c k); lia.
    + destruct (Z.eqb_spec k0 k) as [->|Hne'].
      * destruct (Z.eqb_spec c k); [congruence|lia].
      * exact IH.
Qed.

Lemma count_of_In (k : Z) (n : nat) (counts : list (Z * nat)) :
  List.NoDup (map fst counts) → In (k, n) counts → count_of k counts = n.
Proof.
  induction counts as [|[k0 n0] rest IH]; intros Hnd Hin; [destruct Hin|].
  inversion Hnd as [|? ? Hnotin Hrest]; subst. cbn.
  destruct Hin as [Heq|Hin].
  - injection Heq as -> ->. now rewrite Z.eqb_refl.
  - destruct (Z.eqb_spec k0 k) as [->|Hne]; [|now apply IH].
    exfalso. apply Hnotin. change k with (fst (k, n)). now apply in_map.
Qed.

Lemma Counter_fold (msg : list Z) :
  ∀ acc,
    let counts := fold_left (fun counts c => counter_add c counts) msg acc in
    (List.NoDup (map fst acc) → List.NoDup (map fst counts))
    ∧ (∀ k, In k (map fst counts) ↔ In k msg ∨ In k (map fst acc))
    ∧ (∀ k, count_of k counts = (count_of k acc + count_occ Z.eq_dec msg k)%nat).
Proof.
  induction msg as [|c msg IH]; intros acc; cbn [fold_left].
  - cbn. repeat split; auto; try tauto. 
  - destruct (IH (counter_add c acc)) as (IH1 & IH2 & IH3). repeat split.
    + intros H. now apply IH1, counter_add_NoDup.
    + rewrite IH2, counter_add_keys. cbn. intuition.
    + rewrite IH2, counter_add_keys. cbn. intuition.
    + intros k. rewrite IH3, count_of_counter_add. cbn [count_occ].
      destruct (Z.eq_dec c k) as [->|Hne].
      * rewrite Z.eqb_refl. lia.
      * destruct (Z.eqb_spec c k); [congruence|lia].
Qed.

Lemma Counter_NoDup (msg : list Z) : List.NoDup (map fst (Counter msg)).
Proof. apply (Counter_fold msg []). constructor. Qed.

Lemma Counter_keys (msg : list Z) (k : Z) : In k (map fst (Counter msg)) ↔ In k msg.
Proof.
  destruct (Counter_fold msg []) as (_ & H & _). rewrite H. cbn. tauto.
Qed.

Lemma Counter_counts (msg : list Z) (k : Z) (n : nat) :
  In (k, n) (Counter msg) → n = count_occ Z.eq_dec msg k.
Proof.
  intros Hin. destruct (Counter_fold msg []) as (_ & _ & H).
  rewrite <- (count_of_In k n (Counter msg) (Counter_NoDup msg) Hin).
  apply H.
Qed.

(** *** Sums of reals *)

Lemma np_sum_Permutation (l l' : list R) :
  Permutation l l' → np_sum l = np_sum l'.
Proof.
  unfold np_sum.
  induction 1 as [|x l l' _ IH|x y l|l l' l'' _ IH1 _ IH2]; cbn [fold_right].
  - reflexivity.
  - now rewrite IH.
  - lra.
  - now rewrite IH1.
Qed.

Lemma np_sum_opp (l : list R) : - np_sum l = np_sum (map Ropp l).
Proof.
  unfold np_sum. induction l as [|x l IH]; cbn [fold_right map]; [lra|].
  rewrite <- IH. lra.
Qed.

Lemma np_sum_const (c : R) (l : list R) :
  (∀ x, In x l → x = c) → np_sum l = INR (List.length l) * c.
Proof.
  unfold np_sum. induction l as [|x l IH]; intros H.
  - cbn. lra.
  - cbn [fold_right List.length]. rewrite S_INR.
    rewrite IH by (intros; apply H; now right).
    rewrite (H x) by now left. lra.
Qed.

(** The value [_check_entropy] computes is the Shannon entropy of the
    design document. *)
Lemma entropy_of_spec (m : Message) :
  entropy_of m = spec_shannon_entropy (message m).
Proof.
  unfold entropy_of, spec_shannon_entropy, _char_frequencies, _message_length.
  rewrite np_sum_opp, !map_map.
  set (g := fun c : Z =>
              - (spec_probability (message m) c * log2 (spec_probability (message m) c))).
  transitivity (np_sum (map g (map fst (Counter (message m))))).
  - f_equal. rewrite map_map. apply map_ext_in. intros [k n] Hin. cbn [fst snd].
    unfold g, spec_probability. now rewrite (Counter_counts _ _ _ Hin).
  - apply np_sum_Permutation, Permutation_map,
      Stdlib.Sorting.Permutation.NoDup_Permutation.
    + apply Counter_NoDup.
    + apply List.NoDup_nodup.
    + intros k. rewrite Counter_keys, nodup_In. reflexivity.
Qed.

Lemma check_entropy_iff (m : Message) :
  message m ≠ [] →
  (_check_entropy m = true
   ↔ spec_shannon_entropy (message m)
       < spec_floor (MIN_MESSAGE_ENTROPY m) (message m)).
Proof.
  intros Hne. unfold _check_entropy.
  destruct (_message_length m) eqn:Hlen.
  { unfold _message_length in Hlen. destruct (message m); [congruence|discriminate]. }
  rewrite entropy_of_spec.
  change (Rmax (base_threshold m) (2.0 - length_adjustment m))
    with (spec_floor (MIN_MESSAGE_ENTROPY m) (message m)).
  destruct (Rlt_dec _ _) as [H|H]; split; intros; try easy.
Qed.

Lemma ln_2_pos : 0 < ln 2.
Proof. rewrite <- ln_1. apply ln_increasing; lra. Qed.

Lemma log2_1 : log2 1 = 0.
Proof. unfold log2. rewrite ln_1. lra. Qed.

Lemma log2_nonneg (x : R) : 1 <= x → 0 <= log2 x.
Proof.
  intros Hx. unfold log2. apply Rmult_le_pos.
  - destruct Hx as [Hx| <-]; [|rewrite ln_1; lra].
    left. rewrite <- ln_1. apply ln_increasing; lra.
  - left. apply Rinv_0_lt_compat, ln_2_pos.
Qed.

Lemma log2_50_lower : 5 < log2 50.
Proof.
  unfold log2. pose proof ln_2_pos as H2.
  apply Rmult_lt_reg_r with (r := ln 2); [exact H2|].
  unfold Rdiv. rewrite Rmult_assoc, Rinv_l by lra. rewrite Rmult_1_r.
  replace (5 * ln 2) with (ln 32).
  - apply ln_increasing; lra.
  - replace 32 with (2 * (2 * (2 * (2 * 2)))) by lra.
    rewrite !ln_mult by lra. lra.
Qed.

Lemma entropy_all_distinct (msg : list Z) :
  List.NoDup msg → msg ≠ [] →
  spec_shannon_entropy msg = log2 (INR (List.length msg)).
Proof.
  intros Hnd Hne. unfold spec_shannon_entropy.
  rewrite (nodup_fixed_point Z.eq_dec Hnd).
  assert (Hlen : 0 < INR (List.length msg)).
  { apply lt_0_INR. destruct msg; [congruence|cbn; lia]. }
  change (fold_right Rplus 0) with np_sum.
  rewrite (np_sum_const (- (1 / INR (List.length msg) * log2 (1 / INR (List.length msg))))).
  - rewrite length_map. unfold log2, Rdiv. rewrite Rmult_1_l, ln_Rinv by exact Hlen.
    field. split; [pose proof ln_2_pos; lra|lra].
  - intros x Hx. apply in_map_iff in Hx as (c & <- & Hc).
    unfold spec_probability.
    rewrite (proj1 (NoDup_count_occ' Z.eq_dec msg) Hnd c Hc). reflexivity.
Qed.


End EntropyFacts.

Module EngineFacts.
Import Engine.
Local Open Scope Z_scope.

Arguments bind {A B} m k w /.
Arguments ret {A} a w /.
Arguments raise {A} e w /.
Arguments gets {A} f w /.
Arguments modify f w /.
Arguments try_except {A} body handler w /.
Arguments try_finally {A} body final w /.
Arguments when b m /.
Arguments logger level text w /.
Arguments datetime_now w /.
Arguments time_time w /.
Arguments send_response ctx title message log_to_channel w /.
Arguments send_error ctx message log_to_channel w /.
Arguments send_success ctx message log_to_channel w /.
Arguments fetch_guild w /.
Arguments fetch_channel id w /.
Arguments fetch_member member_id w /.
Arguments member_roles member w /.
Arguments edit_roles member f w /.
Arguments remove_roles member roles w /.
Arguments add_roles member roles w /.
Arguments fetch_role role_id w /.

Lemma all_roles_true (roles : PenitentiaryRoles) : all_roles roles = true.
Proof.
  unfold all_roles. generalize (omap (λ role : option Z, role)
    [role_incarcerated roles; role_electoral roles; role_approved roles;
     role_temporary roles]).
  intros l. now induction l.
Qed.

(** One step of symbolic execution: unfold the coroutine combinators and
    the collaborators, and read fields through the updates. *)
Ltac run :=
  cbn [bind ret raise gets modify try_except try_finally when logger datetime_now
       time_time send_response send_error send_success fetch_guild fetch_channel
       fetch_member member_roles edit_roles remove_roles add_roles fetch_role
       set_approval_counts set_processed_thread_ids set_member_role_locks
       set_incarcerated_members set_members set_incarcerated_members_json
       add_release_task set_clock add_log add_sent
       approval_counts processed_thread_ids member_role_locks incarcerated_members
       remote storage_ok incarcerated_members_json release_tasks clock log outbox
       guild_reachable channels guild_roles members fetch_fails edit_fails
       approval_count rejection_count reviewers last_approval_time
       locked last_used release_time original_roles
       electoral approved role_incarcerated role_electoral role_approved role_temporary
       author_id author_roles channel_id
       fst snd default from_option Datatypes.id andb negb Nat.eqb].

Ltac use_hyps :=
  match goal with
  | H : ?m !! ?k = _ |- context [?m !! ?k] => rewrite H
  | |- context [<[?k := _]> _ !! ?k] => rewrite lookup_insert_eq
  | H : ?P |- context [bool_decide ?P] => rewrite (bool_decide_true P H)
  | H : ¬ ?P |- context [bool_decide ?P] => rewrite (bool_decide_false P H)
  | H : ?x = true |- context [?x] => rewrite H
  | H : ?x = false |- context [?x] => rewrite H
  | |- context [all_roles ?roles] => rewrite (all_roles_true roles)
  | |- context [bool_decide ?P] =>
      first [ rewrite (bool_decide_true P) by set_solver
            | rewrite (bool_decide_false P) by set_solver ]
  end.

Ltac exec := repeat first [progress run | use_hyps].

(** *** Worlds *)

Lemma set_members_ext (f g : gmap Z (gset Z) → gmap Z (gset Z)) (w : World) :
  f (members (remote w)) = g (members (remote w)) → set_members f w = set_members g w.
Proof. intros H. unfold set_members. now rewrite H. Qed.

Lemma set_members_id (f : gmap Z (gset Z) → gmap Z (gset Z)) (w : World) :
  f (members (remote w)) = members (remote w) → set_members f w = w.
Proof. intros H. unfold set_members. rewrite H. now destruct w as [? ? ? ? [] ? ? ? ? ? ?]. Qed.

Lemma set_members_twice (f g : gmap Z (gset Z) → gmap Z (gset Z)) (w : World) :
  set_members g (set_members f w) = set_members (λ m, g (f m)) w.
Proof. reflexivity. Qed.

(** *** Frames: what a coroutine leaves alone *)

Section Safe.
Context (R : relation World) `{!PreOrder R}.

Lemma safe_ret {A} (a : A) : safe R (ret a).
Proof. intros w. split; [reflexivity|discriminate]. Qed.

Lemma safe_raise {A} (e : exn) : safe R (@raise A e).
Proof. intros w. split; [reflexivity|discriminate]. Qed.

Lemma safe_gets {A} (f : World → A) : safe R (gets f).
Proof. intros w. split; [reflexivity|discriminate]. Qed.

Lemma safe_modify (f : World → World) : (∀ w, R w (f w)) → safe R (modify f).
Proof. intros H w. split; [apply H|discriminate]. Qed.

Lemma safe_bind {A B} (m : M A) (k : A → M B) :
  safe R m → (∀ a, safe R (k a)) → safe R (bind m k).
Proof.
  intros Hm Hk w. specialize (Hm w). unfold bind.
  destruct (m w) as [[a|e|] w']; cbn [fst snd] in *.
  - destruct (Hk a w') as [H1 H2]. split; [|exact H2]. now transitivity w'.
  - split; [tauto|discriminate].
  - tauto.
Qed.

Lemma safe_try_except {A} (body : M A) (handler : exn → M A) :
  safe R body → (∀ e, safe R (handler e)) → safe R (try_except body handler).
Proof.
  intros Hb Hh w. specialize (Hb w). unfold try_except.
  destruct (body w) as [[a|e|] w']; cbn [fst snd] in *.
  - split; [tauto|discriminate].
  - destruct (Hh e w') as [H1 H2]. split; [|exact H2]. now transitivity w'.
  - tauto.
Qed.

Lemma safe_try_finally {A} (body : M A) (final : M unit) :
  safe R body → safe R final → safe R (try_finally body final).
Proof.
  intros Hb Hf w. specialize (Hb w). unfold try_finally.
  destruct (body w) as [[a|e|] w']; cbn [fst snd] in *; [| |tauto].
  all: specialize (Hf w'); destruct (final w') as [[[]|e'|] w'']; cbn [fst snd] in *.
  all: split; [transitivity w'; tauto | first [discriminate | tauto]].
Qed.

Lemma safe_when (b : bool) (m : M unit) : safe R m → safe R (when b m).
Proof. destruct b; [easy|]. intros ?. apply safe_ret. Qed.

End Safe.

Section Framed.
Context (R : relation World) `{!Frame R}.

Local Instance Frame_PreOrder : PreOrder R := frame_preorder.

Lemma safe_add_sent (s : Sent) : safe R (modify (add_sent s)).
Proof. apply safe_modify; first [apply _ | intros w; apply frame_sent]. Qed.

Lemma safe_logger (level : Level) (text : Text) : safe R (logger level text).
Proof. apply safe_modify; first [apply _ | intros w; apply frame_log]. Qed.

Lemma safe_fetch_guild : safe R fetch_guild.
Proof.
  intros w. unfold fetch_guild.
  destruct (guild_reachable _); (split; [reflexivity|discriminate]).
Qed.

Lemma safe_fetch_member (member_id : Z) : safe R (fetch_member member_id).
Proof.
  intros w. unfold fetch_member.
  destruct (bool_decide _); [|destruct (_ !! _)]; (split; [reflexivity|discriminate]).
Qed.

Lemma safe_edit_roles (member : Z) (f : gset Z → gset Z) : safe R (edit_roles member f).
Proof.
  intros w. unfold edit_roles.
  destruct (bool_decide _); [|destruct (_ !! _)]; cbn [fst snd];
    (split; [first [apply frame_members | reflexivity]|discriminate]).
Qed.

End Framed.

Global Instance Frame_True : Frame (λ _ _, True).
Proof. split; [split|..]; done. Qed.

(** Frame proofs follow the shape of the code. *)
Ltac safe_step :=
  lazymatch goal with
  | |- PreOrder _ => apply _
  | |- Frame _ => apply _
  | |- safe _ (bind _ _) => apply safe_bind
  | |- ∀ _, safe _ _ => intros ?
  | |- safe _ (ret _) => apply safe_ret
  | |- safe _ (raise _) => apply safe_raise
  | |- safe _ (gets _) => apply safe_gets
  | |- safe _ datetime_now => apply safe_gets
  | |- safe _ time_time => apply safe_gets
  | |- safe _ (fetch_channel _) => apply safe_gets
  | |- safe _ (fetch_role _) => apply safe_gets
  | |- safe _ (member_roles _) => apply safe_gets
  | |- safe _ (when _ _) => apply safe_when
  | |- safe _ (try_except _ _) => apply safe_try_except
  | |- safe _ (try_finally _ _) => apply safe_try_finally
  | |- safe _ (modify (add_sent _)) => apply safe_add_sent
  | |- safe _ (logger _ _) => apply safe_logger
  | |- safe _ fetch_guild => apply safe_fetch_guild
  | |- safe _ (fetch_member _) => apply safe_fetch_member
  | |- safe _ (edit_roles _ _) => apply safe_edit_roles
  | |- safe _ (remove_roles _ _) => apply safe_edit_roles
  | |- safe _ (add_roles _ _) => apply safe_edit_roles
  | |- safe _ (if ?b then _ else _) => destruct b
  | |- safe _ (match ?x with _ => _ end) => destruct x
  end.

Ltac safe_auto := repeat safe_step.

Section Framed_operations.
Context (R : relation World) `{!Frame R}.

Lemma safe_send_response ctx title message log_to_channel :
  safe R (send_response ctx title message log_to_channel).
Proof. unfold send_response. safe_auto. Qed.

Lemma safe_execute_role_updates (target : Z) (to_add to_remove : option Z) :
  safe R (execute_role_updates target to_add to_remove).
Proof. unfold execute_role_updates. safe_auto. Qed.

Lemma safe_verify_roles (member : Z) : safe R (verify_roles member).
Proof. unfold verify_roles. safe_auto. Qed.

Lemma safe_verify_attempts (remaining : nat) (member add remove : Z) :
  safe R (verify_attempts remaining member add remove).
Proof.
  induction remaining as [|n IH]; cbn [verify_attempts]; safe_auto;
    first [exact IH | apply safe_verify_roles | apply safe_execute_role_updates].
Qed.

Lemma safe_update_member_roles (member add remove : Z) (current_roles : gset Z) :
  safe R (update_member_roles member add remove current_roles).
Proof.
  unfold update_member_roles. safe_auto;
    first [apply safe_verify_attempts | apply safe_execute_role_updates].
Qed.

End Framed_operations.

(** [update_member_roles] always comes back with a verdict. *)
Lemma update_member_roles_returns (member add remove : Z) (current_roles : gset Z) (w : World) :
  ∃ b, (update_member_roles member add remove current_roles w).1 = Ret b.
Proof.
  unfold update_member_roles, try_except.
  match goal with |- context [bind ?m ?k w] =>
    assert (Hb : safe (λ _ _ : World, True) (bind m k)) end.
  { safe_auto; first [apply safe_verify_attempts | apply safe_execute_role_updates]; apply _. }
  specialize (Hb w).
  match goal with |- context [bind ?m ?k w] => destruct (bind m k w) as [[b|e|] w'] end.
  - now exists b.
  - now exists false.
  - cbn in Hb. tauto.
Qed.

Lemma update_member_roles_ok (member add remove : Z) (held : gset Z) (w : World) :
  members (remote w) !! member = Some held →
  member ∉ fetch_fails (remote w) →
  member ∉ edit_fails (remote w) →
  add ≠ remove →
  update_member_roles member add remove held w
  = (Ret true, set_members (<[member := held ∖ {[remove]} ∪ {[add]}]>) w).
Proof.
  intros Hm Hff Hef Hne.
  unfold update_member_roles, execute_role_updates, verify_attempts, verify_roles, MAX_RETRIES.
  destruct (decide (remove ∈ held)) as [Hr|Hr], (decide (add ∈ held)) as [Ha|Ha].
  all: exec.
  all: f_equal.
  - apply set_members_ext. f_equal. set_solver.
  - rewrite set_members_twice. apply set_members_ext. now rewrite insert_insert_eq.
  - symmetry. apply set_members_id. rewrite insert_id; [done|].
    rewrite Hm. f_equal. set_solver.
  - apply set_members_ext. f_equal. set_solver.
Qed.

Section Handlers.
Variable cfg : Config.
Local Abbreviation stamped_record := (Engine.stamped_record cfg).
Local Abbreviation approved_world := (Engine.approved_world cfg).
Local Abbreviation approval_vote_record := (Engine.approval_vote_record cfg).
Local Abbreviation rejection_vote_record := (Engine.rejection_vote_record cfg).

(** *** [process_approval] *)

Lemma process_approval_already ctx member e a roles rec thread w :
  e ∈ roles →
  process_approval cfg ctx member e a roles rec thread w
  = (Ret Approval_aborted_Already_approved,
     add_sent (To (Interaction ctx) Error_title (Already_has_electoral_role member)) w).
Proof. intros He. unfold process_approval. exec. reflexivity. Qed.

Lemma process_approval_quorum ctx member e a held rec thread w :
  e ∉ held →
  REQUIRED_APPROVALS cfg ≤ approval_count rec + 1 →
  members (remote w) !! member = Some held →
  member ∉ fetch_fails (remote w) →
  member ∉ edit_fails (remote w) →
  e ≠ a →
  process_approval cfg ctx member e a held rec thread w
  = (Ret Approved_with_role_updates, approved_world ctx member e a held rec thread w).
Proof.
  intros He Hq Hm Hff Hef Hne. unfold process_approval. exec.
  rewrite Z.min_r by lia. rewrite Z.eqb_refl.
  unfold cleanup_approval_data, send_approval_notification.
  exec.
  erewrite update_member_roles_ok; [| run; eassumption ..].
  exec. reflexivity.
Qed.

Lemma process_approval_registered ctx member e a roles rec thread w :
  e ∉ roles →
  approval_count rec + 1 < REQUIRED_APPROVALS cfg →
  process_approval cfg ctx member e a roles rec thread w
  = (Ret Approval_registered_result,
     add_sent (To (Interaction ctx) Success_title
                 (Approval_registered member (approval_count rec + 1)
                    (REQUIRED_APPROVALS cfg - (approval_count rec + 1))))
       (set_approval_counts
          (<[thread := mk_Approval (approval_count rec + 1) 0
                         (reviewers rec ∪ {[author_id ctx]}) (last_approval_time rec)]>) w)).
Proof.
  intros He Hq. unfold process_approval. exec.
  rewrite Z.min_l by lia.
  destruct (Z.eqb_spec (approval_count rec + 1) (REQUIRED_APPROVALS cfg)); [lia|].
  exec. reflexivity.
Qed.

(** *** [process_rejection] *)

Lemma process_rejection_not_approved ctx member e a roles rec thread w :
  e ∉ roles →
  process_rejection cfg ctx member e a roles rec thread w
  = (Ret Rejection_aborted_Not_approved,
     add_sent (To (Interaction ctx) Error_title (Not_yet_approved member)) w).
Proof. intros He. unfold process_rejection. exec. reflexivity. Qed.

Lemma process_rejection_window_closed ctx member e a roles rec thread w stamped :
  e ∈ roles →
  last_approval_time rec = Some stamped →
  REJECTION_WINDOW_DAYS cfg * 86400 * 1000000 < clock w - stamped →
  process_rejection cfg ctx member e a roles rec thread w
  = (Ret Rejection_aborted_Window_closed,
     add_sent (To (Interaction ctx) Error_title (Rejection_window_expired member)) w).
Proof.
  intros He Hs Hlate. unfold process_rejection, is_rejection_window_closed.
  rewrite Hs. exec.
  rewrite (proj2 (Z.ltb_lt _ _) Hlate). exec. reflexivity.
Qed.

(** *** What a vote can do to the ledger *)

Global Instance same_ledger_Frame : Frame same_ledger.
Proof.
  split; [split|..]; unfold same_ledger.
  - now intros w.
  - intros w1 w2 w3 H1 H2. now rewrite H2.
  - reflexivity.
  - reflexivity.
  - reflexivity.
Qed.

Lemma process_approval_ledger ctx member e a roles rec thread w :
  ((process_approval cfg ctx member e a roles rec thread w).1
     = Ret Approval_aborted_Already_approved
   ∧ approval_counts (process_approval cfg ctx member e a roles rec thread w).2
     = approval_counts w)
  ∨ ((process_approval cfg ctx member e a roles rec thread w).1
       = Ret Approval_registered_result
     ∧ approval_counts (process_approval cfg ctx member e a roles rec thread w).2
       = <[thread := approval_vote_record ctx rec]> (approval_counts w))
  ∨ ((process_approval cfg ctx member e a roles rec thread w).1
       = Ret Approved_with_role_updates
     ∧ approval_counts (process_approval cfg ctx member e a roles rec thread w).2
       = delete thread (approval_counts w)).
Proof.
  unfold process_approval.
  destruct (decide (e ∈ roles)) as [He|He]; exec; [now left|].
  destruct (Z.eqb_spec (Z.min (approval_count rec + 1) (REQUIRED_APPROVALS cfg))
              (REQUIRED_APPROVALS cfg)) as [Heq|Hne].
  - unfold cleanup_approval_data, send_approval_notification. exec.
    match goal with |- context [update_member_roles ?m ?x ?y ?c ?w0] =>
      destruct (update_member_roles_returns m x y c w0) as [b Hb];
      destruct (safe_update_member_roles same_ledger m x y c w0) as [Hl _];
      destruct (update_member_roles m x y c w0) as [o w1] end.
    cbn [fst snd] in Hb, Hl. subst o. exec.
    right; right. split; [reflexivity|].
    rewrite Hl. run. now rewrite !delete_insert_eq.
  - exec. right; left. split; reflexivity.
Qed.

Lemma process_rejection_ledger ctx member e a roles rec thread w :
  ((process_rejection cfg ctx member e a roles rec thread w).1
     = Ret Rejection_aborted_Not_approved
   ∧ approval_counts (process_rejection cfg ctx member e a roles rec thread w).2
     = approval_counts w)
  ∨ ((process_rejection cfg ctx member e a roles rec thread w).1
       = Ret Rejection_aborted_Window_closed
     ∧ approval_counts (process_rejection cfg ctx member e a roles rec thread w).2
       = approval_counts w
     ∧ ∃ stamped, last_approval_time rec = Some stamped
                  ∧ REJECTION_WINDOW_DAYS cfg * 86400 * 1000000 < clock w - stamped)
  ∨ ((process_rejection cfg ctx member e a roles rec thread w).1
       = Ret Rejection_registered_result
     ∧ approval_counts (process_rejection cfg ctx member e a roles rec thread w).2
       = <[thread := rejection_vote_record ctx rec]> (approval_counts w))
  ∨ ((process_rejection cfg ctx member e a roles rec thread w).1
       = Ret Rejected_with_role_updates
     ∧ approval_counts (process_rejection cfg ctx member e a roles rec thread w).2
       = delete thread (approval_counts w)).
Proof.
  unfold process_rejection, is_rejection_window_closed.
  destruct (decide (e ∈ roles)) as [He|He]; exec; [|now left].
  destruct (last_approval_time rec) as [stamped|] eqn:Hstamp; exec.
  1: destruct (Z.ltb_spec (REJECTION_WINDOW_DAYS cfg * 86400 * 1000000) (clock w - stamped));
       exec.
  1: { right; left. repeat split. eauto. }
  all: rewrite <- ?Hstamp.
  all: destruct (Z.eqb_spec (Z.min (rejection_count rec + 1) (REQUIRED_REJECTIONS cfg))
              (REQUIRED_REJECTIONS cfg)) as [Heq|Hne].
  all: unfold cleanup_approval_data, send_rejection_notification; exec.
  all: try (right; right; left; split; reflexivity).
  all: match goal with |- context [update_member_roles ?m ?x ?y ?c ?w0] =>
      destruct (update_member_roles_returns m x y c w0) as [b Hb];
      destruct (safe_update_member_roles same_ledger m x y c w0) as [Hl _];
      destruct (update_member_roles m x y c w0) as [o w1] end.
  all: cbn [fst snd] in Hb, Hl; subst o; exec.
  all: right; right; right; split; [reflexivity|].
  all: rewrite Hl; run; now rewrite !delete_insert_eq.
Qed.

End Handlers.
Section Votes.
Variable cfg : Config.
Local Abbreviation handler_for := (Engine.handler_for cfg).

Lemma lock_free_default (w : World) (member : Z) (t : Z) :
  lock_free w member →
  locked (default (mk_LockInfo false t) (member_role_locks w !! member)) = false.
Proof.
  intros H. destruct (member_role_locks w !! member) as [info|] eqn:Hi; [|reflexivity].
  exact (H info Hi).
Qed.

Lemma vote_runs_handler ctx status w owner held :
  validate_vetting_permissions cfg ctx = true →
  channels (remote w) !! channel_id ctx = Some (GuildPublicThread owner) →
  guild_reachable (remote w) = true →
  owner ∉ fetch_fails (remote w) →
  members (remote w) !! owner = Some held →
  lock_free w owner →
  ELECTORAL_ROLE_ID cfg ∈ guild_roles (remote w) →
  APPROVED_ROLE_ID cfg ∈ guild_roles (remote w) →
  author_id ctx ∉ reviewers (default Approval_default (approval_counts w !! channel_id ctx)) →
  process_approval_status_change cfg ctx status w =
  match
    handler_for status ctx owner (ELECTORAL_ROLE_ID cfg) (APPROVED_ROLE_ID cfg) held
      (default Approval_default (approval_counts w !! channel_id ctx)) (channel_id ctx)
      (vote_enter owner w)
  with
  | (Ret r, w2) => (Ret (Some r), vote_exit owner (channel_id ctx) w2)
  | (Raise e, w2) =>
      (Ret None,
       vote_exit owner (channel_id ctx)
         (add_sent (To (Interaction ctx) Error_title Processing_error_occurred)
            (add_log (ERROR, Status_change_failed e) w2)))
  | (Wait, w2) => (Wait, w2)
  end.
Proof.
  intros Hperm Hch Hg Hff Hm Hlock He Ha Hfresh.
  unfold process_approval_status_change, validate_context, member_lock, fetch_required_roles,
    get_thread_approvals, validate_reviewer, update_review_components, get_thread_approvals.
  exec.
  rewrite (lock_free_default w owner (clock w) Hlock).
  rewrite bool_decide_false by (cbn; congruence).
  unfold handler_for, vote_enter, vote_exit.
  destruct status; cbn [handler_of]; exec.
  - destruct (process_approval cfg ctx owner _ _ held _ _ _)
      as [[r|e'|] w2]; exec; reflexivity.
  - destruct (process_rejection cfg ctx owner _ _ held _ _ _)
      as [[r|e'|] w2]; exec; reflexivity.
Qed.

(** Every way a vote can end, as seen in the ledger. *)
Lemma vote_cases ctx status w :
  (approval_counts (process_approval_status_change cfg ctx status w).2 = approval_counts w
   ∧ ((process_approval_status_change cfg ctx status w).1
        = Ret (Some Rejection_aborted_Window_closed)
      → ∃ stamped,
          last_approval_time
            (default Approval_default (approval_counts w !! channel_id ctx)) = Some stamped
          ∧ REJECTION_WINDOW_DAYS cfg * 86400 * 1000000 < clock w - stamped))
  ∨ ((author_id ctx
        ∉ reviewers (default Approval_default (approval_counts w !! channel_id ctx)))
     ∧ (process_approval_status_change cfg ctx status w).1
         ≠ Ret (Some Rejection_aborted_Window_closed)
     ∧ (approval_counts (process_approval_status_change cfg ctx status w).2
          = <[channel_id ctx :=
                approval_vote_record cfg ctx
                  (default Approval_default (approval_counts w !! channel_id ctx))]>
              (approval_counts w)
        ∨ approval_counts (process_approval_status_change cfg ctx status w).2
          = <[channel_id ctx :=
                rejection_vote_record cfg ctx
                  (default Approval_default (approval_counts w !! channel_id ctx))]>
              (approval_counts w)
        ∨ approval_counts (process_approval_status_change cfg ctx status w).2
          = delete (channel_id ctx) (approval_counts w))).
Proof.
  destruct (validate_vetting_permissions cfg ctx) eqn:Hperm;
    [|left; unfold process_approval_status_change, validate_context; exec;
      split; [reflexivity|discriminate]].
  destruct (channels (remote w) !! channel_id ctx) as [channel|] eqn:Hch;
    [|left; unfold process_approval_status_change, validate_context; exec;
      split; [reflexivity|discriminate]].
  destruct channel as [owner| |];
    [|left; unfold process_approval_status_change, validate_context; exec;
      split; [reflexivity|discriminate]..].
  destruct (guild_reachable (remote w)) eqn:Hg;
    [|left; unfold process_approval_status_change, validate_context, fetch_guild; exec;
      split; [reflexivity|discriminate]].
  destruct (decide (owner ∈ fetch_fails (remote w))) as [Hff|Hff];
    [left; unfold process_approval_status_change, validate_context; exec;
      split; [reflexivity|discriminate]|].
  destruct (members (remote w) !! owner) as [held|] eqn:Hm;
    [|left; unfold process_approval_status_change, validate_context; exec;
      split; [reflexivity|discriminate]].
  destruct (member_role_locks w !! owner) as [[[] used]|] eqn:Hlock.
  { left. unfold process_approval_status_change, validate_context, member_lock. exec.
    split; [reflexivity|discriminate]. }
  all: assert (Hfree : lock_free w owner)
         by (intros info Hi; rewrite Hlock in Hi; by simplify_eq).
  all: clear Hlock.
  all: destruct (decide (ELECTORAL_ROLE_ID cfg ∈ guild_roles (remote w))) as [He|He].
  all: destruct (decide (APPROVED_ROLE_ID cfg ∈ guild_roles (remote w))) as [Ha|Ha].
  all: destruct (decide (author_id ctx ∈ reviewers
                   (default Approval_default (approval_counts w !! channel_id ctx))))
         as [Hdup|Hfresh].
  all: try (left;
            unfold process_approval_status_change, validate_context, member_lock,
              fetch_required_roles, get_thread_approvals, validate_reviewer,
              update_review_components, get_thread_approvals;
            exec; rewrite (lock_free_default w owner (clock w) Hfree);
            rewrite bool_decide_false by (cbn; congruence); exec;
            split; [reflexivity|discriminate]).
  all: rewrite (vote_runs_handler ctx status w owner held) by assumption.
  all: destruct status; unfold handler_for.
  all: match goal with
       | |- context [process_approval cfg ?c ?m ?e ?a ?r ?rec ?t ?w0] =>
           pose proof (process_approval_ledger cfg c m e a r rec t w0) as Hl;
           destruct (process_approval cfg c m e a r rec t w0) as [[res|exc|] w2]
       | |- context [process_rejection cfg ?c ?m ?e ?a ?r ?rec ?t ?w0] =>
           pose proof (process_rejection_ledger cfg c m e a r rec t w0) as Hl;
           destruct (process_rejection cfg c m e a r rec t w0) as [[res|exc|] w2]
       end.
  all: cbn [fst snd] in *.
  all: unfold vote_exit, vote_enter in *; run.
  all: cbn [approval_counts set_member_role_locks clock] in Hl.
  all: clear Hperm Hch Hg Hff Hm Hfree He Ha.
  all: naive_solver congruence.
Qed.

End Votes.
Section Claims_vetting.
Variable cfg : Config.
Local Abbreviation vote := (Engine.vote cfg).
Local Abbreviation ledger_ok := (Engine.ledger_ok cfg).
Local Abbreviation step := (Engine.step cfg).

Lemma error_handler_run {A} (ctx : Context) (body : M A) (w : World) :
  error_handler ctx body w =
  match body w with
  | (Raise e, w') =>
      (Raise e,
       add_sent (To (Interaction ctx) Error_title (Error_in_command e))
         (add_log (ERROR, Error_in_command e) w'))
  | r => r
  end.
Proof. unfold error_handler. exec. destruct (body w) as [[a|e|] w']; reflexivity. Qed.

Lemma error_handler_ledger {A} (ctx : Context) (body : M A) (w : World) :
  approval_counts (error_handler ctx body w).2 = approval_counts (body w).2
  ∧ ∀ a, (error_handler ctx body w).1 = Ret a ↔ (body w).1 = Ret a.
Proof.
  rewrite error_handler_run. destruct (body w) as [[a|e|] w']; cbn; split; try done.
Qed.

Lemma vote_ledger ctx status w :
  approval_counts (vote ctx status w).2
  = approval_counts (process_approval_status_change cfg ctx status w).2
  ∧ ∀ a, (vote ctx status w).1 = Ret a
         ↔ (process_approval_status_change cfg ctx status w).1 = Ret a.
Proof. destruct status; apply error_handler_ledger. Qed.

Lemma step_ledger_ok w w' :
  0 ≤ REQUIRED_APPROVALS cfg → 0 ≤ REQUIRED_REJECTIONS cfg →
  step w w' → ledger_ok w → ledger_ok w'.
Proof.
  intros HA HR Hstep Hok.
  destruct Hstep as [ctx status w|w w' Heq]; [|unfold ledger_ok; now rewrite Heq].
  unfold ledger_ok in *.
  destruct (vote_ledger ctx status w) as [-> _].
  assert (Hrec : approval_count (default Approval_default (approval_counts w !! channel_id ctx))
                   ≤ REQUIRED_APPROVALS cfg
                 ∧ rejection_count (default Approval_default (approval_counts w !! channel_id ctx))
                   ≤ REQUIRED_REJECTIONS cfg).
  { destruct (approval_counts w !! channel_id ctx) as [rec|] eqn:Hrec; [cbn; eauto|].
    cbn. lia. }
  destruct (vote_cases cfg ctx status w) as [[-> _]|(_ & _ & [->| [->| ->]])]; [exact Hok|..].
  - intros t r Hr. destruct (decide (t = channel_id ctx)) as [->|Hne].
    + rewrite lookup_insert_eq in Hr. injection Hr as <-. cbn. lia.
    + rewrite lookup_insert_ne in Hr by done. exact (Hok _ _ Hr).
  - intros t r Hr. destruct (decide (t = channel_id ctx)) as [->|Hne].
    + rewrite lookup_insert_eq in Hr. injection Hr as <-. cbn. lia.
    + rewrite lookup_insert_ne in Hr by done. exact (Hok _ _ Hr).
  - intros t r Hr. apply lookup_delete_Some in Hr as [_ Hr]. exact (Hok _ _ Hr).
Qed.

Lemma step_no_stamp thread w w' :
  step w w' → no_stamp_at thread w → no_stamp_at thread w'.
Proof.
  intros Hstep Hok.
  destruct Hstep as [ctx status w|w w' Heq]; [|unfold no_stamp_at; now rewrite Heq].
  unfold no_stamp_at in *.
  destruct (vote_ledger ctx status w) as [-> _].
  assert (Hrec : thread = channel_id ctx →
            last_approval_time (default Approval_default (approval_counts w !! channel_id ctx))
            = None).
  { intros ->. destruct (approval_counts w !! channel_id ctx) as [rec|] eqn:Hrec;
      [cbn; eauto|reflexivity]. }
  destruct (vote_cases cfg ctx status w) as [[-> _]|(_ & _ & [->| [->| ->]])]; [exact Hok|..].
  - intros r Hr. destruct (decide (thread = channel_id ctx)) as [Heq|Hne].
    + rewrite Heq, lookup_insert_eq in Hr. injection Hr as <-. cbn. auto.
    + rewrite lookup_insert_ne in Hr by done. exact (Hok _ Hr).
  - intros r Hr. destruct (decide (thread = channel_id ctx)) as [Heq|Hne].
    + rewrite Heq, lookup_insert_eq in Hr. injection Hr as <-. cbn. auto.
    + rewrite lookup_insert_ne in Hr by done. exact (Hok _ Hr).
  - intros r Hr. apply lookup_delete_Some in Hr as [_ Hr]. exact (Hok _ Hr).
Qed.

End Claims_vetting.
End EngineFacts.

Module EngineClaims.
Import Engine EngineFacts.
Local Open Scope Z_scope.

Section Claims.
Variable cfg : Config.

Lemma vote_duplicate ctx status w owner held :
  validate_vetting_permissions cfg ctx = true →
  channels (remote w) !! channel_id ctx = Some (GuildPublicThread owner) →
  guild_reachable (remote w) = true →
  owner ∉ fetch_fails (remote w) →
  members (remote w) !! owner = Some held →
  lock_free w owner →
  ELECTORAL_ROLE_ID cfg ∈ guild_roles (remote w) →
  APPROVED_ROLE_ID cfg ∈ guild_roles (remote w) →
  author_id ctx ∈ reviewers (default Approval_default (approval_counts w !! channel_id ctx)) →
  vote cfg ctx status w
  = (Ret None,
     vote_exit owner (channel_id ctx)
       (add_sent (To (Interaction ctx) Error_title Duplicate_vote_detected)
          (vote_enter owner w))).
Proof.
  intros Hperm Hch Hg Hff Hm Hlock He Ha Hdup.
  assert (H : process_approval_status_change cfg ctx status w
              = (Ret None,
                 vote_exit owner (channel_id ctx)
                   (add_sent (To (Interaction ctx) Error_title Duplicate_vote_detected)
                      (vote_enter owner w)))).
  { unfold process_approval_status_change, validate_context, member_lock, fetch_required_roles,
      get_thread_approvals, validate_reviewer, update_review_components, get_thread_approvals.
    exec.
    rewrite (lock_free_default w owner (clock w) Hlock).
    rewrite bool_decide_false by (cbn; congruence).
    exec. reflexivity. }
  destruct status; unfold vote, on_approve_member, on_reject_member;
    rewrite error_handler_run, H; reflexivity.
Qed.

(** C7: from an empty ledger, whatever votes are cast and whatever else
    happens in between, no record counts more approvals than
    REQUIRED_APPROVALS or more rejections than REQUIRED_REJECTIONS; a vote by
    somebody who is in the reviewers of the thread leaves the whole ledger
    as it is, [validate_reviewer] answers it with the duplicate-vote error,
    and a vote that gets as far as that check ends there. *)
Theorem votes_keep_the_ledger_bounded :
  0 ≤ REQUIRED_APPROVALS cfg → 0 ≤ REQUIRED_REJECTIONS cfg →
  (∀ w w', approval_counts w = ∅ → rtc (step cfg) w w' → ledger_ok cfg w')
  ∧ (∀ ctx status w,
       author_id ctx
         ∈ reviewers (default Approval_default (approval_counts w !! channel_id ctx)) →
       approval_counts (vote cfg ctx status w).2 = approval_counts w)
  ∧ (∀ ctx thread_approvals w,
       author_id ctx ∈ reviewers thread_approvals →
       validate_reviewer ctx thread_approvals w
       = (Ret false,
          add_sent (To (Interaction ctx) Error_title Duplicate_vote_detected) w))
  ∧ (∀ ctx status w owner held,
       validate_vetting_permissions cfg ctx = true →
       channels (remote w) !! channel_id ctx = Some (GuildPublicThread owner) →
       guild_reachable (remote w) = true →
       owner ∉ fetch_fails (remote w) →
       members (remote w) !! owner = Some held →
       lock_free w owner →
       ELECTORAL_ROLE_ID cfg ∈ guild_roles (remote w) →
       APPROVED_ROLE_ID cfg ∈ guild_roles (remote w) →
       author_id ctx
         ∈ reviewers (default Approval_default (approval_counts w !! channel_id ctx)) →
       (vote cfg ctx status w).1 = Ret None
       ∧ To (Interaction ctx) Error_title Duplicate_vote_detected
           ∈ outbox (vote cfg ctx status w).2).
Proof.
  intros HA HR. split; [|split; [|split]].
  - intros w w' Hempty Hrtc.
    assert (Hok : ledger_ok cfg w).
    { intros t r. rewrite Hempty, lookup_empty. discriminate. }
    clear Hempty. induction Hrtc as [w|w w1 w2 Hstep _ IH]; [exact Hok|].
    apply IH. exact (step_ledger_ok cfg w w1 HA HR Hstep Hok).
  - intros ctx status w Hdup.
    destruct (vote_ledger cfg ctx status w) as [-> _].
    destruct (vote_cases cfg ctx status w) as [[-> _]|(Hfresh & _)]; [reflexivity|].
    contradiction.
  - intros ctx rec w Hdup. unfold validate_reviewer. exec. reflexivity.
  - intros ctx status w owner held Hperm Hch Hg Hff Hm Hlock He Ha Hdup.
    rewrite (vote_duplicate ctx status w owner held) by assumption.
    split; [reflexivity|]. unfold vote_exit. run. set_solver.
Qed.

(** C5, amended: for a record with a stamp, a rejection vote on a member
    who holds the electoral role, cast more than REJECTION_WINDOW_DAYS x
    86400 seconds after the stamp, ends with the window-closed error, sent
    to the reviewer; on a member who does not hold that role the vote is
    turned away one check earlier, with the not-yet-approved error, sent
    to the reviewer; either way nothing is registered: the ledger, and with it the rejection count
    and the rest of the record, stays as it was, and so do the roles. *)
Theorem late_rejection_is_refused ctx member e a roles rec thread w stamped :
  last_approval_time rec = Some stamped →
  REJECTION_WINDOW_DAYS cfg * 86400 * 1000000 < clock w - stamped →
  approval_counts (process_rejection cfg ctx member e a roles rec thread w).2
    = approval_counts w
  ∧ members (remote (process_rejection cfg ctx member e a roles rec thread w).2)
    = members (remote w)
  ∧ ((process_rejection cfg ctx member e a roles rec thread w).1
       = Ret Rejection_aborted_Window_closed
     ∨ (process_rejection cfg ctx member e a roles rec thread w).1
       = Ret Rejection_aborted_Not_approved)
  ∧ (e ∈ roles →
     (process_rejection cfg ctx member e a roles rec thread w).1
       = Ret Rejection_aborted_Window_closed
     ∧ outbox (process_rejection cfg ctx member e a roles rec thread w).2
       = outbox w ++ [To (Interaction ctx) Error_title (Rejection_window_expired member)])
  ∧ (e ∉ roles →
     (process_rejection cfg ctx member e a roles rec thread w).1
       = Ret Rejection_aborted_Not_approved
     ∧ outbox (process_rejection cfg ctx member e a roles rec thread w).2
       = outbox w ++ [To (Interaction ctx) Error_title (Not_yet_approved member)]).
Proof.
  intros Hs Hlate. destruct (decide (e ∈ roles)) as [He|He].
  - rewrite (process_rejection_window_closed cfg ctx member e a roles rec thread w stamped)
      by assumption.
    run. split; [reflexivity|]. split; [reflexivity|]. split; [now left|].
    split; [intros _; split; reflexivity|]. intros He'. contradiction.
  - rewrite (process_rejection_not_approved cfg ctx member e a roles rec thread w) by assumption.
    run. split; [reflexivity|]. split; [reflexivity|]. split; [now right|].
    split; [intros He'; contradiction|]. intros _. split; reflexivity.
Qed.

(** C9: the quorum vote deletes the record of the thread and its stamp
    with it; a vote that comes later reads [Approval()], which carries no
    stamp, and on such a record [is_rejection_window_closed] answers False
    whatever the clock shows; so from the deletion on, whatever votes are
    cast and however much time passes, no rejection vote on the thread ends
    with the window-closed error. *)
Theorem no_window_after_quorum_deletion (thread : Z) :
  (∀ ctx member e a roles rec w,
     (process_approval cfg ctx member e a roles rec thread w).1
       = Ret Approved_with_role_updates →
     approval_counts (process_approval cfg ctx member e a roles rec thread w).2 !! thread
       = None)
  ∧ (∀ w, approval_counts (cleanup_approval_data thread w).2 !! thread = None)
  ∧ (∀ w, approval_counts w !! thread = None →
          get_thread_approvals thread w = (Ret Approval_default, w))
  ∧ last_approval_time Approval_default = None
  ∧ (∀ w, is_rejection_window_closed cfg Approval_default w = (Ret false, w))
  ∧ (∀ w w' ctx,
       approval_counts w !! thread = None →
       rtc (step cfg) w w' →
       channel_id ctx = thread →
       (on_reject_member cfg ctx w').1 ≠ Ret (Some Rejection_aborted_Window_closed)).
Proof.
  split; [|split; [|split; [|split; [|split]]]].
  - intros ctx member e a roles rec w Hres.
    destruct (process_approval_ledger cfg ctx member e a roles rec thread w)
      as [[Hr _]|[[Hr _]|[_ ->]]]; [congruence..|].
    apply lookup_delete_eq.
  - intros w. unfold cleanup_approval_data. run. apply lookup_delete_eq.
  - intros w Hnone. unfold get_thread_approvals. run. now rewrite Hnone.
  - reflexivity.
  - reflexivity.
  - intros w w' ctx Hnone Hrtc Hctx.
    assert (Hok : no_stamp_at thread w).
    { intros r. rewrite Hnone. discriminate. }
    clear Hnone.
    assert (Hok' : no_stamp_at thread w').
    { induction Hrtc as [w|w w1 w2 Hstep _ IH]; [exact Hok|].
      apply IH. exact (step_no_stamp cfg thread w w1 Hstep Hok). }
    clear Hok Hrtc w. intros Hres.
    change (on_reject_member cfg ctx) with (vote cfg ctx REJECTED) in Hres.
    apply (proj2 (vote_ledger cfg ctx REJECTED w')) in Hres.
    destruct (vote_cases cfg ctx REJECTED w') as [[_ Hstamp]|(_ & Hne & _)]; [|contradiction].
    destruct (Hstamp Hres) as (stamped & Hstamped & _).
    rewrite Hctx in Hstamped.
    destruct (approval_counts w' !! thread) as [r|] eqn:Hr; [|discriminate].
    cbn in Hstamped. rewrite (Hok' r) in Hstamped; [discriminate|].
    exact Hr.
Qed.

Lemma sweep_on_exit_free (now : Z) (locks : gmap Z LockInfo) (k : Z) (info : LockInfo) :
  sweep_on_exit now locks !! k = Some info → locked info = false.
Proof.
  unfold sweep_on_exit. intros H. apply map_lookup_filter_Some in H as [_ [H _]]. exact H.
Qed.

Lemma vote_exit_lock_free (member thread k : Z) (w : World) :
  lock_free (vote_exit member thread w) k.
Proof. intros info. unfold vote_exit. run. apply sweep_on_exit_free. Qed.

Lemma lock_free_set_clock (t k : Z) (w : World) :
  lock_free w k → lock_free (set_clock t w) k.
Proof. intros H info Hinfo. exact (H info Hinfo). Qed.

Lemma quorum_vote_runs ctx w owner held :
  validate_vetting_permissions cfg ctx = true →
  channels (remote w) !! channel_id ctx = Some (GuildPublicThread owner) →
  guild_reachable (remote w) = true →
  owner ∉ fetch_fails (remote w) →
  owner ∉ edit_fails (remote w) →
  members (remote w) !! owner = Some held →
  lock_free w owner →
  ELECTORAL_ROLE_ID cfg ∈ guild_roles (remote w) →
  APPROVED_ROLE_ID cfg ∈ guild_roles (remote w) →
  ELECTORAL_ROLE_ID cfg ≠ APPROVED_ROLE_ID cfg →
  ELECTORAL_ROLE_ID cfg ∉ held →
  author_id ctx ∉ reviewers (default Approval_default (approval_counts w !! channel_id ctx)) →
  approval_count (default Approval_default (approval_counts w !! channel_id ctx)) + 1
    = REQUIRED_APPROVALS cfg →
  on_approve_member cfg ctx w
  = (Ret (Some Approved_with_role_updates),
     vote_exit owner (channel_id ctx)
       (approved_world cfg ctx owner (ELECTORAL_ROLE_ID cfg) (APPROVED_ROLE_ID cfg) held
          (default Approval_default (approval_counts w !! channel_id ctx)) (channel_id ctx)
          (vote_enter owner w))).
Proof.
  intros Hperm Hch Hg Hff Hef Hm Hlock He Ha Hne Hnot Hfresh Hcount.
  unfold on_approve_member. rewrite error_handler_run.
  rewrite (vote_runs_handler cfg ctx APPROVED w owner held) by assumption.
  unfold handler_for.
  rewrite process_approval_quorum; [reflexivity|try assumption..].
  lia.
Qed.

Lemma already_approved_vote_runs ctx w owner held :
  validate_vetting_permissions cfg ctx = true →
  channels (remote w) !! channel_id ctx = Some (GuildPublicThread owner) →
  guild_reachable (remote w) = true →
  owner ∉ fetch_fails (remote w) →
  members (remote w) !! owner = Some held →
  lock_free w owner →
  ELECTORAL_ROLE_ID cfg ∈ guild_roles (remote w) →
  APPROVED_ROLE_ID cfg ∈ guild_roles (remote w) →
  ELECTORAL_ROLE_ID cfg ∈ held →
  author_id ctx ∉ reviewers (default Approval_default (approval_counts w !! channel_id ctx)) →
  on_approve_member cfg ctx w
  = (Ret (Some Approval_aborted_Already_approved),
     vote_exit owner (channel_id ctx)
       (add_sent (To (Interaction ctx) Error_title (Already_has_electoral_role owner))
          (vote_enter owner w))).
Proof.
  intros Hperm Hch Hg Hff Hm Hlock He Ha Hin Hfresh.
  unfold on_approve_member. rewrite error_handler_run.
  rewrite (vote_runs_handler cfg ctx APPROVED w owner held) by assumption.
  unfold handler_for. rewrite process_approval_already by assumption. reflexivity.
Qed.

Lemma already_approved_vote_later ctx w owner held later :
  validate_vetting_permissions cfg ctx = true →
  channels (remote w) !! channel_id ctx = Some (GuildPublicThread owner) →
  guild_reachable (remote w) = true →
  owner ∉ fetch_fails (remote w) →
  members (remote w) !! owner = Some held →
  lock_free w owner →
  ELECTORAL_ROLE_ID cfg ∈ guild_roles (remote w) →
  APPROVED_ROLE_ID cfg ∈ guild_roles (remote w) →
  ELECTORAL_ROLE_ID cfg ∈ held →
  approval_counts w !! channel_id ctx = None →
  (on_approve_member cfg ctx (set_clock later w)).1
    = Ret (Some Approval_aborted_Already_approved)
  ∧ members (remote (on_approve_member cfg ctx (set_clock later w)).2) = members (remote w)
  ∧ approval_counts (on_approve_member cfg ctx (set_clock later w)).2 = approval_counts w.
Proof.
  intros Hperm Hch Hg Hff Hm Hlock He Ha Hin Hnone.
  rewrite (already_approved_vote_runs ctx (set_clock later w) owner held).
  - unfold vote_exit, vote_enter. run. repeat split.
  - exact Hperm.
  - exact Hch.
  - exact Hg.
  - exact Hff.
  - exact Hm.
  - now apply lock_free_set_clock.
  - exact He.
  - exact Ha.
  - exact Hin.
  - change (approval_counts (set_clock later w)) with (approval_counts w).
    rewrite Hnone. apply not_elem_of_empty.
Qed.

(** C1, amended: the vote that brings a thread to REQUIRED_APPROVALS
    stamps the record (the approval notice carries it), gives the member
    the electoral role and takes the approved role away, leaving every other
    role, the temporary one included, as it was, and deletes the ledger
    entry; one more approval vote on the thread, at any later time, ends
    with the already-approved answer and changes neither roles nor ledger. *)
Theorem quorum_vote_promotes_once ctx w owner held :
  validate_vetting_permissions cfg ctx = true →
  channels (remote w) !! channel_id ctx = Some (GuildPublicThread owner) →
  guild_reachable (remote w) = true →
  owner ∉ fetch_fails (remote w) →
  owner ∉ edit_fails (remote w) →
  members (remote w) !! owner = Some held →
  lock_free w owner →
  ELECTORAL_ROLE_ID cfg ∈ guild_roles (remote w) →
  APPROVED_ROLE_ID cfg ∈ guild_roles (remote w) →
  ELECTORAL_ROLE_ID cfg ≠ APPROVED_ROLE_ID cfg →
  ELECTORAL_ROLE_ID cfg ∉ held →
  author_id ctx ∉ reviewers (default Approval_default (approval_counts w !! channel_id ctx)) →
  approval_count (default Approval_default (approval_counts w !! channel_id ctx)) + 1
    = REQUIRED_APPROVALS cfg →
  (on_approve_member cfg ctx w).1 = Ret (Some Approved_with_role_updates)
  ∧ (∃ record,
       To (Thread (channel_id ctx)) Success_title (Approved_by owner record)
         ∈ outbox (on_approve_member cfg ctx w).2
       ∧ approval_count record = REQUIRED_APPROVALS cfg
       ∧ last_approval_time record = Some (clock w))
  ∧ members (remote (on_approve_member cfg ctx w).2)
    = <[owner := held ∖ {[APPROVED_ROLE_ID cfg]} ∪ {[ELECTORAL_ROLE_ID cfg]}]>
        (members (remote w))
  ∧ approval_counts (on_approve_member cfg ctx w).2
    = delete (channel_id ctx) (approval_counts w)
  ∧ (∀ ctx' later,
       validate_vetting_permissions cfg ctx' = true →
       channel_id ctx' = channel_id ctx →
       (on_approve_member cfg ctx' (set_clock later (on_approve_member cfg ctx w).2)).1
         = Ret (Some Approval_aborted_Already_approved)
       ∧ members (remote (on_approve_member cfg ctx'
                            (set_clock later (on_approve_member cfg ctx w).2)).2)
         = members (remote (on_approve_member cfg ctx w).2)
       ∧ approval_counts (on_approve_member cfg ctx'
                            (set_clock later (on_approve_member cfg ctx w).2)).2
         = approval_counts (on_approve_member cfg ctx w).2).
Proof.
  intros Hperm Hch Hg Hff Hef Hm Hlock He Ha Hne Hnot Hfresh Hcount.
  rewrite (quorum_vote_runs ctx w owner held) by assumption.
  cbn [fst snd].
  split; [reflexivity|]. split; [|split; [|split]].
  - eexists. split; [|split].
    + unfold vote_exit, approved_world. run.
      apply elem_of_app. left. apply elem_of_app. right. constructor.
    + reflexivity.
    + unfold vote_enter. run. reflexivity.
  - unfold vote_exit, approved_world, vote_enter. run. reflexivity.
  - unfold vote_exit, approved_world, vote_enter. run. now rewrite !delete_insert_eq.
  - intros ctx' later Hperm' Hsame.
    apply (already_approved_vote_later ctx' _ owner
             (held ∖ {[APPROVED_ROLE_ID cfg]} ∪ {[ELECTORAL_ROLE_ID cfg]}) later).
    + exact Hperm'.
    + unfold vote_exit, approved_world, vote_enter. run. now rewrite Hsame.
    + unfold vote_exit, approved_world, vote_enter. run. exact Hg.
    + unfold vote_exit, approved_world, vote_enter. run. exact Hff.
    + unfold vote_exit, approved_world, vote_enter. run. apply lookup_insert_eq.
    + apply vote_exit_lock_free.
    + unfold vote_exit, approved_world, vote_enter. run. exact He.
    + unfold vote_exit, approved_world, vote_enter. run. exact Ha.
    + apply elem_of_union_r, elem_of_singleton. reflexivity.
    + unfold vote_exit, approved_world, vote_enter. run. rewrite Hsame.
      apply lookup_delete_eq.
Qed.

End Claims.
End EngineClaims.

Module PenitentiaryClaims.
Import Engine EngineFacts.
Local Open Scope Z_scope.

Section Claims.
Variable cfg : Config.
Local Abbreviation reconcile := (Engine.reconcile cfg).

Lemma nothing_to_restore (P : Z → Prop) `{!∀ x, Decision (P x)} (guild : gset Z) :
  (∀ x, ¬ P x) → filter P guild = (∅ : gset Z).
Proof.
  intros HP. apply elem_of_equiv_empty_L. intros x Hx.
  apply elem_of_filter in Hx as [Hx _]. exact (HP x Hx).
Qed.

Lemma release_without_record ctx member w held :
  validate_penitentiary_permissions cfg ctx = true →
  guild_reachable (remote w) = true →
  INCARCERATED_ROLE_ID cfg ∈ guild_roles (remote w) →
  ELECTORAL_ROLE_ID cfg ∈ guild_roles (remote w) →
  APPROVED_ROLE_ID cfg ∈ guild_roles (remote w) →
  TEMPORARY_ROLE_ID cfg ∈ guild_roles (remote w) →
  members (remote w) !! member = Some held →
  member ∉ edit_fails (remote w) →
  incarcerated_members w !! member = None →
  release_member cfg ctx member w
  = (Ret tt,
     add_sent (To (Interaction ctx) Error_title (Invalid_penitentiary_action RELEASE))
       (if bool_decide (INCARCERATED_ROLE_ID cfg ∈ held)
        then set_members (<[member := held ∖ {[INCARCERATED_ROLE_ID cfg]}]>) w
        else w)).
Proof.
  intros Hperm Hg Hi He Ha Ht Hm Hef Hnone.
  unfold release_member. rewrite error_handler_run. rewrite Hperm. cbn [negb].
  unfold manage_penitentiary_status, fetch_penitentiary_roles, fetch_penitentiary_role,
    perform_member_release.
  exec.
  change (default [] (original_roles <$> (None : option Incarceration))) with (@nil Z).
  match goal with
  | |- context [bool_decide (?X ≠ ∅)] =>
      replace X with (∅ : gset Z) by (symmetry; apply nothing_to_restore; intros x [Hx _];
            exact (not_elem_of_empty x Hx))
  end.
  rewrite (bool_decide_false ((∅ : gset Z) ≠ ∅)) by (intros H; now apply H).
  destruct (bool_decide (INCARCERATED_ROLE_ID cfg ∈ held)); exec; reflexivity.
Qed.
(** X19: a release of a member who has no incarceration record ends
    without an exception and with one error report to the caller, the one
    of an invalid action, and no success confirmation; the incarceration
    records, in memory and on disk, are as before; no role is added, and no
    role is taken away but the incarcerated role, which the member loses if
    they hold it; nobody else's roles change. *)
Theorem release_without_record_reports ctx member w held :
  validate_penitentiary_permissions cfg ctx = true →
  guild_reachable (remote w) = true →
  INCARCERATED_ROLE_ID cfg ∈ guild_roles (remote w) →
  ELECTORAL_ROLE_ID cfg ∈ guild_roles (remote w) →
  APPROVED_ROLE_ID cfg ∈ guild_roles (remote w) →
  TEMPORARY_ROLE_ID cfg ∈ guild_roles (remote w) →
  members (remote w) !! member = Some held →
  member ∉ edit_fails (remote w) →
  incarcerated_members w !! member = None →
  (release_member cfg ctx member w).1 = Ret tt
  ∧ incarcerated_members (release_member cfg ctx member w).2 = incarcerated_members w
  ∧ incarcerated_members_json (release_member cfg ctx member w).2
    = incarcerated_members_json w
  ∧ members (remote (release_member cfg ctx member w).2) !! member
    = Some (held ∖ {[INCARCERATED_ROLE_ID cfg]})
  ∧ (∀ other, other ≠ member →
       members (remote (release_member cfg ctx member w).2) !! other
       = members (remote w) !! other)
  ∧ outbox (release_member cfg ctx member w).2
    = outbox w ++ [To (Interaction ctx) Error_title (Invalid_penitentiary_action RELEASE)].
Proof.
  intros Hperm Hg Hi He Ha Ht Hm Hef Hnone.
  rewrite (release_without_record ctx member w held) by assumption.
  cbn [fst snd].
  destruct (bool_decide (INCARCERATED_ROLE_ID cfg ∈ held)) eqn:Hin.
  - run. repeat split.
    + apply lookup_insert_eq.
    + intros other Hne. now apply lookup_insert_ne.
  - run. repeat split.
    + rewrite Hm. f_equal. apply bool_decide_eq_false in Hin.
      symmetry. apply difference_disjoint_L. apply disjoint_singleton_r. exact Hin.
Qed.

Lemma release_prisoner_fetch_failure member_id data w :
  guild_reachable (remote w) = false ∨ member_id ∈ fetch_fails (remote w) →
  release_prisoner cfg member_id data w
  = (Ret tt,
     add_log (ERROR, Error_fetching_member member_id RemoteError (release_time data)) w).
Proof.
  intros H. unfold release_prisoner. run.
  destruct (guild_reachable (remote w)) eqn:Hg.
  - destruct H as [H|H]; [discriminate|]. exec. reflexivity.
  - exec. reflexivity.
Qed.

(** The reconciliation with the storage working: [load_data] hands over
    the empty dict and has saved it, so both maps are empty. *)
Lemma check_incarcerated_members_wipes w :
  storage_ok w = true →
  check_incarcerated_members cfg w
  = (Ret tt,
     set_incarcerated_members (λ _, ∅) (set_incarcerated_members_json (λ _, ∅) w)).
Proof.
  intros Hs. unfold check_incarcerated_members, load_incarcerated_members. exec.
  rewrite !map_filter_empty, map_to_list_empty.
  cbn [schedule_all release_all]. run. reflexivity.
Qed.

Lemma release_prisoner_member_gone member_id data w :
  guild_reachable (remote w) = true →
  member_id ∉ fetch_fails (remote w) →
  members (remote w) !! member_id = None →
  storage_ok w = true →
  (release_prisoner cfg member_id data w).1 = Ret tt
  ∧ incarcerated_members_json (release_prisoner cfg member_id data w).2
    = delete member_id (incarcerated_members w).
Proof.
  intros Hg Hff Hm Hs. unfold release_prisoner, save_incarcerated_members. exec.
  split; reflexivity.
Qed.

Lemma reconcile_leaves n :
  ∀ w, storage_ok w = true →
       remote (reconcile n w) = remote w
       ∧ log (reconcile n w) = log w
       ∧ outbox (reconcile n w) = outbox w
       ∧ release_tasks (reconcile n w) = release_tasks w.
Proof.
  induction n as [|n IH]; intros w Hs; [repeat split|].
  cbn [reconcile]. rewrite (check_incarcerated_members_wipes w Hs). cbn [snd].
  match goal with |- context [reconcile n ?w1] =>
    destruct (IH w1) as (H1 & H2 & H3 & H4); [exact Hs|] end.
  rewrite H1, H2, H3, H4. repeat split.
Qed.

End Claims.
End PenitentiaryClaims.

Module LockClaims.
Import Engine EngineFacts.
Local Open Scope Z_scope.

Lemma sweep_on_exit_keeps now locks k info :
  sweep_on_exit now locks !! k = Some info
  ↔ locks !! k = Some info ∧ locked info = false ∧ now - last_used info ≤ hour_us.
Proof. unfold sweep_on_exit. rewrite map_lookup_filter_Some. reflexivity. Qed.

Lemma sweep_on_exit_drops_held now locks k info :
  locks !! k = Some info → locked info = true → sweep_on_exit now locks !! k = None.
Proof.
  intros Hk Hheld. unfold sweep_on_exit. apply map_lookup_filter_None. right.
  intros info' Hk' [Hfree _]. cbn in Hfree. congruence.
Qed.

Lemma cleanup_old_locks_keeps_held w k info :
  member_role_locks w !! k = Some info → locked info = true →
  member_role_locks (cleanup_old_locks w).2 !! k = Some info.
Proof.
  intros Hk Hheld. unfold cleanup_old_locks. run.
  apply map_lookup_filter_Some. split; [exact Hk|].
  cbn. intros [Hfree _]. congruence.
Qed.

Lemma cleanup_old_locks_removes w k info :
  member_role_locks w !! k = Some info →
  member_role_locks (cleanup_old_locks w).2 !! k = None →
  locked info = false ∧ week_us < clock w - last_used info.
Proof.
  intros Hk Hgone. unfold cleanup_old_locks in Hgone. revert Hgone. run. intros Hgone.
  apply map_lookup_filter_None in Hgone as [Hgone|Hgone]; [congruence|].
  specialize (Hgone info Hk). cbn in Hgone.
  destruct (locked info); [exfalso; apply Hgone; intros [? _]; discriminate|].
  split; [reflexivity|].
  destruct (decide (week_us < clock w - last_used info)) as [?|Hn]; [assumption|].
  exfalso. apply Hgone. intros [_ ?]. contradiction.
Qed.

(** A vote on one member, from entry to exit, with the lock of another
    member held all along. *)
Lemma member_lock_evicts_held {A} (member k : Z) (info : LockInfo) (body : M A) (w : World) :
  k ≠ member →
  member_role_locks w !! k = Some info →
  locked info = true →
  lock_free w member →
  (∀ w0, member_role_locks (body w0).2 = member_role_locks w0) →
  (∀ w0, (body w0).1 ≠ Wait) →
  (member_lock member body w).1 ≠ Wait
  ∧ member_role_locks (member_lock member body w).2 !! k = None.
Proof.
  intros Hne Hk Hheld Hfree Hbody Hwait.
  unfold member_lock. exec.
  rewrite (lock_free_default w member (clock w) Hfree).
  rewrite bool_decide_false by (cbn; congruence).
  exec.
  match goal with |- context [body ?w0] =>
    pose proof (Hbody w0) as Hl; pose proof (Hwait w0) as Hw;
    destruct (body w0) as [[a|e|] w1] end;
    cbn [fst snd] in Hl, Hw; [| |contradiction]; revert Hl; run; intros Hl.
  all: split; [discriminate|].
  all: rewrite Hl; apply (sweep_on_exit_drops_held _ _ k info); [|exact Hheld].
  all: rewrite !lookup_alter_ne by congruence; rewrite lookup_insert_ne by congruence;
       exact Hk.
Qed.

End LockClaims.

Module ScenarioFacts.
Import Engine EngineFacts EngineClaims PenitentiaryClaims LockClaims Scenario.
Local Open Scope Z_scope.

Ltac decided := apply (bool_decide_unpack _); vm_compute; exact I.

Lemma lock_free_no_locks (w : World) (member : Z) :
  member_role_locks w = ∅ → lock_free w member.
Proof. intros H info. rewrite H, lookup_empty. discriminate. Qed.

(** C1 as stated fails: member 42 holds the temporary role and nothing
    else, and two approvals are recorded on the thread; the third approval
    ends with the approved result, and the member then holds the temporary
    and the electoral role: the approved role was not added and the
    temporary role was not removed. *)
Lemma quorum_vote_spares_temporary_role :
  approval_counts third_vote_world !! 7 = Some two_approvals
  ∧ approval_count two_approvals + 1 = REQUIRED_APPROVALS Config_default
  ∧ roles_of 42 third_vote_world = {[TEMPORARY_ROLE_ID Config_default]}
  ∧ (on_approve_member Config_default third_reviewer third_vote_world).1
    = Ret (Some Approved_with_role_updates)
  ∧ roles_of 42 (on_approve_member Config_default third_reviewer third_vote_world).2
    = {[TEMPORARY_ROLE_ID Config_default; ELECTORAL_ROLE_ID Config_default]}
  ∧ ¬ (APPROVED_ROLE_ID Config_default
         ∈ roles_of 42 (on_approve_member Config_default third_reviewer third_vote_world).2
       ∧ TEMPORARY_ROLE_ID Config_default
         ∉ roles_of 42 (on_approve_member Config_default third_reviewer third_vote_world).2).
Proof.
  split; [vm_compute; reflexivity|]. split; [reflexivity|].
  split; [vm_compute; reflexivity|]. split; [vm_compute; reflexivity|].
  split; [vm_compute; reflexivity|].
  intros [H _]. apply (bool_decide_pack _) in H. vm_compute in H. exact H.
Qed.

Lemma quorum_vote_promotes_once_witness :
  (validate_vetting_permissions Config_default third_reviewer = true
   ∧ channels (remote third_vote_world) !! channel_id third_reviewer
     = Some (GuildPublicThread 42)
   ∧ (ELECTORAL_ROLE_ID Config_default ∉ roles_of 42 third_vote_world)
   ∧ approval_count
       (default Approval_default
          (approval_counts third_vote_world !! channel_id third_reviewer)) + 1
     = REQUIRED_APPROVALS Config_default)
  ∧ (on_approve_member Config_default third_reviewer third_vote_world).1
    = Ret (Some Approved_with_role_updates)
  ∧ approval_counts (on_approve_member Config_default third_reviewer third_vote_world).2
    = delete (channel_id third_reviewer) (approval_counts third_vote_world).
Proof.
  split.
  - split; [vm_compute; reflexivity|]. split; [vm_compute; reflexivity|].
    split; [decided|vm_compute; reflexivity].
  - pose proof (quorum_vote_promotes_once Config_default third_reviewer third_vote_world 42
                  {[TEMPORARY_ROLE_ID Config_default]}) as H.
    destruct H as (H1 & _ & _ & H4 & _).
    + vm_compute; reflexivity.
    + vm_compute; reflexivity.
    + reflexivity.
    + decided.
    + decided.
    + vm_compute; reflexivity.
    + apply lock_free_no_locks. reflexivity.
    + decided.
    + decided.
    + discriminate.
    + decided.
    + decided.
    + vm_compute; reflexivity.
    + split; [exact H1|exact H4].
Defined.

(** C5 as stated fails: the record carries a stamp, eight days have
    passed, and the member does not hold the electoral role; the rejection
    vote ends with the not-yet-approved error, not with the window-closed
    one, in the handler and in the whole vote alike. *)
Lemma late_rejection_of_unapproved_member :
  last_approval_time stamped_long_ago = Some 0
  ∧ REJECTION_WINDOW_DAYS Config_default * 86400 * 1000000 < clock eight_days_later - 0
  ∧ (process_rejection Config_default late_reviewer 42 (ELECTORAL_ROLE_ID Config_default)
       (APPROVED_ROLE_ID Config_default) {[TEMPORARY_ROLE_ID Config_default]}
       stamped_long_ago 7 eight_days_later).1
    = Ret Rejection_aborted_Not_approved
  ∧ (process_rejection Config_default late_reviewer 42 (ELECTORAL_ROLE_ID Config_default)
       (APPROVED_ROLE_ID Config_default) {[TEMPORARY_ROLE_ID Config_default]}
       stamped_long_ago 7 eight_days_later).1
    ≠ Ret Rejection_aborted_Window_closed
  ∧ outbox (process_rejection Config_default late_reviewer 42
              (ELECTORAL_ROLE_ID Config_default) (APPROVED_ROLE_ID Config_default)
              {[TEMPORARY_ROLE_ID Config_default]} stamped_long_ago 7 eight_days_later).2
    = [To (Interaction late_reviewer) Error_title (Not_yet_approved 42)]
  ∧ (on_reject_member Config_default late_reviewer eight_days_later).1
    = Ret (Some Rejection_aborted_Not_approved).
Proof.
  split; [reflexivity|]. split; [vm_compute; reflexivity|].
  split; [vm_compute; reflexivity|]. split; [vm_compute; discriminate|].
  split; vm_compute; reflexivity.
Qed.

Lemma late_rejection_is_refused_witness :
  (last_approval_time stamped_long_ago = Some 0
   ∧ REJECTION_WINDOW_DAYS Config_default * 86400 * 1000000 < clock eight_days_later - 0)
  ∧ (process_rejection Config_default late_reviewer 42 (ELECTORAL_ROLE_ID Config_default)
       (APPROVED_ROLE_ID Config_default) {[ELECTORAL_ROLE_ID Config_default]}
       stamped_long_ago 7 eight_days_later).1
    = Ret Rejection_aborted_Window_closed.
Proof.
  split; [split; [reflexivity|vm_compute; reflexivity]|].
  apply (late_rejection_is_refused Config_default late_reviewer 42
           (ELECTORAL_ROLE_ID Config_default) (APPROVED_ROLE_ID Config_default)
           {[ELECTORAL_ROLE_ID Config_default]} stamped_long_ago 7 eight_days_later 0).
  - reflexivity.
  - vm_compute; reflexivity.
  - apply elem_of_singleton. reflexivity.
Defined.

Lemma votes_keep_the_ledger_bounded_witness :
  (0 ≤ REQUIRED_APPROVALS Config_default ∧ 0 ≤ REQUIRED_REJECTIONS Config_default)
  ∧ ledger_ok Config_default
      (vote Config_default third_reviewer APPROVED
         (initial_World (guild_with {[TEMPORARY_ROLE_ID Config_default]}) ∅ 0)).2.
Proof.
  split; [split; discriminate|].
  apply (proj1 (votes_keep_the_ledger_bounded Config_default
                  ltac:(discriminate) ltac:(discriminate))
           (initial_World (guild_with {[TEMPORARY_ROLE_ID Config_default]}) ∅ 0)).
  - reflexivity.
  - apply rtc_once. apply step_vote.
Defined.

(** C4: the lock of member 1 is held and was touched this very instant;
    a vote on member 1 is parked; a vote on member 42 runs, and when it is
    over the entry of member 1 is gone, and the vote on member 1 that was
    parked before now runs next to the one in flight. *)
Theorem vote_evicts_held_lock :
  member_role_locks vote_in_flight !! 1 = Some (mk_LockInfo true (clock vote_in_flight))
  ∧ (on_approve_member Config_default other_reviewer vote_in_flight).1 = Wait
  ∧ (on_approve_member Config_default third_reviewer vote_in_flight).1
    = Ret (Some Approval_registered_result)
  ∧ member_role_locks (on_approve_member Config_default third_reviewer vote_in_flight).2 !! 1
    = None
  ∧ (on_approve_member Config_default other_reviewer
       (on_approve_member Config_default third_reviewer vote_in_flight).2).1
    = Ret (Some Approval_registered_result).
Proof. repeat split; vm_compute; reflexivity. Qed.

(** C6: member 42 has no incarceration record and holds the incarcerated
    role and role 555.  The release takes the incarcerated role from the
    member before [del self.incarcerated_members[...]] raises the
    [KeyError]; the handler that [manage_penitentiary_status] keeps for the
    lookup of the action catches it, so the command ends normally and the
    caller is told that the action is invalid: a role was removed, and the
    report does not say why. *)
Theorem release_without_record_takes_role :
  incarcerated_members unrecorded_inmate !! 42 = None
  ∧ roles_of 42 unrecorded_inmate = {[INCARCERATED_ROLE_ID Config_default; 555]}
  ∧ (release_member Config_default warden 42 unrecorded_inmate).1 = Ret tt
  ∧ roles_of 42 (release_member Config_default warden 42 unrecorded_inmate).2 = {[555]}
  ∧ roles_of 42 (release_member Config_default warden 42 unrecorded_inmate).2
    ≠ roles_of 42 unrecorded_inmate
  ∧ outbox (release_member Config_default warden 42 unrecorded_inmate).2
    = [To (Interaction warden) Error_title (Invalid_penitentiary_action RELEASE)]
  ∧ log (release_member Config_default warden 42 unrecorded_inmate).2 = [].
Proof.
  split; [reflexivity|]. split; [vm_compute; reflexivity|].
  split; [vm_compute; reflexivity|]. split; [vm_compute; reflexivity|].
  split; [|split; vm_compute; reflexivity].
  intros H. apply (bool_decide_pack _) in H. vm_compute in H. exact H.
Qed.

Lemma release_without_record_reports_witness :
  (validate_penitentiary_permissions Config_default warden = true
   ∧ members (remote unrecorded_inmate) !! 42
     = Some {[INCARCERATED_ROLE_ID Config_default; 555]}
   ∧ incarcerated_members unrecorded_inmate !! 42 = None)
  ∧ (release_member Config_default warden 42 unrecorded_inmate).1 = Ret tt
  ∧ outbox (release_member Config_default warden 42 unrecorded_inmate).2
    = [To (Interaction warden) Error_title (Invalid_penitentiary_action RELEASE)].
Proof.
  split; [split; [vm_compute; reflexivity|split; [vm_compute; reflexivity|reflexivity]]|].
  pose proof (release_without_record_reports Config_default warden 42 unrecorded_inmate
                {[INCARCERATED_ROLE_ID Config_default; 555]}) as H.
  destruct H as (H1 & _ & _ & _ & _ & H6).
  - vm_compute; reflexivity.
  - reflexivity.
  - decided.
  - decided.
  - decided.
  - decided.
  - vm_compute; reflexivity.
  - decided.
  - reflexivity.
  - split; [exact H1|exact H6].
Defined.

(** C2: the record of member 42 is past due and member 42 holds the
    incarcerated role.  The reconciliation starts with [load_data], which
    for the model [dict] hands over the empty dict and saves it over the
    file: no release is attempted, nothing is logged or reported, the
    record is gone from the file without the member being released, and
    the member still holds the incarcerated role after any number of runs.
    This is so when the fetch of the member is answered with an error and
    when it is answered normally. *)
Theorem overdue_member_is_never_released :
  incarcerated_members_json fetch_is_failing !! 42 = Some overdue
  ∧ release_time overdue * 1000000 ≤ clock fetch_is_failing
  ∧ (check_incarcerated_members Config_default fetch_is_failing).1 = Ret tt
  ∧ log (check_incarcerated_members Config_default fetch_is_failing).2 = []
  ∧ outbox (check_incarcerated_members Config_default fetch_is_failing).2 = []
  ∧ incarcerated_members_json (check_incarcerated_members Config_default fetch_is_failing).2
    = ∅
  ∧ incarcerated_members_json fetch_is_working !! 42 = Some overdue
  ∧ release_time overdue * 1000000 ≤ clock fetch_is_working
  ∧ (42 ∉ fetch_fails (remote fetch_is_working))
  ∧ (check_incarcerated_members Config_default fetch_is_working).1 = Ret tt
  ∧ log (check_incarcerated_members Config_default fetch_is_working).2 = []
  ∧ outbox (check_incarcerated_members Config_default fetch_is_working).2 = []
  ∧ incarcerated_members_json (check_incarcerated_members Config_default fetch_is_working).2
    = ∅
  ∧ ∀ n, roles_of 42 (reconcile Config_default n fetch_is_failing)
         = {[INCARCERATED_ROLE_ID Config_default]}
         ∧ roles_of 42 (reconcile Config_default n fetch_is_working)
           = {[INCARCERATED_ROLE_ID Config_default]}
         ∧ log (reconcile Config_default n fetch_is_working) = []
         ∧ outbox (reconcile Config_default n fetch_is_working) = []
         ∧ release_tasks (reconcile Config_default n fetch_is_working) = [].
Proof.
  split; [vm_compute; reflexivity|]. split; [vm_compute; discriminate|].
  split; [vm_compute; reflexivity|]. split; [vm_compute; reflexivity|].
  split; [vm_compute; reflexivity|]. split; [vm_compute; reflexivity|].
  split; [vm_compute; reflexivity|]. split; [vm_compute; discriminate|].
  split; [decided|].
  split; [vm_compute; reflexivity|]. split; [vm_compute; reflexivity|].
  split; [vm_compute; reflexivity|]. split; [vm_compute; reflexivity|].
  intros n.
  destruct (reconcile_leaves Config_default n fetch_is_failing) as (H1 & _);
    [reflexivity|].
  destruct (reconcile_leaves Config_default n fetch_is_working) as (H2 & H3 & H4 & H5);
    [reflexivity|].
  unfold roles_of. rewrite H1, H2, H3, H4, H5.
  split; [vm_compute; reflexivity|]. split; [vm_compute; reflexivity|].
  repeat split.
Qed.

End ScenarioFacts.

(* ===================================================================== *)
(** * More of the vetting engine                                         *)
(* ===================================================================== *)

Module VettingMore.
Import Engine EngineFacts EngineClaims Notions.
Local Open Scope Z_scope.

#[local] Instance same_books_Frame : Frame same_books.
Proof.
  split; [split|..]; unfold same_books.
  - intros w. repeat split.
  - intros w1 w2 w3 H1 H2. destruct H1 as (?&?&?&?&?&?&?&?), H2 as (?&?&?&?&?&?&?&?).
    repeat split; congruence.
  - intros s w. repeat split.
  - intros l w. repeat split.
  - intros f w. repeat split.
Qed.

Lemma verify_attempts_verdict (remaining : nat) (member add remove : Z) (w : World) :
  (verify_attempts remaining member add remove w).1 = Ret true →
  add ∈ held_by member (verify_attempts remaining member add remove w).2
  ∧ remove ∉ held_by member (verify_attempts remaining member add remove w).2.
Proof.
  revert w. induction remaining as [|n IH]; intros w; cbn [verify_attempts].
  - run. discriminate.
  - unfold verify_roles. run.
    destruct (bool_decide (member ∈ fetch_fails (remote w))); [run; discriminate|].
    destruct (members (remote w) !! member) as [held|] eqn:Hm; run; [|discriminate].
    rewrite Hm. run.
    destruct (bool_decide (add ∈ held)) eqn:Ha; run.
    + destruct (bool_decide (remove ∉ held)) eqn:Hr; run.
      * intros _. unfold held_by. rewrite Hm. cbn.
        apply bool_decide_eq_true in Ha, Hr. now split.
      * destruct (Nat.eqb n 0); run.
        -- apply IH.
        -- match goal with |- context [execute_role_updates ?m ?x ?y ?w0] =>
             destruct (execute_role_updates m x y w0) as [[[]|e|] w1] end;
             [apply IH|discriminate..].
    + destruct (Nat.eqb n 0); run.
      * apply IH.
      * match goal with |- context [execute_role_updates ?m ?x ?y ?w0] =>
          destruct (execute_role_updates m x y w0) as [[[]|e|] w1] end;
          [apply IH|discriminate..].
Qed.


(** X2: when the directory refuses to edit the member's roles and a change
    is due, [update_member_roles] gives up at the first edit: it answers
    False, logs the critical error, and the roles are as they were. *)
Theorem update_member_roles_refused (member add remove : Z) (held : gset Z) (w : World) :
  members (remote w) !! member = Some held →
  member ∈ edit_fails (remote w) →
  remove ∈ held ∨ add ∉ held →
  update_member_roles member add remove held w
  = (Ret false, add_log (ERROR, Critical_role_update_error member RemoteError) w).
Proof.
  intros Hm Hef Hdue.
  unfold update_member_roles, execute_role_updates.
  destruct (decide (remove ∈ held)) as [Hr|Hr]; exec; [reflexivity|].
  destruct Hdue as [?|Ha]; [contradiction|]. exec. reflexivity.
Qed.

Section Votes.
Variable cfg : Config.

(** *** Votes that do not reach a handler *)

(** X3: a vote by somebody without a vetting role is answered with the
    insufficient-permissions error and changes nothing else. *)
Theorem vote_without_permission ctx status w :
  validate_vetting_permissions cfg ctx = false →
  vote cfg ctx status w
  = (Ret None, add_sent (To (Interaction ctx) Error_title Insufficient_permissions) w).
Proof.
  intros Hperm.
  assert (H : process_approval_status_change cfg ctx status w
              = (Ret None,
                 add_sent (To (Interaction ctx) Error_title Insufficient_permissions) w)).
  { unfold process_approval_status_change, validate_context. exec. reflexivity. }
  destruct status; unfold vote, on_approve_member, on_reject_member;
    rewrite error_handler_run, H; reflexivity.
Qed.

(** X4: a vote cast where there is no public thread raises the [ValueError]
    of [process_approval_status_change]; [error_handler] logs it, reports it
    to the reviewer and raises it again; nothing else changes. *)
Theorem vote_outside_a_thread ctx status w :
  validate_vetting_permissions cfg ctx = true →
  (∀ owner, channels (remote w) !! channel_id ctx ≠ Some (GuildPublicThread owner)) →
  vote cfg ctx status w
  = (Raise ValueError_not_in_thread,
     add_sent (To (Interaction ctx) Error_title (Error_in_command ValueError_not_in_thread))
       (add_log (ERROR, Error_in_command ValueError_not_in_thread) w)).
Proof.
  intros Hperm Hch.
  assert (H : process_approval_status_change cfg ctx status w
              = (Raise ValueError_not_in_thread, w)).
  { unfold process_approval_status_change, validate_context. exec.
    destruct (channels (remote w) !! channel_id ctx) as [[owner| |]|] eqn:Hc;
      [exfalso; exact (Hch owner eq_refl)|reflexivity..]. }
  destruct status; unfold vote, on_approve_member, on_reject_member;
    rewrite error_handler_run, H; reflexivity.
Qed.

(** X5: a vote in the thread of somebody who has left the guild is answered
    with the member-not-found error and changes nothing else: no lock is
    made, nothing is registered. *)
Theorem vote_on_departed_member ctx status w owner :
  validate_vetting_permissions cfg ctx = true →
  channels (remote w) !! channel_id ctx = Some (GuildPublicThread owner) →
  guild_reachable (remote w) = true →
  owner ∉ fetch_fails (remote w) →
  members (remote w) !! owner = None →
  vote cfg ctx status w
  = (Ret None, add_sent (To (Interaction ctx) Error_title Member_not_found_in_server) w).
Proof.
  intros Hperm Hch Hg Hff Hm.
  assert (H : process_approval_status_change cfg ctx status w
              = (Ret None,
                 add_sent (To (Interaction ctx) Error_title Member_not_found_in_server) w)).
  { unfold process_approval_status_change, validate_context. exec. reflexivity. }
  destruct status; unfold vote, on_approve_member, on_reject_member;
    rewrite error_handler_run, H; reflexivity.
Qed.

(** *** Votes that are registered *)

Lemma process_rejection_registered ctx member e a roles rec thread w :
  e ∈ roles →
  (∀ stamped, last_approval_time rec = Some stamped →
     clock w - stamped ≤ REJECTION_WINDOW_DAYS cfg * 86400 * 1000000) →
  rejection_count rec + 1 < REQUIRED_REJECTIONS cfg →
  process_rejection cfg ctx member e a roles rec thread w
  = (Ret Rejection_registered_result,
     add_sent (To (Interaction ctx) Success_title
                 (Rejection_registered member (rejection_count rec + 1)
                    (REQUIRED_REJECTIONS cfg - (rejection_count rec + 1))))
       (set_approval_counts
          (<[thread := mk_Approval (approval_count rec) (rejection_count rec + 1)
                         (reviewers rec ∪ {[author_id ctx]}) (last_approval_time rec)]>) w)).
Proof.
  intros He Hopen Hq. unfold process_rejection, is_rejection_window_closed. exec.
  destruct (last_approval_time rec) as [stamped|] eqn:Hs; exec.
  1: rewrite (proj2 (Z.ltb_ge _ _) (Hopen stamped eq_refl)); exec.
  all: rewrite Z.min_l by lia.
  all: destruct (Z.eqb_spec (rejection_count rec + 1) (REQUIRED_REJECTIONS cfg)); [lia|].
  all: exec; reflexivity.
Qed.

Lemma process_rejection_quorum ctx member e a held rec thread w :
  e ∈ held →
  (∀ stamped, last_approval_time rec = Some stamped →
     clock w - stamped ≤ REJECTION_WINDOW_DAYS cfg * 86400 * 1000000) →
  REQUIRED_REJECTIONS cfg ≤ rejection_count rec + 1 →
  members (remote w) !! member = Some held →
  member ∉ fetch_fails (remote w) →
  member ∉ edit_fails (remote w) →
  e ≠ a →
  process_rejection cfg ctx member e a held rec thread w
  = (Ret Rejected_with_role_updates,
     set_processed_thread_ids (λ ids, ids ∖ {[thread]})
       (set_approval_counts (delete thread)
          (add_sent (To (Thread thread) Success_title
                       (Rejected_by member
                          (mk_Approval (approval_count rec) (REQUIRED_REJECTIONS cfg)
                             (reviewers rec ∪ {[author_id ctx]}) (last_approval_time rec))))
             (set_members (<[member := held ∖ {[e]} ∪ {[a]}]>)
                (set_approval_counts
                   (<[thread := mk_Approval (approval_count rec) (REQUIRED_REJECTIONS cfg)
                                  (reviewers rec ∪ {[author_id ctx]})
                                  (last_approval_time rec)]>) w))))).
Proof.
  intros He Hopen Hq Hm Hff Hef Hne.
  unfold process_rejection, is_rejection_window_closed. exec.
  destruct (last_approval_time rec) as [stamped|] eqn:Hs; exec.
  1: rewrite (proj2 (Z.ltb_ge _ _) (Hopen stamped eq_refl)); exec.
  all: rewrite Z.min_r by lia; rewrite Z.eqb_refl.
  all: unfold cleanup_approval_data, send_rejection_notification; exec.
  all: erewrite update_member_roles_ok; [| run; first [eassumption|congruence] ..].
  all: exec; reflexivity.
Qed.

Lemma vote_runs (ctx : Context) (status : Status) (w : World) (owner : Z) (held : gset Z) :
  reaches_handler cfg ctx w owner held →
  vote cfg ctx status w =
  match
    handler_for cfg status ctx owner (ELECTORAL_ROLE_ID cfg) (APPROVED_ROLE_ID cfg) held
      (default Approval_default (approval_counts w !! channel_id ctx)) (channel_id ctx)
      (vote_enter owner w)
  with
  | (Ret r, w2) => (Ret (Some r), vote_exit owner (channel_id ctx) w2)
  | (Raise e, w2) =>
      (Ret None,
       vote_exit owner (channel_id ctx)
         (add_sent (To (Interaction ctx) Error_title Processing_error_occurred)
            (add_log (ERROR, Status_change_failed e) w2)))
  | (Wait, w2) => (Wait, w2)
  end.
Proof.
  intros (Hperm & Hch & Hg & Hff & Hm & Hlock & He & Ha & Hfresh).
  assert (H := vote_runs_handler cfg ctx status w owner held Hperm Hch Hg Hff Hm Hlock He Ha
                 Hfresh).
  destruct status; unfold vote, on_approve_member, on_reject_member;
    rewrite error_handler_run, H;
    match goal with |- context [handler_for cfg ?s ?c ?o ?e ?a ?h ?r ?t ?w0] =>
      destruct (handler_for cfg s c o e a h r t w0) as [[res|exc|] w2] end; reflexivity.
Qed.

(** X6: an approval that leaves the thread short of the quorum is
    registered: the count goes up by one, the reviewer joins the reviewers,
    the rejection count of the record is back at 0, the reviewer is told how
    many approvals are missing, and nobody's roles change. *)
Theorem approval_below_quorum ctx w owner held :
  reaches_handler cfg ctx w owner held →
  ELECTORAL_ROLE_ID cfg ∉ held →
  approval_count (default Approval_default (approval_counts w !! channel_id ctx)) + 1
    < REQUIRED_APPROVALS cfg →
  (on_approve_member cfg ctx w).1 = Ret (Some Approval_registered_result)
  ∧ approval_counts (on_approve_member cfg ctx w).2 !! channel_id ctx
    = Some (mk_Approval
              (approval_count
                 (default Approval_default (approval_counts w !! channel_id ctx)) + 1)
              0
              (reviewers (default Approval_default (approval_counts w !! channel_id ctx))
               ∪ {[author_id ctx]})
              (last_approval_time
                 (default Approval_default (approval_counts w !! channel_id ctx))))
  ∧ (∀ thread, thread ≠ channel_id ctx →
       approval_counts (on_approve_member cfg ctx w).2 !! thread = approval_counts w !! thread)
  ∧ members (remote (on_approve_member cfg ctx w).2) = members (remote w)
  ∧ To (Interaction ctx) Success_title
      (Approval_registered owner
         (approval_count (default Approval_default (approval_counts w !! channel_id ctx)) + 1)
         (REQUIRED_APPROVALS cfg
          - (approval_count
               (default Approval_default (approval_counts w !! channel_id ctx)) + 1)))
      ∈ outbox (on_approve_member cfg ctx w).2.
Proof.
  intros Hreach He Hq.
  change (on_approve_member cfg ctx) with (vote cfg ctx APPROVED).
  rewrite (vote_runs ctx APPROVED w owner held Hreach). unfold handler_for.
  rewrite process_approval_registered by assumption.
  cbn [fst snd]. unfold vote_exit, vote_enter. run.
  split; [reflexivity|]. split; [apply lookup_insert_eq|].
  split; [intros thread Hne; now apply lookup_insert_ne|].
  split; [reflexivity|].
  apply elem_of_app. left. apply elem_of_app. right. constructor.
Qed.

(** X7: a rejection, inside the window, that leaves the thread short of the
    rejection quorum is registered: the rejection count goes up by one, the
    approval count and the stamp stay, the reviewer joins the reviewers and
    is told how many rejections are missing, and nobody's roles change. *)
Theorem rejection_below_quorum ctx w owner held :
  reaches_handler cfg ctx w owner held →
  ELECTORAL_ROLE_ID cfg ∈ held →
  (∀ stamped,
     last_approval_time (default Approval_default (approval_counts w !! channel_id ctx))
       = Some stamped →
     clock w - stamped ≤ REJECTION_WINDOW_DAYS cfg * 86400 * 1000000) →
  rejection_count (default Approval_default (approval_counts w !! channel_id ctx)) + 1
    < REQUIRED_REJECTIONS cfg →
  (on_reject_member cfg ctx w).1 = Ret (Some Rejection_registered_result)
  ∧ approval_counts (on_reject_member cfg ctx w).2 !! channel_id ctx
    = Some (mk_Approval
              (approval_count
                 (default Approval_default (approval_counts w !! channel_id ctx)))
              (rejection_count
                 (default Approval_default (approval_counts w !! channel_id ctx)) + 1)
              (reviewers (default Approval_default (approval_counts w !! channel_id ctx))
               ∪ {[author_id ctx]})
              (last_approval_time
                 (default Approval_default (approval_counts w !! channel_id ctx))))
  ∧ (∀ thread, thread ≠ channel_id ctx →
       approval_counts (on_reject_member cfg ctx w).2 !! thread = approval_counts w !! thread)
  ∧ members (remote (on_reject_member cfg ctx w).2) = members (remote w)
  ∧ To (Interaction ctx) Success_title
      (Rejection_registered owner
         (rejection_count (default Approval_default (approval_counts w !! channel_id ctx)) + 1)
         (REQUIRED_REJECTIONS cfg
          - (rejection_count
               (default Approval_default (approval_counts w !! channel_id ctx)) + 1)))
      ∈ outbox (on_reject_member cfg ctx w).2.
Proof.
  intros Hreach He Hopen Hq.
  change (on_reject_member cfg ctx) with (vote cfg ctx REJECTED).
  rewrite (vote_runs ctx REJECTED w owner held Hreach). unfold handler_for.
  rewrite process_rejection_registered; [|assumption..].
  cbn [fst snd]. unfold vote_exit, vote_enter. run.
  split; [reflexivity|]. split; [apply lookup_insert_eq|].
  split; [intros thread Hne; now apply lookup_insert_ne|].
  split; [reflexivity|].
  apply elem_of_app. left. apply elem_of_app. right. constructor.
Qed.

(** X8: the rejection that brings a thread to REQUIRED_REJECTIONS, inside
    the window, takes the electoral role from the member and gives them the
    approved role, leaving every other role; it posts the rejection notice
    in the thread and deletes the ledger entry. *)
Theorem rejection_quorum_demotes ctx w owner held :
  reaches_handler cfg ctx w owner held →
  owner ∉ edit_fails (remote w) →
  ELECTORAL_ROLE_ID cfg ≠ APPROVED_ROLE_ID cfg →
  ELECTORAL_ROLE_ID cfg ∈ held →
  (∀ stamped,
     last_approval_time (default Approval_default (approval_counts w !! channel_id ctx))
       = Some stamped →
     clock w - stamped ≤ REJECTION_WINDOW_DAYS cfg * 86400 * 1000000) →
  rejection_count (default Approval_default (approval_counts w !! channel_id ctx)) + 1
    = REQUIRED_REJECTIONS cfg →
  (on_reject_member cfg ctx w).1 = Ret (Some Rejected_with_role_updates)
  ∧ members (remote (on_reject_member cfg ctx w).2)
    = <[owner := held ∖ {[ELECTORAL_ROLE_ID cfg]} ∪ {[APPROVED_ROLE_ID cfg]}]>
        (members (remote w))
  ∧ approval_counts (on_reject_member cfg ctx w).2
    = delete (channel_id ctx) (approval_counts w)
  ∧ (∃ record,
       To (Thread (channel_id ctx)) Success_title (Rejected_by owner record)
         ∈ outbox (on_reject_member cfg ctx w).2
       ∧ rejection_count record = REQUIRED_REJECTIONS cfg).
Proof.
  intros Hreach Hef Hne He Hopen Hq.
  assert (Hm : members (remote w) !! owner = Some held) by apply Hreach.
  assert (Hff : owner ∉ fetch_fails (remote w)) by apply Hreach.
  change (on_reject_member cfg ctx) with (vote cfg ctx REJECTED).
  rewrite (vote_runs ctx REJECTED w owner held Hreach). unfold handler_for.
  rewrite process_rejection_quorum; [|first [assumption|lia]..].
  cbn [fst snd]. unfold vote_exit, vote_enter. run.
  split; [reflexivity|]. split; [reflexivity|].
  split; [now rewrite delete_insert_eq|].
  eexists. split; [apply elem_of_app; left; apply elem_of_app; right; constructor|].
  reflexivity.
Qed.

End Votes.

End VettingMore.

(* ===================================================================== *)
(** * More of the per-member locks                                       *)
(* ===================================================================== *)

Module LocksMore.
Import Engine EngineFacts EngineClaims LockClaims Notions.
Local Open Scope Z_scope.

(** X9: whatever ran under [member_lock], unless the coroutine is parked,
    the lock map it leaves holds only locks that are free and were used
    within the last hour. *)
Theorem member_lock_leaves_free_fresh_locks {A} (member : Z) (body : M A) (w : World)
    (k : Z) (info : LockInfo) :
  (member_lock member body w).1 ≠ Wait →
  member_role_locks (member_lock member body w).2 !! k = Some info →
  locked info = false
  ∧ clock (member_lock member body w).2 - last_used info ≤ hour_us.
Proof.
  unfold member_lock. run.
  destruct (bool_decide _); run; [congruence|].
  match goal with |- context [body ?w0] => destruct (body w0) as [[a|e|] w1] end;
    run; [| |congruence].
  all: intros _ H; apply sweep_on_exit_keeps in H as (_ & H1 & H2); now split.
Qed.

(** X10: [cleanup_old_locks] keeps an entry exactly when its lock is held
    or it was used within the last seven days, and changes nothing else; run
    on a lock map in which every lock is free and was used within the hour,
    as [member_lock] leaves it, it removes nothing. *)
Theorem cleanup_old_locks_keeps (w : World) :
  (cleanup_old_locks w).1 = Ret tt
  ∧ (∀ k info,
       member_role_locks (cleanup_old_locks w).2 !! k = Some info
       ↔ member_role_locks w !! k = Some info
         ∧ (locked info = true ∨ clock w - last_used info ≤ week_us))
  ∧ ((∀ k info, member_role_locks w !! k = Some info →
        locked info = false ∧ clock w - last_used info ≤ hour_us) →
     member_role_locks (cleanup_old_locks w).2 = member_role_locks w)
  ∧ approval_counts (cleanup_old_locks w).2 = approval_counts w
  ∧ remote (cleanup_old_locks w).2 = remote w
  ∧ incarcerated_members (cleanup_old_locks w).2 = incarcerated_members w.
Proof.
  unfold cleanup_old_locks. run.
  assert (Hiff : ∀ k info,
            filter (λ kv : Z * LockInfo,
                      ¬ (locked kv.2 = false ∧ week_us < clock w - last_used kv.2))
              (member_role_locks w) !! k = Some info
            ↔ member_role_locks w !! k = Some info
              ∧ (locked info = true ∨ clock w - last_used info ≤ week_us)).
  { intros k info. rewrite map_lookup_filter_Some. cbn.
    split; intros [Hk H]; (split; [exact Hk|]).
    - destruct (locked info); [now left|right].
      destruct (Z.le_gt_cases (clock w - last_used info) week_us) as [?|Hgt]; [assumption|].
      exfalso. apply H. split; [reflexivity|lia].
    - intros [Hfree Hold]. destruct H as [H|H]; [congruence|lia]. }
  split; [reflexivity|]. split; [exact Hiff|].
  split; [|repeat split].
  intros Hfresh. apply map_eq. intros k.
  destruct (member_role_locks w !! k) as [info|] eqn:Hk.
  - apply Hiff. split; [exact Hk|]. right.
    destruct (Hfresh k info Hk) as [_ H]. unfold hour_us, week_us in *. lia.
  - apply map_lookup_filter_None. left. exact Hk.
Qed.

Section Votes.
Variable cfg : Config.

(** X11: while the lock of a member is held, a vote on that member does not
    get to the ledger or to the roles: the coroutine is parked at the lock,
    and all it has done is to touch the entry of the member. *)
Theorem vote_on_locked_member_waits ctx status w owner held info :
  validate_vetting_permissions cfg ctx = true →
  channels (remote w) !! channel_id ctx = Some (GuildPublicThread owner) →
  guild_reachable (remote w) = true →
  owner ∉ fetch_fails (remote w) →
  members (remote w) !! owner = Some held →
  member_role_locks w !! owner = Some info →
  locked info = true →
  (vote cfg ctx status w).1 = Wait
  ∧ member_role_locks (vote cfg ctx status w).2
    = <[owner := mk_LockInfo true (clock w)]> (member_role_locks w)
  ∧ approval_counts (vote cfg ctx status w).2 = approval_counts w
  ∧ remote (vote cfg ctx status w).2 = remote w
  ∧ outbox (vote cfg ctx status w).2 = outbox w.
Proof.
  intros Hperm Hch Hg Hff Hm Hk Hheld.
  assert (H : process_approval_status_change cfg ctx status w
              = (Wait,
                 set_member_role_locks
                   (λ locks,
                      <[owner := mk_LockInfo
                                   (locked (default (mk_LockInfo false (clock w))
                                              (locks !! owner)))
                                   (clock w)]> locks) w)).
  { unfold process_approval_status_change, validate_context, member_lock. exec.
    reflexivity. }
  assert (Hv : vote cfg ctx status w = process_approval_status_change cfg ctx status w).
  { destruct status; unfold vote, on_approve_member, on_reject_member;
      rewrite error_handler_run, H; reflexivity. }
  rewrite Hv, H. run. rewrite Hk. run. rewrite Hheld. repeat split.
Qed.

End Votes.

End LocksMore.

(* ===================================================================== *)
(** * More of the penitentiary                                           *)
(* ===================================================================== *)

Module PenitentiaryMore.
Import Engine EngineFacts EngineClaims PenitentiaryClaims Notions.
Local Open Scope Z_scope.

Section Penitentiary.
Variable cfg : Config.

Lemma watched_held_empty (e a t : Z) (held : gset Z) :
  bool_decide (({[e]} ∪ {[a]} ∪ {[t]}) ∩ held ≠ (∅ : gset Z)) = false →
  held ∖ {[e; a; t]} = held.
Proof.
  intros H. apply bool_decide_eq_false in H.
  assert (H0 : ({[e]} ∪ {[a]} ∪ {[t]}) ∩ held = (∅ : gset Z)).
  { destruct (decide (({[e]} ∪ {[a]} ∪ {[t]}) ∩ held = (∅ : gset Z))); [assumption|].
    contradiction. }
  set_solver.
Qed.

Lemma incarceration_runs ctx member (d : Z) w held :
  guild_reachable (remote w) = true →
  INCARCERATED_ROLE_ID cfg ∈ guild_roles (remote w) →
  ELECTORAL_ROLE_ID cfg ∈ guild_roles (remote w) →
  APPROVED_ROLE_ID cfg ∈ guild_roles (remote w) →
  TEMPORARY_ROLE_ID cfg ∈ guild_roles (remote w) →
  members (remote w) !! member = Some held →
  member ∉ edit_fails (remote w) →
  storage_ok w = true →
  manage_penitentiary_status cfg (Some ctx) member INCARCERATE (Some d) w
  = (Ret tt,
     add_sent (To_log_forum Success_title
                 (Incarcerated_until member (clock w / 1000000 + d) (Some (author_id ctx))))
       (add_sent (To_log_channel Success_title
                    (Incarcerated_until member (clock w / 1000000 + d)
                       (Some (author_id ctx))))
          (add_sent (To (Interaction ctx) Success_title
                       (Incarcerated_until member (clock w / 1000000 + d)
                          (Some (author_id ctx))))
             (set_incarcerated_members_json
                (λ _, <[member := mk_Incarceration (clock w / 1000000 + d)
                                    (filter (λ role_id, role_id ∈ held)
                                       [ELECTORAL_ROLE_ID cfg; APPROVED_ROLE_ID cfg;
                                        TEMPORARY_ROLE_ID cfg])]>
                        (incarcerated_members w))
                (set_incarcerated_members
                   (<[member := mk_Incarceration (clock w / 1000000 + d)
                                  (filter (λ role_id, role_id ∈ held)
                                     [ELECTORAL_ROLE_ID cfg; APPROVED_ROLE_ID cfg;
                                      TEMPORARY_ROLE_ID cfg])]>)
                   (set_members
                      (<[member := held ∖ {[ELECTORAL_ROLE_ID cfg; APPROVED_ROLE_ID cfg;
                                            TEMPORARY_ROLE_ID cfg]}
                                   ∪ {[INCARCERATED_ROLE_ID cfg]}]>) w)))))).
Proof.
  intros Hg Hi He Ha Ht Hm Hef Hs.
  unfold manage_penitentiary_status, fetch_penitentiary_roles, fetch_penitentiary_role,
    perform_member_incarceration, save_incarcerated_members.
  exec. cbn [option_set].
  destruct (bool_decide (_ ≠ ∅)) eqn:Hrem; exec; cbn [fmap option_fmap option_map].
  - rewrite set_members_twice. do 6 f_equal. apply set_members_ext.
    rewrite insert_insert_eq. do 2 f_equal. set_solver.
  - do 6 f_equal. apply set_members_ext. do 2 f_equal.
    symmetry. now apply watched_held_empty.
Qed.

(** X12: an incarceration takes the electoral, approved and temporary roles
    from the member, gives them the incarcerated role and leaves their
    other roles and everybody else alone; it records, in memory and on disk,
    the release time (now plus the duration, in whole seconds) and which of
    the three roles the member held, and reports to the caller and to the
    log. *)
Theorem incarceration_takes_watched_roles ctx member (d : Z) w held :
  guild_reachable (remote w) = true →
  INCARCERATED_ROLE_ID cfg ∈ guild_roles (remote w) →
  ELECTORAL_ROLE_ID cfg ∈ guild_roles (remote w) →
  APPROVED_ROLE_ID cfg ∈ guild_roles (remote w) →
  TEMPORARY_ROLE_ID cfg ∈ guild_roles (remote w) →
  members (remote w) !! member = Some held →
  member ∉ edit_fails (remote w) →
  storage_ok w = true →
  (manage_penitentiary_status cfg (Some ctx) member INCARCERATE (Some d) w).1 = Ret tt
  ∧ members (remote (manage_penitentiary_status cfg (Some ctx) member INCARCERATE
                       (Some d) w).2)
    = <[member := held ∖ {[ELECTORAL_ROLE_ID cfg; APPROVED_ROLE_ID cfg;
                          TEMPORARY_ROLE_ID cfg]}
                 ∪ {[INCARCERATED_ROLE_ID cfg]}]> (members (remote w))
  ∧ incarcerated_members (manage_penitentiary_status cfg (Some ctx) member INCARCERATE
                            (Some d) w).2
    = <[member := mk_Incarceration (clock w / 1000000 + d)
                    (filter (λ role_id, role_id ∈ held)
                       [ELECTORAL_ROLE_ID cfg; APPROVED_ROLE_ID cfg;
                        TEMPORARY_ROLE_ID cfg])]> (incarcerated_members w)
  ∧ incarcerated_members_json (manage_penitentiary_status cfg (Some ctx) member INCARCERATE
                                 (Some d) w).2
    = incarcerated_members (manage_penitentiary_status cfg (Some ctx) member INCARCERATE
                              (Some d) w).2
  ∧ outbox (manage_penitentiary_status cfg (Some ctx) member INCARCERATE (Some d) w).2
    = outbox w
      ++ [To (Interaction ctx) Success_title
            (Incarcerated_until member (clock w / 1000000 + d) (Some (author_id ctx)));
          To_log_channel Success_title
            (Incarcerated_until member (clock w / 1000000 + d) (Some (author_id ctx)));
          To_log_forum Success_title
            (Incarcerated_until member (clock w / 1000000 + d) (Some (author_id ctx)))].
Proof.
  intros Hg Hi He Ha Ht Hm Hef Hs.
  rewrite (incarceration_runs ctx member d w held) by assumption.
  run. repeat split. now rewrite <- !app_assoc.
Qed.

(** X13: when the directory refuses to edit the member's roles, an
    incarceration logs the error and stops there: no record is made, in
    memory or on disk, nothing is reported, and the roles are as they
    were. *)
Theorem incarceration_refused ctx member (d : Z) w held :
  guild_reachable (remote w) = true →
  INCARCERATED_ROLE_ID cfg ∈ guild_roles (remote w) →
  ELECTORAL_ROLE_ID cfg ∈ guild_roles (remote w) →
  APPROVED_ROLE_ID cfg ∈ guild_roles (remote w) →
  TEMPORARY_ROLE_ID cfg ∈ guild_roles (remote w) →
  members (remote w) !! member = Some held →
  member ∈ edit_fails (remote w) →
  manage_penitentiary_status cfg ctx member INCARCERATE (Some d) w
  = (Ret tt, add_log (ERROR, Error_assigning_roles RemoteError) w).
Proof.
  intros Hg Hi He Ha Ht Hm Hef.
  unfold manage_penitentiary_status, fetch_penitentiary_roles, fetch_penitentiary_role,
    perform_member_incarceration, save_incarcerated_members.
  exec. cbn [option_set].
  destruct (bool_decide (_ ≠ ∅)) eqn:Hrem; exec; reflexivity.
Qed.

Lemma release_runs ctx member w held data :
  guild_reachable (remote w) = true →
  INCARCERATED_ROLE_ID cfg ∈ guild_roles (remote w) →
  ELECTORAL_ROLE_ID cfg ∈ guild_roles (remote w) →
  APPROVED_ROLE_ID cfg ∈ guild_roles (remote w) →
  TEMPORARY_ROLE_ID cfg ∈ guild_roles (remote w) →
  members (remote w) !! member = Some held →
  member ∉ edit_fails (remote w) →
  storage_ok w = true →
  incarcerated_members w !! member = Some data →
  manage_penitentiary_status cfg (Some ctx) member RELEASE None w
  = (Ret tt,
     add_sent (To_log_forum Success_title
                 (Released_by member (Some (author_id ctx)) (clock w / 1000000)
                    (release_time data)))
       (add_sent (To_log_channel Success_title
                    (Released_by member (Some (author_id ctx)) (clock w / 1000000)
                       (release_time data)))
          (add_sent (To (Interaction ctx) Success_title
                       (Released_by member (Some (author_id ctx)) (clock w / 1000000)
                          (release_time data)))
             (set_incarcerated_members_json
                (λ _, delete member (incarcerated_members w))
                (set_incarcerated_members (delete member)
                   (set_members
                      (<[member := held ∖ {[INCARCERATED_ROLE_ID cfg]}
                                   ∪ filter (λ role, role ∈ (list_to_set (original_roles data)
                                                             : gset Z)
                                                     ∧ role ∉ held)
                                       (guild_roles (remote w))]>) w)))))).
Proof.
  intros Hg Hi He Ha Ht Hm Hef Hs Hrec.
  unfold manage_penitentiary_status, fetch_penitentiary_roles, fetch_penitentiary_role,
    perform_member_release, save_incarcerated_members.
  exec. cbn [fmap option_fmap option_map]. run.
  destruct (bool_decide (INCARCERATED_ROLE_ID cfg ∈ held)) eqn:Hin; run; exec.
  all: destruct (bool_decide (filter _ _ ≠ ∅)) eqn:Hadd; run; exec.
  all: rewrite ?set_members_twice; do 6 f_equal.
  all: try (apply bool_decide_eq_false in Hadd;
            match type of Hadd with ¬ (?X ≠ ∅) =>
              assert (Hempty : X = ∅) by (destruct (decide (X = ∅)); [assumption|contradiction])
            end; rewrite Hempty).
  all: try apply bool_decide_eq_false in Hin.
  - apply set_members_ext. now rewrite insert_insert_eq.
  - apply set_members_ext. f_equal. set_solver.
  - apply set_members_ext. f_equal. set_solver.
  - symmetry. apply set_members_id. rewrite insert_id; [done|].
    rewrite Hm. f_equal. set_solver.
Qed.

Lemma release_member_runs ctx member w held data :
  validate_penitentiary_permissions cfg ctx = true →
  guild_reachable (remote w) = true →
  INCARCERATED_ROLE_ID cfg ∈ guild_roles (remote w) →
  ELECTORAL_ROLE_ID cfg ∈ guild_roles (remote w) →
  APPROVED_ROLE_ID cfg ∈ guild_roles (remote w) →
  TEMPORARY_ROLE_ID cfg ∈ guild_roles (remote w) →
  members (remote w) !! member = Some held →
  member ∉ edit_fails (remote w) →
  storage_ok w = true →
  incarcerated_members w !! member = Some data →
  (release_member cfg ctx member w).1 = Ret tt
  ∧ (release_member cfg ctx member w).2
    = (manage_penitentiary_status cfg (Some ctx) member RELEASE None w).2.
Proof.
  intros Hperm Hg Hi He Ha Ht Hm Hef Hs Hrec.
  unfold release_member. rewrite error_handler_run, Hperm. cbn [negb].
  rewrite (release_runs ctx member w held data) by assumption.
  run. split; reflexivity.
Qed.

(** X14: a release of a member who has a record takes the incarcerated role
    from them and gives back those roles of the record that the guild still
    has and the member does not hold, leaving everybody else alone; it
    deletes the record, in memory and on disk, and reports to the caller and
    to the log. *)
Theorem release_restores_recorded_roles ctx member w held data :
  validate_penitentiary_permissions cfg ctx = true →
  guild_reachable (remote w) = true →
  INCARCERATED_ROLE_ID cfg ∈ guild_roles (remote w) →
  ELECTORAL_ROLE_ID cfg ∈ guild_roles (remote w) →
  APPROVED_ROLE_ID cfg ∈ guild_roles (remote w) →
  TEMPORARY_ROLE_ID cfg ∈ guild_roles (remote w) →
  members (remote w) !! member = Some held →
  member ∉ edit_fails (remote w) →
  storage_ok w = true →
  incarcerated_members w !! member = Some data →
  (release_member cfg ctx member w).1 = Ret tt
  ∧ members (remote (release_member cfg ctx member w).2)
    = <[member := held ∖ {[INCARCERATED_ROLE_ID cfg]}
                 ∪ filter (λ role, role ∈ (list_to_set (original_roles data) : gset Z)
                                   ∧ role ∉ held)
                     (guild_roles (remote w))]> (members (remote w))
  ∧ incarcerated_members (release_member cfg ctx member w).2
    = delete member (incarcerated_members w)
  ∧ incarcerated_members_json (release_member cfg ctx member w).2
    = delete member (incarcerated_members w)
  ∧ outbox (release_member cfg ctx member w).2
    = outbox w
      ++ [To (Interaction ctx) Success_title
            (Released_by member (Some (author_id ctx)) (clock w / 1000000)
               (release_time data));
          To_log_channel Success_title
            (Released_by member (Some (author_id ctx)) (clock w / 1000000)
               (release_time data));
          To_log_forum Success_title
            (Released_by member (Some (author_id ctx)) (clock w / 1000000)
               (release_time data))].
Proof.
  intros Hperm Hg Hi He Ha Ht Hm Hef Hs Hrec.
  unfold release_member. rewrite error_handler_run, Hperm. cbn [negb].
  rewrite (release_runs ctx member w held data) by assumption.
  run. repeat split. now rewrite <- !app_assoc.
Qed.

Lemma round_trip_roles (e a t i : Z) (held guild : gset Z) :
  e ∈ guild → a ∈ guild → t ∈ guild → i ≠ e → i ≠ a → i ≠ t →
  (held ∖ {[e; a; t]} ∪ {[i]}) ∖ {[i]}
  ∪ filter (λ role, role ∈ (list_to_set (filter (λ role_id, role_id ∈ held) [e; a; t]) : gset Z)
                    ∧ role ∉ held ∖ {[e; a; t]} ∪ {[i]})
      guild
  = held ∖ {[i]}.
Proof.
  intros He Ha Ht Hie Hia Hit. apply set_eq. intros x.
  rewrite elem_of_union, !elem_of_difference, elem_of_filter, elem_of_list_to_set,
    list_elem_of_filter, !elem_of_union, !elem_of_difference, !elem_of_singleton,
    !elem_of_cons, elem_of_nil, !elem_of_union, !elem_of_singleton.
  destruct (decide (x = i)) as [->|Hxi]; [naive_solver|].
  destruct (decide (x = e)) as [->|Hxe]; [naive_solver|].
  destruct (decide (x = a)) as [->|Hxa]; [naive_solver|].
  destruct (decide (x = t)) as [->|Hxt]; naive_solver.
Qed.


End Penitentiary.
End PenitentiaryMore.

(* ===================================================================== *)
(** * Releases and the reconciliation                                    *)
(* ===================================================================== *)

Module ReleaseFacts.
Import Engine EngineFacts EngineClaims PenitentiaryClaims Notions.
Local Open Scope Z_scope.

Section Release.
Variable cfg : Config.
Local Abbreviation manage_penitentiary_status := (Engine.manage_penitentiary_status cfg).
Local Abbreviation release_prisoner := (Engine.release_prisoner cfg).
Local Abbreviation check_incarcerated_members := (Engine.check_incarcerated_members cfg).

(** X16: when the guild lacks the incarcerated role, an incarceration does
    nothing but log: the failed fetch of every role that is missing, and
    the [KeyError] of [roles["incarcerated"]] as an error assigning roles.
    The member is not incarcerated, no record is made, and the caller gets
    no answer; the report that the required roles were not found is not
    sent. *)
Theorem incarceration_without_incarcerated_role ctx member (d : Z) w :
  guild_reachable (remote w) = true →
  INCARCERATED_ROLE_ID cfg ∉ guild_roles (remote w) →
  (manage_penitentiary_status ctx member INCARCERATE (Some d) w).1 = Ret tt
  ∧ remote (manage_penitentiary_status ctx member INCARCERATE (Some d) w).2 = remote w
  ∧ incarcerated_members (manage_penitentiary_status ctx member INCARCERATE (Some d) w).2
    = incarcerated_members w
  ∧ incarcerated_members_json (manage_penitentiary_status ctx member INCARCERATE (Some d) w).2
    = incarcerated_members_json w
  ∧ outbox (manage_penitentiary_status ctx member INCARCERATE (Some d) w).2 = outbox w
  ∧ log (manage_penitentiary_status ctx member INCARCERATE (Some d) w).2
    = log w
      ++ (ERROR, Failed_to_fetch_role Key_incarcerated (INCARCERATED_ROLE_ID cfg)
                   AttributeError)
         :: flat_map
              (λ kr : RoleKey * Z,
                 if bool_decide (kr.2 ∈ guild_roles (remote w)) then []
                 else [(ERROR, Failed_to_fetch_role kr.1 kr.2 AttributeError)])
              [(Key_electoral, ELECTORAL_ROLE_ID cfg); (Key_approved, APPROVED_ROLE_ID cfg);
               (Key_temporary, TEMPORARY_ROLE_ID cfg)]
      ++ [(ERROR, Error_assigning_roles KeyError)].
Proof.
  intros Hg Hi.
  unfold Engine.manage_penitentiary_status, fetch_penitentiary_roles,
    fetch_penitentiary_role, perform_member_incarceration.
  cbn [flat_map fst snd].
  exec.
  destruct (decide (ELECTORAL_ROLE_ID cfg ∈ guild_roles (remote w))) as [He|He]; exec.
  all: destruct (decide (APPROVED_ROLE_ID cfg ∈ guild_roles (remote w))) as [Ha|Ha]; exec.
  all: destruct (decide (TEMPORARY_ROLE_ID cfg ∈ guild_roles (remote w))) as [Ht|Ht]; exec.
  all: repeat split.
  all: cbn [app]; rewrite <- ?app_assoc; reflexivity.
Qed.

(** *** What a release leaves of the records *)

Lemma release_prisoner_fetched member_id data w :
  guild_reachable (remote w) = true →
  member_id ∉ fetch_fails (remote w) →
  release_prisoner member_id data w
  = try_finally
      (try_except
         (λ w, match members (remote w) !! member_id with
               | Some _ => manage_penitentiary_status None member_id RELEASE None w
               | None =>
                   send_error None (Release_member_not_found member_id (release_time data))
                     false w
               end)
         (λ e,
            logger ERROR (Release_failed member_id e (release_time data)) ;;;
            send_error None (Release_failed member_id e (release_time data)) false))
      (modify (set_incarcerated_members (delete member_id)) ;;;
       save_incarcerated_members) w.
Proof.
  intros Hg Hff. unfold Engine.release_prisoner.
  cbn [bind try_except fetch_guild fetch_member ret]. rewrite Hg.
  rewrite (bool_decide_false _ Hff).
  destruct (members (remote w) !! member_id) as [held|] eqn:Hm;
    unfold try_finally, try_except; rewrite Hm; reflexivity.
Qed.

Section Books.
Context (R : relation World) (touched : Z → Prop) `{!Bookkeeping R touched}.

Lemma safe_save_incarcerated_members : safe R save_incarcerated_members.
Proof.
  intros w. unfold save_incarcerated_members. run.
  destruct (storage_ok w); run; (split; [|discriminate]).
  - apply books_save.
  - apply frame_log.
Qed.

Lemma safe_perform_member_release member roles ctx :
  touched member → safe R (perform_member_release member roles ctx).
Proof.
  intros Ht. unfold perform_member_release. safe_auto.
  all: try apply safe_save_incarcerated_members.
  all: try (apply safe_modify; first [apply _ | intros w; now apply books_delete]).
  all: apply safe_send_response; apply _.
Qed.

Lemma safe_fetch_penitentiary_roles : safe R (fetch_penitentiary_roles cfg).
Proof.
  unfold fetch_penitentiary_roles, fetch_penitentiary_role. safe_auto.
  all: match goal with |- safe _ (match ?x with _ => _ end) => destruct x end; safe_auto.
Qed.

Lemma safe_manage_release ctx member :
  touched member → safe R (manage_penitentiary_status ctx member RELEASE None).
Proof.
  intros Ht. unfold Engine.manage_penitentiary_status. safe_auto.
  1: apply safe_fetch_penitentiary_roles.
  1: apply safe_send_response; apply _.
  intros w.
  destruct (safe_perform_member_release member a0 ctx Ht w) as [H1 H2].
  destruct (perform_member_release member a0 ctx w) as [[[]|[]|] w']; cbn [fst snd] in *;
    try (split; [assumption|discriminate]); [|contradiction].
  destruct ctx as [c|].
  - destruct (safe_send_response R (Some (Interaction c)) Error_title
                (Invalid_penitentiary_action RELEASE) false w') as [H3 H4].
    split; [now transitivity w'|exact H4].
  - destruct (safe_logger R ERROR (Invalid_penitentiary_action RELEASE) w') as [H3 H4].
    split; [now transitivity w'|exact H4].
Qed.

End Books.

#[local] Instance releasing_books (m : Z) : Bookkeeping (releasing m) (λ k, k = m).
Proof.
  split; [split; [split|..]|..]; unfold releasing.
  - intros w. split; [reflexivity|now left].
  - intros w1 w2 w3 [H1 H1'] [H2 H2']. split; [congruence|].
    destruct H1' as [H1'|H1'], H2' as [H2'|H2']; rewrite H2', H1'; auto.
    right. apply delete_delete_eq.
  - intros s w. split; [reflexivity|now left].
  - intros l w. split; [reflexivity|now left].
  - intros f w. split; [reflexivity|now left].
  - intros k w ->. split; [reflexivity|now right].
  - intros w. split; [reflexivity|now left].
Qed.

(** X18: [release_prisoner] ends normally and takes the record of the
    member out of the records, in memory and on disk, whenever the guild
    and the member can be fetched without an error and the storage works:
    whether the member is still there or has left, whether they have a
    record or not, and whether the roles can be edited or not.  The records
    of the others stay, and the file holds what the memory holds. *)
Theorem release_prisoner_clears_the_record m d w :
  guild_reachable (remote w) = true →
  m ∉ fetch_fails (remote w) →
  storage_ok w = true →
  (release_prisoner m d w).1 = Ret tt
  ∧ incarcerated_members (release_prisoner m d w).2 = delete m (incarcerated_members w)
  ∧ incarcerated_members_json (release_prisoner m d w).2
    = delete m (incarcerated_members w).
Proof.
  intros Hg Hff Hs. rewrite (release_prisoner_fetched m d w Hg Hff).
  set (body := λ w0 : World,
         match members (remote w0) !! m with
         | Some _ => manage_penitentiary_status None m RELEASE None w0
         | None => send_error None (Release_member_not_found m (release_time d)) false w0
         end).
  assert (Hsafe : safe (releasing m) body).
  { intros w0. unfold body. destruct (members (remote w0) !! m).
    - now apply (safe_manage_release (releasing m) (λ k, k = m)).
    - apply safe_send_response; apply _. }
  clearbody body.
  destruct (Hsafe w) as [(Hs' & Hrec) Hw].
  unfold try_finally, try_except.
  destruct (body w) as [[[]|e|] w']; cbn [fst snd] in *.
  3: contradiction.
  all: unfold save_incarcerated_members; run; rewrite Hs', Hs; run.
  all: split; [reflexivity|].
  all: destruct Hrec as [-> | ->]; rewrite ?delete_delete_eq; split; reflexivity.
Qed.

(** X17: with the storage working, the reconciliation ends normally and
    leaves no incarceration record at all, in memory or on disk, whatever
    the records were and whether they were due or not; and that is all it
    does: nobody's roles change, no release is attempted, no release task
    is started, nothing is logged or sent. *)
Theorem reconciliation_wipes_the_records w :
  storage_ok w = true →
  (check_incarcerated_members w).1 = Ret tt
  ∧ incarcerated_members (check_incarcerated_members w).2 = ∅
  ∧ incarcerated_members_json (check_incarcerated_members w).2 = ∅
  ∧ remote (check_incarcerated_members w).2 = remote w
  ∧ release_tasks (check_incarcerated_members w).2 = release_tasks w
  ∧ log (check_incarcerated_members w).2 = log w
  ∧ outbox (check_incarcerated_members w).2 = outbox w
  ∧ approval_counts (check_incarcerated_members w).2 = approval_counts w.
Proof.
  intros Hs. rewrite (check_incarcerated_members_wipes cfg w Hs). repeat split.
Qed.

End Release.
End ReleaseFacts.

(* ===================================================================== *)
(** * The message monitor                                                *)
(* ===================================================================== *)

Module MonitorFacts.
Import Monitor.
Local Open Scope R_scope.

Section Checks.
Variable isdigit : Z → bool.
Variable isspace : Z → bool.

Lemma check_repetition_same message config user_stats :
  default [] (last_message user_stats) = message →
  _check_repetition message config user_stats
  = ((MAX_REPEATED_MESSAGES config <=? default 0 (repetition_count user_stats) + 1)%Z,
     mk_UserStats (message_timestamps user_stats) (invalid_message_count user_stats)
       (feedback_score user_stats) (recovery_streaks user_stats)
       (last_threshold_adjustment user_stats) (last_message user_stats)
       (Some (default 0 (repetition_count user_stats) + 1)%Z)).
Proof.
  intros H. unfold _check_repetition. rewrite bool_decide_true by congruence. reflexivity.
Qed.

Lemma check_repetition_other message config user_stats :
  default [] (last_message user_stats) ≠ message →
  _check_repetition message config user_stats
  = (false,
     mk_UserStats (message_timestamps user_stats) (invalid_message_count user_stats)
       (feedback_score user_stats) (recovery_streaks user_stats)
       (last_threshold_adjustment user_stats) (Some message) (Some 0%Z)).
Proof.
  intros H. unfold _check_repetition. rewrite bool_decide_false by congruence. reflexivity.
Qed.

(** X20: [_check_repetition] counts how often in a row a message has been
    repeated: a message that differs from the last one is never flagged and
    sets the count to 0; after that, the [n]-th repetition in a row has
    count [n] and is flagged exactly when [n] has reached
    MAX_REPEATED_MESSAGES; nothing else in the entry changes. *)
Theorem repetition_counts_repeats (n : nat) message config user_stats :
  default [] (last_message user_stats) ≠ message →
  resend n message config user_stats
  = (negb (Nat.eqb n 0) && (MAX_REPEATED_MESSAGES config <=? Z.of_nat n)%Z,
     mk_UserStats (message_timestamps user_stats) (invalid_message_count user_stats)
       (feedback_score user_stats) (recovery_streaks user_stats)
       (last_threshold_adjustment user_stats) (Some message) (Some (Z.of_nat n))).
Proof.
  intros Hnew.
  assert (Hrep : ∀ n (c : Z) st,
            last_message st = Some message → repetition_count st = Some c →
            resend n message config st
            = ((MAX_REPEATED_MESSAGES config <=? c + Z.of_nat (S n))%Z,
               mk_UserStats (message_timestamps st) (invalid_message_count st)
                 (feedback_score st) (recovery_streaks st)
                 (last_threshold_adjustment st) (Some message)
                 (Some (c + Z.of_nat (S n))%Z))).
  { clear. induction n as [|n IH]; intros c st Hl Hc; cbn [resend].
    - rewrite check_repetition_same by now rewrite Hl.
      rewrite Hc, Hl. cbn [default]. reflexivity.
    - rewrite check_repetition_same by now rewrite Hl.
      cbn [snd]. rewrite (IH (c + 1)%Z); [|assumption|now rewrite Hc].
      cbn [message_timestamps invalid_message_count feedback_score recovery_streaks
           last_threshold_adjustment].
      replace (c + 1 + Z.of_nat (S n))%Z with (c + Z.of_nat (S (S n)))%Z by lia.
      reflexivity. }
  destruct n as [|n]; cbn [resend].
  - now rewrite check_repetition_other.
  - rewrite check_repetition_other by assumption. cbn [snd].
    rewrite (Hrep n 0%Z); [|reflexivity..]. cbn [Nat.eqb negb andb].
    cbn [message_timestamps invalid_message_count feedback_score recovery_streaks
         last_threshold_adjustment].
    rewrite Z.add_0_l. reflexivity.
Qed.

Lemma INR_length_pos {A} (l : list A) : l ≠ [] → 0 < INR (List.length l).
Proof.
  intros H. destruct l as [|a l]; [contradiction|].
  cbn [List.length]. rewrite S_INR. pose proof (pos_INR (List.length l)). lra.
Qed.

Lemma lt_div_r (x y z : R) : 0 < z → x * z < y ↔ x < y / z.
Proof.
  intros Hz. assert (H : y / z * z = y) by (field; lra). split; intros Hlt.
  - apply (Rmult_lt_reg_r z); [exact Hz|]. now rewrite H.
  - rewrite <- H. now apply Rmult_lt_compat_r.
Qed.

Lemma filter_length_le (l : list Z) :
  (List.length (List.filter isdigit l) <= List.length l)%nat.
Proof. apply List.filter_length_le. Qed.


Lemma clamp_bounds (x : R) : -5 <= Rmax (-5) (Rmin 5 x) <= 5.
Proof.
  unfold Rmax, Rmin. destruct (Rle_dec 5 x); destruct (Rle_dec (-5) _); lra.
Qed.

Lemma check_repetition_keeps_score message config user_stats :
  feedback_score (_check_repetition message config user_stats).2 = feedback_score user_stats
  ∧ invalid_message_count (_check_repetition message config user_stats).2
    = invalid_message_count user_stats
  ∧ message_timestamps (_check_repetition message config user_stats).2
    = message_timestamps user_stats.
Proof. unfold _check_repetition. destruct (bool_decide _); repeat split. Qed.

(** X22: [analyze] reports a violation exactly when its check is switched
    on and fires; with the feedback switched on it lowers the feedback
    score by the number of violations and keeps it between -5 and 5, and
    with it switched off it leaves the score alone; with every flag off it
    reports nothing and leaves the entry as it is. *)
Theorem analyze_reports message user_stats config flags :
  (message_repetition ∈ (analyze isdigit message user_stats config flags).1
   ↔ repetition flags = true
     ∧ (_check_repetition message config user_stats).1 = true)
  ∧ (excessive_digits ∈ (analyze isdigit message user_stats config flags).1
     ↔ digit_ratio flags = true ∧ _check_digit_ratio isdigit message config = true)
  ∧ (low_entropy ∈ (analyze isdigit message user_stats config flags).1
     ↔ entropy flags = true
       ∧ Entropy._check_entropy
           (Entropy.mk_Message message (MIN_MESSAGE_ENTROPY config)) = true)
  ∧ (feedback flags = true →
     feedback_score (analyze isdigit message user_stats config flags).2
     = Rmax (-5)
         (Rmin 5 (feedback_score user_stats
                  - INR (List.length (analyze isdigit message user_stats config flags).1)))
     ∧ -5 <= feedback_score (analyze isdigit message user_stats config flags).2 <= 5)
  ∧ (feedback flags = false →
     feedback_score (analyze isdigit message user_stats config flags).2
     = feedback_score user_stats)
  ∧ (flags = mk_Flags false false false false →
     analyze isdigit message user_stats config flags = ([], user_stats)).
Proof.
  unfold analyze.
  pose proof (check_repetition_keeps_score message config user_stats) as (Hscore & _).
  destruct flags as [frep fdig fent ffb]. cbn [repetition digit_ratio entropy feedback].
  destruct (_check_repetition message config user_stats) as [rep st] eqn:Hrep.
  cbn [fst snd] in *.
  split; [|split; [|split; [|split; [|split]]]].
  - destruct frep, rep, (fdig && _), (fent && _), ffb; cbn;
      split; intros H; try (destruct H; discriminate); try (split; reflexivity);
      repeat (apply elem_of_cons in H as [H|H]; try discriminate);
      try (now apply elem_of_nil in H); try (left; reflexivity).
  - destruct frep, rep, fdig, (_check_digit_ratio isdigit message config), (fent && _), ffb;
      cbn; split; intros H; try (destruct H; discriminate); try (split; reflexivity);
      repeat (apply elem_of_cons in H as [H|H]; try discriminate);
      try (now apply elem_of_nil in H);
      repeat first [left; reflexivity | right].
  - destruct frep, rep, (fdig && _), fent,
      (Entropy._check_entropy (Entropy.mk_Message message (MIN_MESSAGE_ENTROPY config))), ffb;
      cbn; split; intros H; try (destruct H; discriminate); try (split; reflexivity);
      repeat (apply elem_of_cons in H as [H|H]; try discriminate);
      try (now apply elem_of_nil in H);
      repeat first [left; reflexivity | right].
  - intros ->. destruct frep; cbn [fst snd feedback_score];
      (split; [|apply clamp_bounds]); rewrite <- ?Hscore; reflexivity.
  - intros ->. destruct frep; cbn [fst snd]; [exact Hscore|reflexivity].
  - intros [= -> -> -> ->]. reflexivity.
Qed.

Lemma adjusted_in_range (old adj decay min_v max_v default : R) :
  min_v <= max_v → min_v <= adjusted old adj decay min_v max_v default <= max_v.
Proof.
  intros H. unfold adjusted, Rmin, Rmax.
  destruct (Rle_dec (old + adj + (default - old) * (1 - decay)) min_v);
    destruct (Rle_dec _ max_v); lra.
Qed.

Lemma decay_bounds (x : R) : 0 <= x → 0 < exp (- x / 3600) <= 1.
Proof.
  intros Hx. split; [apply exp_pos|].
  rewrite <- exp_0.
  destruct (Req_dec x 0) as [->|Hne].
  - replace (- 0 / 3600) with 0 by field. lra.
  - left. apply exp_increasing. lra.
Qed.

Lemma adjusted_relaxes (old decay min_v max_v default : R) :
  min_v <= old <= max_v → min_v <= default <= max_v → 0 < decay <= 1 →
  adjusted old 0 decay min_v max_v default = default + (old - default) * decay
  ∧ Rabs (adjusted old 0 decay min_v max_v default - default) <= Rabs (old - default).
Proof.
  intros Ho Hd Hdecay.
  assert (Heq : adjusted old 0 decay min_v max_v default = default + (old - default) * decay).
  { unfold adjusted, Rmin, Rmax.
    destruct (Rle_dec (old + 0 + (default - old) * (1 - decay)) min_v);
      destruct (Rle_dec _ max_v); nra. }
  split; [exact Heq|]. rewrite Heq.
  replace (default + (old - default) * decay - default) with ((old - default) * decay) by ring.
  rewrite Rabs_mult, (Rabs_pos_eq decay) by lra.
  pose proof (Rabs_pos (old - default)). nra.
Qed.

Lemma adjust_thresholds_in_range now s user_stats :
  in_range (limit_config s) →
  in_range (limit_config (_adjust_thresholds now s user_stats).1).
Proof.
  unfold _adjust_thresholds, in_range.
  destruct s as [enabled [frep fdig fent ffb] [win maxrep digit ent] st task].
  cbn [message_monitoring_enabled validation_flags limit_config feedback digit_ratio entropy
       DIGIT_RATIO_THRESHOLD MIN_MESSAGE_ENTROPY MAX_REPEATED_MESSAGES
       MESSAGE_WINDOW_SECONDS stats stats_save_task].
  intros [Hd He].
  destruct enabled, ffb, fdig, fent; cbn [negb orb fst limit_config DIGIT_RATIO_THRESHOLD
                                         MIN_MESSAGE_ENTROPY];
    (split; first [assumption | apply adjusted_in_range; lra]).
Qed.

Lemma adjust_thresholds_frame now s user_stats :
  message_monitoring_enabled (_adjust_thresholds now s user_stats).1
    = message_monitoring_enabled s
  ∧ validation_flags (_adjust_thresholds now s user_stats).1 = validation_flags s
  ∧ stats (_adjust_thresholds now s user_stats).1 = stats s
  ∧ feedback_score (_adjust_thresholds now s user_stats).2 = feedback_score user_stats
  ∧ invalid_message_count (_adjust_thresholds now s user_stats).2
    = invalid_message_count user_stats.
Proof.
  unfold _adjust_thresholds.
  destruct (negb _ || negb _); [repeat split|].
  destruct (_ || _); repeat split.
Qed.

Lemma analyze_keeps_sound message user_stats config flags :
  -5 <= feedback_score user_stats <= 5 →
  -5 <= feedback_score (analyze isdigit message user_stats config flags).2 <= 5
  ∧ invalid_message_count (analyze isdigit message user_stats config flags).2
    = invalid_message_count user_stats.
Proof.
  intros Hf. unfold analyze.
  pose proof (check_repetition_keeps_score message config user_stats) as (Hscore & Hinv & _).
  destruct (repetition flags);
    [destruct (_check_repetition message config user_stats) as [rep st]|];
    cbn [fst snd] in *; destruct (feedback flags); cbn [feedback_score invalid_message_count];
    (split; [first [apply clamp_bounds | lra]|congruence]).
Qed.

(** X23: [_adjust_thresholds] does nothing while the monitoring or the
    feedback is switched off; otherwise it keeps, for each check that is
    switched on, the threshold within its bounds (0.1 to 1.0 for the digit
    ratio, 0.0 to 4.0 for the entropy) whatever the feedback and the time
    elapsed, and never touches MAX_REPEATED_MESSAGES; and with a feedback
    score of 0 a threshold that is within its bounds moves towards its
    default (0.5, 1.5) and never away from it. *)
Theorem adjust_thresholds_bounds now s user_stats :
  (message_monitoring_enabled s = false ∨ feedback (validation_flags s) = false →
   _adjust_thresholds now s user_stats = (s, user_stats))
  ∧ (message_monitoring_enabled s = true → feedback (validation_flags s) = true →
     (digit_ratio (validation_flags s) = true →
      0.1 <= DIGIT_RATIO_THRESHOLD (limit_config (_adjust_thresholds now s user_stats).1)
          <= 1.0)
     ∧ (entropy (validation_flags s) = true →
        0.0 <= MIN_MESSAGE_ENTROPY (limit_config (_adjust_thresholds now s user_stats).1)
            <= 4.0))
  ∧ (in_range (limit_config s) →
     in_range (limit_config (_adjust_thresholds now s user_stats).1))
  ∧ MAX_REPEATED_MESSAGES (limit_config (_adjust_thresholds now s user_stats).1)
    = MAX_REPEATED_MESSAGES (limit_config s)
  ∧ (feedback_score user_stats = 0 →
     last_threshold_adjustment user_stats <= now →
     in_range (limit_config s) →
     Rabs (DIGIT_RATIO_THRESHOLD (limit_config (_adjust_thresholds now s user_stats).1)
           - 0.5)
       <= Rabs (DIGIT_RATIO_THRESHOLD (limit_config s) - 0.5)
     ∧ Rabs (MIN_MESSAGE_ENTROPY (limit_config (_adjust_thresholds now s user_stats).1)
             - 1.5)
       <= Rabs (MIN_MESSAGE_ENTROPY (limit_config s) - 1.5)).
Proof.
  unfold _adjust_thresholds, in_range.
  destruct s as [enabled [frep fdig fent ffb] [win maxrep digit ent] st task].
  cbn [message_monitoring_enabled validation_flags limit_config feedback digit_ratio entropy
       DIGIT_RATIO_THRESHOLD MIN_MESSAGE_ENTROPY MAX_REPEATED_MESSAGES
       MESSAGE_WINDOW_SECONDS stats stats_save_task].
  split; [|split; [|split; [|split]]].
  - intros [->| ->]; [reflexivity|]. now rewrite orb_true_r.
  - intros -> ->. cbn [negb orb].
    split; intros ->; cbn [orb]; [|rewrite orb_true_r];
      cbn [fst limit_config DIGIT_RATIO_THRESHOLD MIN_MESSAGE_ENTROPY];
      apply adjusted_in_range; lra.
  - exact (adjust_thresholds_in_range now
             (mk_Monitoring enabled (mk_Flags frep fdig fent ffb)
                (mk_Limits win maxrep digit ent) st task) user_stats).
  - destruct enabled, ffb, fdig, fent; reflexivity.
  - intros Hfb Hlast [Hd He]. rewrite Hfb.
    replace (0.01 * 0 * tanh (Rabs 0 / 5)) with 0 by ring.
    pose proof (decay_bounds (now - last_threshold_adjustment user_stats) ltac:(lra))
      as Hdecay.
    destruct enabled, ffb, fdig, fent; cbn [negb orb fst limit_config DIGIT_RATIO_THRESHOLD
                                           MIN_MESSAGE_ENTROPY];
      (split; first [apply Rle_refl | apply adjusted_relaxes; lra]).
Qed.

(** X24: the listener counts only the messages of members who hold the
    temporary role: while the monitoring is off, for a bot, outside a guild,
    when the member cannot be fetched, and for a member without the
    temporary role it leaves everything as it is; for an author whom the
    directory does not know the [AttributeError] of [member.roles]
    escapes. *)
Theorem on_message_create_ignores config directory monotonic now event s :
  (message_monitoring_enabled s = false
   ∨ author_bot event = true
   ∨ in_guild event = false
   ∨ author_id event ∈ Engine.fetch_fails directory
   ∨ (∃ roles, Engine.members directory !! author_id event = Some roles
               ∧ Engine.TEMPORARY_ROLE_ID config ∉ roles) →
   on_message_create isdigit isspace config directory monotonic now event s = inr s)
  ∧ (message_monitoring_enabled s = true →
     author_bot event = false →
     in_guild event = true →
     author_id event ∉ Engine.fetch_fails directory →
     Engine.members directory !! author_id event = None →
     on_message_create isdigit isspace config directory monotonic now event s
     = inl Engine.AttributeError).
Proof.
  unfold on_message_create. split.
  - intros H.
    destruct (message_monitoring_enabled s); [|reflexivity].
    destruct (author_bot event); [reflexivity|].
    destruct (in_guild event); [|reflexivity]. cbn [negb orb].
    destruct (decide (author_id event ∈ Engine.fetch_fails directory)) as [Hff|Hff];
      [now rewrite bool_decide_true|rewrite bool_decide_false by assumption].
    destruct H as [H|[H|[H|[H|(roles & Hm & Ht)]]]]; try discriminate; [contradiction|].
    rewrite Hm. now rewrite (bool_decide_false _ Ht).
  - intros -> -> -> Hff Hm. cbn [negb orb]. rewrite bool_decide_false by assumption.
    now rewrite Hm.
Qed.

Lemma on_message_create_counts config directory monotonic now event s roles :
  message_monitoring_enabled s = true →
  author_bot event = false →
  in_guild event = true →
  author_id event ∉ Engine.fetch_fails directory →
  Engine.members directory !! author_id event = Some roles →
  Engine.TEMPORARY_ROLE_ID config ∈ roles →
  ∃ s', on_message_create isdigit isspace config directory monotonic now event s = inr s'.
Proof.
  intros He Hb Hg Hff Hm Ht. unfold on_message_create.
  rewrite He, Hb, Hg. cbn [negb orb].
  rewrite (bool_decide_false _ Hff), Hm, (bool_decide_true _ Ht). cbn [negb].
  destruct (analyze _ _ _ _ _) as [violations stats2].
  destruct (_adjust_thresholds _ _ _) as [s1 stats4].
  eexists. reflexivity.
Qed.

(** X25: the listener keeps the books sound: if every entry has its
    feedback score between -5 and 5 and a count of invalid messages that is
    not negative, so has every entry afterwards; the entries of the other
    members are untouched; thresholds that were within their bounds stay
    within them; and the switches are as they were. *)
Theorem on_message_create_keeps_entries_sound config directory monotonic now event s s' :
  (∀ k st, stats s !! k = Some st → sound st) →
  on_message_create isdigit isspace config directory monotonic now event s = inr s' →
  (∀ k st, stats s' !! k = Some st → sound st)
  ∧ (∀ k, k ≠ author_id event → stats s' !! k = stats s !! k)
  ∧ (in_range (limit_config s) → in_range (limit_config s'))
  ∧ message_monitoring_enabled s' = message_monitoring_enabled s
  ∧ validation_flags s' = validation_flags s.
Proof.
  intros Hsound. unfold on_message_create.
  destruct (negb _ || _ || negb _); [intros [= <-]; split; [exact Hsound|split; [reflexivity|split; [tauto|split; reflexivity]]]|].
  destruct (bool_decide _); [intros [= <-]; split; [exact Hsound|split; [reflexivity|split; [tauto|split; reflexivity]]]|].
  destruct (Engine.members directory !! author_id event) as [roles|]; [|discriminate].
  destruct (negb _); [intros [= <-]; split; [exact Hsound|split; [reflexivity|split; [tauto|split; reflexivity]]]|].
  set (stats0 := default UserStats_default (stats s !! author_id event)).
  assert (H0 : sound stats0).
  { unfold stats0. destruct (stats s !! author_id event) as [st|] eqn:Hst;
      [exact (Hsound _ _ Hst)|]. cbn. unfold sound. cbn. split; [lra|lia]. }
  match goal with |- context [analyze isdigit ?m ?st ?c ?f] =>
    pose proof (analyze_keeps_sound m st c f) as Ha;
    destruct (analyze isdigit m st c f) as [violations stats2] end.
  cbn [fst snd feedback_score invalid_message_count] in Ha.
  destruct H0 as [Hf0 Hi0]. destruct (Ha Hf0) as [Hf2 Hi2]. clear Ha.
  match goal with |- context [_adjust_thresholds now s ?st] =>
    pose proof (adjust_thresholds_in_range now s st) as Hrange;
    pose proof (adjust_thresholds_frame now s st) as (He & Hfl & Hst & Hf4 & Hi4);
    destruct (_adjust_thresholds now s st) as [s1 stats4] end.
  cbn [fst snd feedback_score invalid_message_count] in *.
  intros [= <-].
  cbn [stats limit_config message_monitoring_enabled validation_flags].
  split; [|split; [|split; [|split]]]; try assumption.
  - intros k st Hk. destruct (decide (k = author_id event)) as [->|Hne].
    + rewrite lookup_insert_eq in Hk. injection Hk as <-. split.
      * rewrite Hf4. destruct violations; unfold Rmin, Rmax;
          destruct (Rle_dec _ _); lra.
      * rewrite Hi4, Hi2. destruct violations; [|lia].
        destruct (0 <? invalid_message_count stats0)%Z eqn:Hpos; [|lia].
        apply Z.ltb_lt in Hpos. lia.
    + rewrite lookup_insert_ne in Hk by congruence. rewrite Hst in Hk.
      exact (Hsound _ _ Hk).
  - intros k Hne. rewrite lookup_insert_ne by congruence. now rewrite Hst.
Qed.

End Checks.
End MonitorFacts.

(* ===================================================================== *)
(** * Retrying                                                           *)
(* ===================================================================== *)

Module RetryFacts.
Import Retry.
Local Open Scope R_scope.

Section Retry.
Context {St E A : Type}.
Variable func : St → (E + A) * St.

Lemma backoff_S delay j : backoff delay (S j) = backoff delay j ++ [delay * 2 ^ j].
Proof. unfold backoff. rewrite seq_S, map_app. reflexivity. Qed.

Lemma total_app l1 l2 : total (l1 ++ l2) = total l1 + total l2.
Proof. unfold total. induction l1 as [|x l1 IH]; cbn [app fold_right]; lra. Qed.

Lemma total_backoff delay j : total (backoff delay j) = delay * (2 ^ j - 1).
Proof.
  induction j as [|j IH]; [unfold total; cbn; lra|].
  rewrite backoff_S, total_app, IH. unfold total. cbn [fold_right pow]. lra.
Qed.

Lemma attempts_spec (len first : nat) (max_retries : Z) delay s (fx : Effects E) :
  max_retries = Z.of_nat (first + len) →
  sleeps fx = backoff delay first →
  map fst (warnings fx) = map (λ i, Z.of_nat (S i)) (seq 0 first) →
  ∃ j, (first ≤ j)%nat
       ∧ sleeps (attempts func (map Z.of_nat (seq first len)) max_retries delay s fx).2
         = backoff delay j
       ∧ map fst (warnings (attempts func (map Z.of_nat (seq first len)) max_retries
                              delay s fx).2)
         = map (λ i, Z.of_nat (S i)) (seq 0 j)
       ∧ (j < first + len ∨ len = 0)%nat
       ∧ (∀ e, (attempts func (map Z.of_nat (seq first len)) max_retries delay s fx).1.1
               = inl e → S j = (first + len)%nat)
       ∧ ((attempts func (map Z.of_nat (seq first len)) max_retries delay s fx).1.1
            = inr None → len = 0%nat).
Proof.
  revert first s fx. induction len as [|len IH]; intros first s fx Hmax Hs Hw.
  - cbn. exists first. repeat split; try assumption; try lia; try discriminate.
  - cbn [seq map attempts]. destruct (func s) as [[e|a] s'].
    + destruct (Z.eqb_spec (Z.of_nat first) (max_retries - 1)) as [Heq|Hne].
      * exists first. cbn. repeat split; try assumption; try lia; try discriminate.
      * destruct (IH (S first) s'
                    (mk_Effects (warnings fx ++ [((Z.of_nat first + 1)%Z, e)])
                       (sleeps fx ++ [delay * 2 ^ Z.to_nat (Z.of_nat first)])))
          as (j & Hj & H1 & H2 & H3 & H4 & H5).
        -- lia.
        -- cbn [sleeps]. rewrite Hs, Nat2Z.id. symmetry. apply backoff_S.
        -- cbn [warnings]. rewrite map_app, Hw, seq_S, map_app. cbn [map fst Nat.add].
           do 2 f_equal. lia.
        -- exists j. repeat split; try assumption; try lia.
           ++ intros e' He'. specialize (H4 e' He'). lia.
           ++ intros Hn. specialize (H5 Hn). subst len. lia.
    + exists first. cbn. repeat split; try assumption; try lia; try discriminate.
Qed.

(** X26: [async_retry] with no attempt to make ([max_retries] at most 0)
    returns None without a call; with a positive [max_retries] it does not
    return None: after the [i]-th failure that is not the last attempt it
    logs a warning numbered [i] and sleeps [delay * 2**(i-1)] seconds, so
    that [j] failures cost [delay * (2**j - 1)] seconds in all; it raises
    only at attempt number [max_retries], after [max_retries - 1]
    sleeps; and when the first call succeeds it returns
    that result at once, with no warning and no sleep. *)
Theorem async_retry_backs_off (max_retries : Z) (delay : R) (s : St) :
  ((max_retries ≤ 0)%Z →
   async_retry func max_retries delay s = (inr None, s, mk_Effects [] []))
  ∧ ((0 < max_retries)%Z →
     ∃ j : nat,
       (Z.of_nat j < max_retries)%Z
       ∧ sleeps (async_retry func max_retries delay s).2 = backoff delay j
       ∧ map fst (warnings (async_retry func max_retries delay s).2)
         = map (λ i, Z.of_nat (S i)) (seq 0 j)
       ∧ total (sleeps (async_retry func max_retries delay s).2) = delay * (2 ^ j - 1)
       ∧ (∀ e, (async_retry func max_retries delay s).1.1 = inl e →
               Z.of_nat j = (max_retries - 1)%Z)
       ∧ (async_retry func max_retries delay s).1.1 ≠ inr None)
  ∧ (∀ a s', func s = (inr a, s') → (0 < max_retries)%Z →
       async_retry func max_retries delay s = (inr (Some a), s', mk_Effects [] [])).
Proof.
  unfold async_retry, range. split; [|split].
  - intros Hle. replace (Z.to_nat max_retries) with 0%nat by lia. reflexivity.
  - intros Hpos.
    destruct (attempts_spec (Z.to_nat max_retries) 0 max_retries delay s (mk_Effects [] []))
      as (j & _ & H1 & H2 & H3 & H4 & H5); [lia|reflexivity|reflexivity|].
    exists j. split; [lia|]. split; [exact H1|]. split; [exact H2|].
    split; [rewrite H1; apply total_backoff|]. split.
    + intros e He. specialize (H4 e He). lia.
    + intros Hn. specialize (H5 Hn). lia.
  - intros a s' Hf Hpos.
    destruct (Z.to_nat max_retries) as [|n] eqn:Hn; [lia|].
    cbn [seq map attempts]. now rewrite Hf.
Qed.

End Retry.
End RetryFacts.

(* ===================================================================== *)
(** * Custom roles                                                       *)
(* ===================================================================== *)

Module RegistryFacts.
Import Registry.
Local Open Scope Z_scope.

Lemma singleton_not_empty (role : string) : (∅ ∪ {[role]} : gset string) ≠ ∅.
Proof.
  rewrite (left_id_L (∅ : gset string) (∪)). intros H.
  apply (not_elem_of_empty (C := gset string) role). rewrite <- H.
  now apply elem_of_singleton.
Qed.

Lemma difference_singleton_empty (X : gset Z) (u : Z) :
  u ∈ X → X ∖ {[u]} = ∅ ↔ X = {[u]}.
Proof.
  intros Hu. split; intros H.
  - apply set_eq. intros x. rewrite elem_of_singleton. split; [|now intros ->].
    intros Hx. destruct (decide (x = u)) as [|Hne]; [assumption|].
    exfalso. apply (not_elem_of_empty (C := gset Z) x). rewrite <- H.
    apply elem_of_difference. split; [assumption|]. now rewrite elem_of_singleton.
  - rewrite H. apply set_eq. intros x.
    rewrite elem_of_difference, elem_of_singleton. split; [tauto|].
    intros Hx. now apply not_elem_of_empty in Hx.
Qed.

Lemma empty_is_empty : ¬ ((∅ : gset string) ≠ ∅).
Proof. intros H. now apply H. Qed.

(** X27: on a role that was made while the bot runs, [update_custom_roles]
    adds a user who is not a member and removes one who is, saves, and
    answers with the role; a user who already is (is not) a member makes an
    addition (a removal) a no-op that saves nothing and answers with the
    empty set; the role whose last member goes is deleted. *)
Theorem update_custom_roles_on_a_set user_id role action members r :
  custom_roles r !! role = Some members →
  frozen members = false →
  storage_ok r = true →
  (action = Engine.ADD → user_id ∉ ids members →
   update_custom_roles user_id [role] action r
   = (inr {[role]},
      mk_Registry
        (<[role := mk_RoleMembers false (ids members ∪ {[user_id]})]> (custom_roles r))
        (<[role := ids members ∪ {[user_id]}]> (ids <$> custom_roles r)) true))
  ∧ (action = Engine.REMOVE → user_id ∈ ids members → ids members ≠ {[user_id]} →
     update_custom_roles user_id [role] action r
     = (inr {[role]},
        mk_Registry
          (<[role := mk_RoleMembers false (ids members ∖ {[user_id]})]> (custom_roles r))
          (<[role := ids members ∖ {[user_id]}]> (ids <$> custom_roles r)) true))
  ∧ (action = Engine.REMOVE → ids members = {[user_id]} →
     update_custom_roles user_id [role] action r
     = (inr {[role]},
        mk_Registry (delete role (custom_roles r)) (delete role (ids <$> custom_roles r))
          true))
  ∧ ((action = Engine.ADD ∧ user_id ∈ ids members)
     ∨ (action = Engine.REMOVE ∧ user_id ∉ ids members) →
     update_custom_roles user_id [role] action r = (inr ∅, r)).
Proof.
  intros Hrole Hset Hok. unfold update_custom_roles, update_each, update_one, save_custom_roles.
  rewrite Hrole, Hset. cbv zeta. split; [|split; [|split]].
  - intros -> Hnot. rewrite (bool_decide_true _ Hnot).
    rewrite (bool_decide_true _ (singleton_not_empty role)).
    cbn [storage_ok custom_roles custom_json]. rewrite Hok.
    rewrite fmap_insert. cbn [ids]. now rewrite (left_id_L (∅ : gset string) (∪)).
  - intros -> Hin Hmore. rewrite (bool_decide_true _ Hin).
    rewrite (bool_decide_false (ids members ∖ {[user_id]} = ∅))
      by (intros H; apply Hmore; exact (proj1 (difference_singleton_empty _ _ Hin) H)).
    rewrite (bool_decide_true _ (singleton_not_empty role)).
    cbn [storage_ok custom_roles custom_json]. rewrite Hok.
    rewrite fmap_insert. cbn [ids]. now rewrite (left_id_L (∅ : gset string) (∪)).
  - intros -> Hone.
    rewrite (bool_decide_true (user_id ∈ ids members))
      by (rewrite Hone; now apply elem_of_singleton).
    rewrite (bool_decide_true (ids members ∖ {[user_id]} = ∅))
      by (apply difference_singleton_empty; [rewrite Hone; now apply elem_of_singleton|exact Hone]).
    rewrite (bool_decide_true _ (singleton_not_empty role)).
    cbn [storage_ok custom_roles custom_json]. rewrite Hok.
    rewrite fmap_delete. now rewrite (left_id_L (∅ : gset string) (∪)).
  - intros [[-> Hin]|[-> Hnot]].
    + rewrite (bool_decide_false (user_id ∉ ids members)) by (intros H; contradiction).
      now rewrite (bool_decide_false _ empty_is_empty).
    + rewrite (bool_decide_false _ Hnot).
      now rewrite (bool_decide_false _ empty_is_empty).
Qed.

(** X28: for a role the registry does not know, [update_custom_roles]
    makes the role with no member, whatever the action, saves, and answers
    with the role: an addition to an unknown role does not add the user. *)
Theorem update_custom_roles_unknown_role user_id role action r :
  custom_roles r !! role = None →
  storage_ok r = true →
  update_custom_roles user_id [role] action r
  = (inr {[role]},
     mk_Registry (<[role := mk_RoleMembers false ∅]> (custom_roles r))
       (<[role := ∅]> (ids <$> custom_roles r)) true).
Proof.
  intros Hrole Hok. unfold update_custom_roles, update_each, update_one, save_custom_roles.
  rewrite Hrole. rewrite (bool_decide_true _ (singleton_not_empty role)).
  cbn [storage_ok custom_roles custom_json]. rewrite Hok.
  rewrite fmap_insert. cbn [ids]. now rewrite (left_id_L (∅ : gset string) (∪)).
Qed.

(** X29: a role as [load_data] reads it from [custom.json] holds a
    [frozenset]: adding a user who is not a member, or removing one who is,
    ends with the [AttributeError] of the missing method, and neither the
    registry nor the file changes. *)
Theorem update_custom_roles_loaded_role user_id role action r members :
  custom_json r !! role = Some members →
  (action = Engine.ADD ∧ user_id ∉ members) ∨ (action = Engine.REMOVE ∧ user_id ∈ members) →
  update_custom_roles user_id [role] action (load_custom_roles r)
  = (inl AttributeError, load_custom_roles r).
Proof.
  intros Hrole Hact. unfold update_custom_roles, update_each, update_one, load_custom_roles.
  cbn [custom_roles]. rewrite lookup_fmap, Hrole. cbn [fmap option_fmap option_map frozen ids].
  destruct Hact as [[-> H]|[-> H]].
  - now rewrite (bool_decide_true _ H).
  - now rewrite (bool_decide_true _ H).
Qed.

(** X30: on a role made while the bot runs that has some member, adding a
    user who is not a member and then removing them leaves the registry of
    custom roles as it was. *)
Theorem custom_role_add_then_remove user_id role members r :
  custom_roles r !! role = Some members →
  frozen members = false →
  storage_ok r = true →
  user_id ∉ ids members →
  ids members ≠ ∅ →
  custom_roles
    (update_custom_roles user_id [role] Engine.REMOVE
       (update_custom_roles user_id [role] Engine.ADD r).2).2
  = custom_roles r
  ∧ (update_custom_roles user_id [role] Engine.REMOVE
       (update_custom_roles user_id [role] Engine.ADD r).2).1 = inr {[role]}.
Proof.
  intros Hrole Hset Hok Hnot Hsome.
  assert (Hadd : update_custom_roles user_id [role] Engine.ADD r
            = (inr {[role]},
               mk_Registry
                 (<[role := mk_RoleMembers false (ids members ∪ {[user_id]})]> (custom_roles r))
                 (<[role := ids members ∪ {[user_id]}]> (ids <$> custom_roles r)) true)).
  { unfold update_custom_roles, update_each, update_one, save_custom_roles.
    rewrite Hrole, Hset. rewrite (bool_decide_true _ Hnot).
    rewrite (bool_decide_true _ (singleton_not_empty role)).
    cbn [storage_ok custom_roles custom_json]. rewrite Hok.
    rewrite fmap_insert. cbn [ids]. now rewrite (left_id_L (∅ : gset string) (∪)). }
  rewrite Hadd. cbn [snd].
  unfold update_custom_roles, update_each, update_one, save_custom_roles.
  cbn [custom_roles storage_ok custom_json]. rewrite lookup_insert_eq. cbn [frozen ids].
  cbv zeta.
  assert (Hback : (ids members ∪ {[user_id]}) ∖ {[user_id]} = ids members).
  { apply set_eq. intros x. rewrite elem_of_difference, elem_of_union, elem_of_singleton.
    split; [tauto|]. intros Hx. split; [now left|]. intros ->. contradiction. }
  rewrite (bool_decide_true (user_id ∈ ids members ∪ {[user_id]}))
    by (apply elem_of_union_r; now apply elem_of_singleton).
  rewrite Hback. rewrite (bool_decide_false _ Hsome).
  rewrite (bool_decide_true _ (singleton_not_empty role)).
  cbn [storage_ok custom_roles custom_json fst snd].
  rewrite insert_insert_eq. split.
  - apply insert_id. rewrite Hrole. f_equal. destruct members as [f i]. cbn in *. now subst f.
  - now rewrite (left_id_L (∅ : gset string) (∪)).
Qed.

End RegistryFacts.

(* ===================================================================== *)
(** * The further properties on concrete worlds                          *)
(* ===================================================================== *)

Module CasesFacts.
Import Engine Notions Scenario Cases.
Local Open Scope Z_scope.

Ltac by_decision := apply (bool_decide_unpack _); vm_compute; exact I.

Lemma no_lock_is_free (w : World) (member : Z) :
  member_role_locks w = ∅ → lock_free w member.
Proof. intros H info. rewrite H, lookup_empty. discriminate. Qed.

Lemma reaches_handler_without_ledger ctx r now owner held :
  validate_vetting_permissions Config_default ctx = true →
  channels r !! channel_id ctx = Some (GuildPublicThread owner) →
  guild_reachable r = true →
  owner ∉ fetch_fails r →
  members r !! owner = Some held →
  ELECTORAL_ROLE_ID Config_default ∈ guild_roles r →
  APPROVED_ROLE_ID Config_default ∈ guild_roles r →
  reaches_handler Config_default ctx (initial_World r ∅ now) owner held.
Proof.
  intros Hp Hc Hg Hf Hm He Ha. unfold reaches_handler.
  split; [exact Hp|]. split; [exact Hc|]. split; [exact Hg|]. split; [exact Hf|].
  split; [exact Hm|]. split; [now apply no_lock_is_free|]. split; [exact He|].
  split; [exact Ha|]. cbn. rewrite lookup_empty. cbn. apply not_elem_of_empty.
Qed.

Lemma update_member_roles_refused_witness :
  update_member_roles 42 (ELECTORAL_ROLE_ID Config_default) (APPROVED_ROLE_ID Config_default)
    {[TEMPORARY_ROLE_ID Config_default]} edits_refused
  = (Ret false,
     add_log (ERROR, Critical_role_update_error 42 RemoteError) edits_refused).
Proof.
  apply VettingMore.update_member_roles_refused.
  - vm_compute; reflexivity.
  - by_decision.
  - right. by_decision.
Defined.

Lemma vote_without_permission_witness :
  vote Config_default bystander APPROVED third_vote_world
  = (Ret None,
     add_sent (To (Interaction bystander) Error_title Insufficient_permissions)
       third_vote_world).
Proof. apply VettingMore.vote_without_permission. vm_compute; reflexivity. Defined.

Lemma vote_outside_a_thread_witness :
  (vote Config_default stray_reviewer REJECTED third_vote_world).1
  = Raise ValueError_not_in_thread.
Proof.
  rewrite (VettingMore.vote_outside_a_thread Config_default stray_reviewer REJECTED
             third_vote_world).
  - reflexivity.
  - vm_compute; reflexivity.
  - intros owner. vm_compute. discriminate.
Defined.

Lemma vote_on_departed_member_witness :
  vote Config_default third_reviewer APPROVED member_departed
  = (Ret None,
     add_sent (To (Interaction third_reviewer) Error_title Member_not_found_in_server)
       member_departed).
Proof.
  apply (VettingMore.vote_on_departed_member Config_default third_reviewer APPROVED
           member_departed 42).
  - vm_compute; reflexivity.
  - vm_compute; reflexivity.
  - reflexivity.
  - by_decision.
  - vm_compute; reflexivity.
Defined.

Lemma approval_below_quorum_witness :
  (on_approve_member Config_default third_reviewer first_vote_world).1
  = Ret (Some Approval_registered_result)
  ∧ approval_counts (on_approve_member Config_default third_reviewer first_vote_world).2 !! 7
    = Some (mk_Approval 1 0 {[103]} None)
  ∧ roles_of 42 (on_approve_member Config_default third_reviewer first_vote_world).2
    = roles_of 42 first_vote_world.
Proof.
  destruct (VettingMore.approval_below_quorum Config_default third_reviewer first_vote_world 42
              {[TEMPORARY_ROLE_ID Config_default]}) as (H1 & H2 & _ & H4 & _).
  - apply reaches_handler_without_ledger;
      first [reflexivity | vm_compute; reflexivity | by_decision].
  - by_decision.
  - vm_compute; reflexivity.
  - split; [exact H1|]. split.
    + etransitivity; [exact H2|vm_compute; reflexivity].
    + unfold roles_of. now rewrite H4.
Defined.

Lemma rejection_below_quorum_witness :
  (on_reject_member Config_default third_reviewer approved_member).1
  = Ret (Some Rejection_registered_result)
  ∧ approval_counts (on_reject_member Config_default third_reviewer approved_member).2 !! 7
    = Some (mk_Approval 0 1 {[103]} None)
  ∧ roles_of 42 (on_reject_member Config_default third_reviewer approved_member).2
    = roles_of 42 approved_member.
Proof.
  destruct (VettingMore.rejection_below_quorum Config_default third_reviewer approved_member 42
              {[ELECTORAL_ROLE_ID Config_default; 555]}) as (H1 & H2 & _ & H4 & _).
  - apply reaches_handler_without_ledger;
      first [reflexivity | vm_compute; reflexivity | by_decision].
  - by_decision.
  - intros stamped H. vm_compute in H. discriminate.
  - vm_compute; reflexivity.
  - split; [exact H1|]. split.
    + etransitivity; [exact H2|vm_compute; reflexivity].
    + unfold roles_of. now rewrite H4.
Defined.

Lemma rejection_quorum_demotes_witness :
  (on_reject_member Config_default third_reviewer third_rejection_world).1
  = Ret (Some Rejected_with_role_updates)
  ∧ roles_of 42 (on_reject_member Config_default third_reviewer third_rejection_world).2
    = {[APPROVED_ROLE_ID Config_default; 555]}
  ∧ approval_counts (on_reject_member Config_default third_reviewer third_rejection_world).2
    = ∅.
Proof.
  destruct (VettingMore.rejection_quorum_demotes Config_default third_reviewer
              third_rejection_world 42 {[ELECTORAL_ROLE_ID Config_default; 555]})
    as (H1 & H2 & H3 & _).
  - unfold reaches_handler.
    split; [vm_compute; reflexivity|]. split; [vm_compute; reflexivity|].
    split; [reflexivity|]. split; [by_decision|]. split; [vm_compute; reflexivity|].
    split; [apply no_lock_is_free; reflexivity|]. split; [by_decision|].
    split; by_decision.
  - by_decision.
  - discriminate.
  - by_decision.
  - intros stamped H. vm_compute in H. discriminate.
  - vm_compute; reflexivity.
  - split; [exact H1|]. split.
    + unfold roles_of. rewrite H2. vm_compute; reflexivity.
    + rewrite H3. vm_compute; reflexivity.
Defined.

Lemma member_lock_leaves_free_fresh_locks_witness :
  locked (mk_LockInfo false 1000000) = false
  ∧ clock (member_lock 42 (ret tt) first_vote_world).2 - last_used (mk_LockInfo false 1000000)
    ≤ hour_us.
Proof.
  apply (LocksMore.member_lock_leaves_free_fresh_locks 42 (ret tt) first_vote_world 42
           (mk_LockInfo false 1000000)).
  - vm_compute. discriminate.
  - vm_compute; reflexivity.
Defined.

Lemma vote_on_locked_member_waits_witness :
  (vote Config_default other_reviewer REJECTED vote_in_flight).1 = Wait
  ∧ approval_counts (vote Config_default other_reviewer REJECTED vote_in_flight).2
    = approval_counts vote_in_flight
  ∧ remote (vote Config_default other_reviewer REJECTED vote_in_flight).2
    = remote vote_in_flight.
Proof.
  destruct (LocksMore.vote_on_locked_member_waits Config_default other_reviewer REJECTED
              vote_in_flight 1 {[TEMPORARY_ROLE_ID Config_default]}
              (mk_LockInfo true 1000000)) as (H1 & _ & H3 & H4 & _).
  - vm_compute; reflexivity.
  - vm_compute; reflexivity.
  - reflexivity.
  - by_decision.
  - vm_compute; reflexivity.
  - vm_compute; reflexivity.
  - reflexivity.
  - split; [exact H1|]. split; [exact H3|exact H4].
Defined.

Lemma incarceration_takes_watched_roles_witness :
  (manage_penitentiary_status Config_default (Some warden) 42 INCARCERATE (Some 3600)
     first_vote_world).1 = Ret tt
  ∧ roles_of 42 (manage_penitentiary_status Config_default (Some warden) 42 INCARCERATE
                   (Some 3600) first_vote_world).2
    = {[INCARCERATED_ROLE_ID Config_default]}
  ∧ incarcerated_members
      (manage_penitentiary_status Config_default (Some warden) 42 INCARCERATE (Some 3600)
         first_vote_world).2 !! 42
    = Some sentence.
Proof.
  destruct (PenitentiaryMore.incarceration_takes_watched_roles Config_default warden 42 3600
              first_vote_world {[TEMPORARY_ROLE_ID Config_default]})
    as (H1 & H2 & H3 & _).
  - reflexivity.
  - by_decision.
  - by_decision.
  - by_decision.
  - by_decision.
  - vm_compute; reflexivity.
  - by_decision.
  - reflexivity.
  - split; [exact H1|]. split.
    + unfold roles_of. rewrite H2. vm_compute; reflexivity.
    + rewrite H3. vm_compute; reflexivity.
Defined.

Lemma incarceration_refused_witness :
  manage_penitentiary_status Config_default (Some warden) 42 INCARCERATE (Some 3600)
    edits_refused
  = (Ret tt, add_log (ERROR, Error_assigning_roles RemoteError) edits_refused).
Proof.
  apply (PenitentiaryMore.incarceration_refused Config_default (Some warden) 42 3600
           edits_refused {[TEMPORARY_ROLE_ID Config_default]}).
  - reflexivity.
  - by_decision.
  - by_decision.
  - by_decision.
  - by_decision.
  - vm_compute; reflexivity.
  - by_decision.
Defined.

Lemma release_restores_recorded_roles_witness :
  (release_member Config_default warden 42 inmate).1 = Ret tt
  ∧ roles_of 42 (release_member Config_default warden 42 inmate).2
    = {[TEMPORARY_ROLE_ID Config_default; 555]}
  ∧ incarcerated_members (release_member Config_default warden 42 inmate).2 = ∅
  ∧ incarcerated_members_json (release_member Config_default warden 42 inmate).2 = ∅.
Proof.
  destruct (PenitentiaryMore.release_restores_recorded_roles Config_default warden 42 inmate
              {[INCARCERATED_ROLE_ID Config_default; 555]} sentence)
    as (H1 & H2 & H3 & H4 & _).
  - vm_compute; reflexivity.
  - reflexivity.
  - by_decision.
  - by_decision.
  - by_decision.
  - by_decision.
  - vm_compute; reflexivity.
  - by_decision.
  - reflexivity.
  - vm_compute; reflexivity.
  - split; [exact H1|]. split; [|split].
    + unfold roles_of. rewrite H2. vm_compute; reflexivity.
    + rewrite H3. vm_compute; reflexivity.
    + rewrite H4. vm_compute; reflexivity.
Defined.


Lemma incarceration_without_incarcerated_role_witness :
  (manage_penitentiary_status Config_default (Some warden) 42 INCARCERATE (Some 3600)
     no_roles).1 = Ret tt
  ∧ incarcerated_members
      (manage_penitentiary_status Config_default (Some warden) 42 INCARCERATE (Some 3600)
         no_roles).2 = ∅
  ∧ outbox
      (manage_penitentiary_status Config_default (Some warden) 42 INCARCERATE (Some 3600)
         no_roles).2 = [].
Proof.
  destruct (ReleaseFacts.incarceration_without_incarcerated_role Config_default
              (Some warden) 42 3600 no_roles) as (H1 & _ & H3 & _ & H5 & _).
  - reflexivity.
  - by_decision.
  - split; [exact H1|]. split; [exact H3|exact H5].
Defined.

Lemma reconciliation_wipes_the_records_witness :
  incarcerated_members_json release_day !! 43 = Some due_soon
  ∧ clock release_day < release_time due_soon * 1000000
  ∧ (check_incarcerated_members Config_default release_day).1 = Ret tt
  ∧ incarcerated_members_json (check_incarcerated_members Config_default release_day).2 = ∅
  ∧ roles_of 42 (check_incarcerated_members Config_default release_day).2
    = {[INCARCERATED_ROLE_ID Config_default]}.
Proof.
  split; [vm_compute; reflexivity|]. split; [vm_compute; reflexivity|].
  destruct (ReleaseFacts.reconciliation_wipes_the_records Config_default release_day)
    as (H1 & _ & H3 & H4 & _).
  - reflexivity.
  - split; [exact H1|]. split; [exact H3|].
    unfold roles_of. rewrite H4. vm_compute; reflexivity.
Defined.

Lemma release_prisoner_clears_the_record_witness :
  (release_prisoner Config_default 42 sentence inmate).1 = Ret tt
  ∧ incarcerated_members_json (release_prisoner Config_default 42 sentence inmate).2 = ∅.
Proof.
  destruct (ReleaseFacts.release_prisoner_clears_the_record Config_default 42 sentence inmate)
    as (H1 & _ & H3).
  - reflexivity.
  - by_decision.
  - reflexivity.
  - split; [exact H1|]. rewrite H3. vm_compute; reflexivity.
Defined.

Lemma repetition_counts_repeats_witness :
  Monitor.resend 3 [104; 105] Monitor.limit_config_default Monitor.UserStats_default
  = (true,
     Monitor.mk_UserStats [] 0 0 0 0 (Some [104; 105]) (Some 3)).
Proof.
  rewrite (MonitorFacts.repetition_counts_repeats 3 [104; 105] Monitor.limit_config_default
             Monitor.UserStats_default).
  - reflexivity.
  - cbn. discriminate.
Defined.

Lemma on_message_create_keeps_entries_sound_witness :
  ∃ s',
    Monitor.on_message_create ascii_isdigit ascii_isspace Config_default
      (guild_with {[TEMPORARY_ROLE_ID Config_default]}) 100 200 greeting watching = inr s'
    ∧ (∀ k st, Monitor.stats s' !! k = Some st → Monitor.sound st)
    ∧ Monitor.in_range (Monitor.limit_config s').
Proof.
  destruct (MonitorFacts.on_message_create_counts ascii_isdigit ascii_isspace Config_default
              (guild_with {[TEMPORARY_ROLE_ID Config_default]}) 100 200 greeting watching
              {[TEMPORARY_ROLE_ID Config_default]}) as [s' Hs'].
  - reflexivity.
  - reflexivity.
  - reflexivity.
  - by_decision.
  - vm_compute; reflexivity.
  - by_decision.
  - exists s'. split; [exact Hs'|].
    destruct (MonitorFacts.on_message_create_keeps_entries_sound ascii_isdigit ascii_isspace
                Config_default (guild_with {[TEMPORARY_ROLE_ID Config_default]}) 100 200
                greeting watching s') as (H1 & _ & H3 & _).
    + intros k st H. cbn in H. rewrite lookup_empty in H. discriminate.
    + exact Hs'.
    + split; [exact H1|]. apply H3. unfold Monitor.in_range. cbn. lra.
Defined.

Lemma update_custom_roles_on_a_set_witness :
  Registry.update_custom_roles 3 ["helper"%string] ADD helpers
  = (inr {["helper"%string]},
     Registry.mk_Registry
       (<["helper"%string := Registry.mk_RoleMembers false ({[1; 2]} ∪ {[3]})]>
          (Registry.custom_roles helpers))
       (<["helper"%string := {[1; 2]} ∪ {[3]}]>
          (Registry.ids <$> Registry.custom_roles helpers)) true).
Proof.
  destruct (RegistryFacts.update_custom_roles_on_a_set 3 "helper"%string ADD
              (Registry.mk_RoleMembers false {[1; 2]}) helpers) as (H & _).
  - vm_compute; reflexivity.
  - reflexivity.
  - reflexivity.
  - apply H; [reflexivity|by_decision].
Defined.

Lemma update_custom_roles_unknown_role_witness :
  (Registry.update_custom_roles 3 ["scribe"%string] ADD helpers).1 = inr {["scribe"%string]}
  ∧ Registry.custom_roles (Registry.update_custom_roles 3 ["scribe"%string] ADD helpers).2
      !! "scribe"%string
    = Some (Registry.mk_RoleMembers false ∅).
Proof.
  rewrite (RegistryFacts.update_custom_roles_unknown_role 3 "scribe"%string ADD helpers).
  - split; [reflexivity|]. cbn. apply lookup_insert_eq.
  - vm_compute; reflexivity.
  - reflexivity.
Defined.

Lemma update_custom_roles_loaded_role_witness :
  Registry.update_custom_roles 3 ["helper"%string] ADD (Registry.load_custom_roles helpers)
  = (inl Registry.AttributeError, Registry.load_custom_roles helpers).
Proof.
  apply (RegistryFacts.update_custom_roles_loaded_role 3 "helper"%string ADD helpers
           {[1; 2]}).
  - vm_compute; reflexivity.
  - left. split; [reflexivity|by_decision].
Defined.

Lemma custom_role_add_then_remove_witness :
  Registry.custom_roles
    (Registry.update_custom_roles 3 ["helper"%string] REMOVE
       (Registry.update_custom_roles 3 ["helper"%string] ADD helpers).2).2
  = Registry.custom_roles helpers.
Proof.
  apply (RegistryFacts.custom_role_add_then_remove 3 "helper"%string
           (Registry.mk_RoleMembers false {[1; 2]}) helpers).
  - vm_compute; reflexivity.
  - reflexivity.
  - reflexivity.
  - by_decision.
  - intros H. apply (bool_decide_pack _) in H. vm_compute in H. exact H.
Defined.

End CasesFacts.
